(** * mongodl: version ordering, catalog import and query, download cache,
      retry policy and archive extraction

    A shallow embedding of [.evergreen/mongodl.py].  Python [str] is
    [string] (ASCII), Python [int] is [Z], a function that may raise returns
    [res], and the objects the program mutates (the retrier, the cache
    database, the cache directory) are explicit states. *)

From stdpp Require Import base gmap sets list strings.
From Stdlib Require Import ZArith String Ascii Lia Sorted.

Open Scope string_scope.
Open Scope Z_scope.

(** ** Exceptions *)

(** The exception classes the modelled code raises or lets through. *)
Inductive exn : Type :=
  | AssertionError
  | KeyError
  | ValueError
  | TypeError
  | AttributeError
  | NameError
  | RuntimeError
  | HTTPError (code : Z)
  | URLError
  | RecursionError
  | FileExistsError
  | FileNotFoundError
  | NotADirectoryError
  | IsADirectoryError
  | OSError
  | BadZipFile
  | OperationalError
  | IntegrityError
  | ProgrammingError
  | SystemExit (status : Z).

Inductive res (A : Type) : Type :=
  | Ok (a : A)
  | Raise (e : exn).
Arguments Ok {A} a.
Arguments Raise {A} e.

#[global] Instance res_ret : MRet res := fun A a => Ok a.
#[global] Instance res_bind : MBind res := fun A B f m =>
  match m with
  | Ok a => f a
  | Raise e => Raise e
  end.

Definition is_ok {A} (m : res A) : bool :=
  match m with Ok _ => true | Raise _ => false end.

(** ** Strings and the two version regular expressions *)

Module Str.

Definition is_digit (c : ascii) : bool :=
  let n := nat_of_ascii c in (48 <=? n)%nat && (n <=? 57)%nat.

Definition is_lower (c : ascii) : bool :=
  let n := nat_of_ascii c in (97 <=? n)%nat && (n <=? 122)%nat.

(** [str.isspace] on ASCII. *)
Definition is_space (c : ascii) : bool :=
  let n := nat_of_ascii c in
  ((9 <=? n)%nat && (n <=? 13)%nat) || ((28 <=? n)%nat && (n <=? 32)%nat).

Definition newline : ascii := ascii_of_nat 10.

(** The longest prefix whose characters satisfy [p], and what follows. *)
Fixpoint span (p : ascii -> bool) (s : string) : string * string :=
  match s with
  | EmptyString => (EmptyString, EmptyString)
  | String c s' =>
      if p c
      then let '(a, b) := span p s' in (String c a, b)
      else (EmptyString, s)
  end.

(** A greedy [X+] whose follower cannot start with an [X]: no backtracking. *)
Definition plus (p : ascii -> bool) (s : string) : option (string * string) :=
  match span p s with
  | (EmptyString, _) => None
  | (a, b) => Some (a, b)
  end.

Definition char (c : ascii) (s : string) : option string :=
  match s with
  | String c' s' => if Ascii.eqb c c' then Some s' else None
  | EmptyString => None
  end.

Fixpoint all (p : ascii -> bool) (s : string) : bool :=
  match s with
  | EmptyString => true
  | String c s' => p c && all p s'
  end.

Definition digit_val (c : ascii) : Z := Z.of_nat (nat_of_ascii c) - 48.

Fixpoint digits_val (acc : Z) (s : string) : Z :=
  match s with
  | EmptyString => acc
  | String c s' => digits_val (10 * acc + digit_val c) s'
  end.

Definition lstrip (s : string) : string := snd (span is_space s).

Fixpoint rstrip (s : string) : string :=
  match s with
  | EmptyString => EmptyString
  | String c s' =>
      match rstrip s' with
      | EmptyString => if is_space c then EmptyString else String c EmptyString
      | r => String c r
      end
  end.

(** [int(s)]: optional surrounding whitespace, an optional sign, and a
    non-empty run of decimal digits (digit grouping with underscores is
    left out). *)
Definition unsigned (t : string) : res Z :=
  match t with
  | EmptyString => Raise ValueError
  | _ => if all is_digit t then Ok (digits_val 0 t) else Raise ValueError
  end.

Definition int (s : string) : res Z :=
  let t := rstrip (lstrip s) in
  match t with
  | String c t' =>
      if Ascii.eqb c "-" then n ← unsigned t'; Ok (- n)
      else if Ascii.eqb c "+" then unsigned t'
      else unsigned t
  | EmptyString => Raise ValueError
  end.

(** [s.split(sep)] for a one-character separator. *)
Fixpoint split (sep : ascii) (s : string) : list string :=
  match s with
  | EmptyString => [EmptyString]
  | String c s' =>
      if Ascii.eqb c sep then EmptyString :: split sep s'
      else match split sep s' with
           | h :: t => String c h :: t
           | [] => [String c EmptyString]
           end
  end.

Fixpoint prefix (p s : string) : bool :=
  match p, s with
  | EmptyString, _ => true
  | String a p', String b s' => Ascii.eqb a b && prefix p' s'
  | String _ _, EmptyString => false
  end.

(** [needle in s] for strings. *)
Fixpoint contains (needle s : string) : bool :=
  prefix needle s ||
  match s with
  | EmptyString => false
  | String _ s' => contains needle s'
  end.

End Str.

(** [MAJOR_VERSION_RE = (\d+)\.(\d+)$] under [re.match]: anchored at the
    start; [$] holds at the end of the string or before one final newline. *)
Definition MAJOR_VERSION_RE_match (version : string) : bool :=
  match Str.plus Str.is_digit version with
  | Some (_, r1) =>
      match Str.char "." r1 with
      | Some r2 =>
          match Str.plus Str.is_digit r2 with
          | Some (_, r3) =>
              String.eqb r3 EmptyString
              || String.eqb r3 (String Str.newline EmptyString)
          | None => false
          end
      | None => false
      end
  | None => false
  end.

(** The optional group [(?:-([a-z]+)(\d+))?] of [VERSION_RE]. *)
Definition VERSION_RE_stage (s : string) : option (string * string) :=
  match Str.char "-" s with
  | Some r1 =>
      match Str.plus Str.is_lower r1 with
      | Some (tag, r2) =>
          match Str.plus Str.is_digit r2 with
          | Some (tagnum, _) => Some (tag, tagnum)
          | None => None
          end
      | None => None
      end
  | None => None
  end.

(** [VERSION_RE = (\d+)\.(\d+)\.(\d+)(?:-([a-z]+)(\d+))?] under [re.match]:
    a match of a prefix, returning [mat.groups()]; the last two groups are
    [None] together when the optional part does not match. *)
Definition VERSION_RE_match (version : string)
  : option (string * string * string * option (string * string)) :=
  match Str.plus Str.is_digit version with
  | Some (major, r1) =>
      match Str.char "." r1 with
      | Some r2 =>
          match Str.plus Str.is_digit r2 with
          | Some (minor, r3) =>
              match Str.char "." r3 with
              | Some r4 =>
                  match Str.plus Str.is_digit r4 with
                  | Some (patch, r5) =>
                      Some (major, minor, patch, VERSION_RE_stage r5)
                  | None => None
                  end
              | None => None
              end
          | None => None
          end
      | None => None
      end
  | None => None
  end.

(** ** Version tuples and their order *)

Definition STABLE_MAX_RC : Z := 9999.

Definition version_tuple : Type := (Z * Z * Z * Z * Z)%type.

(** The dictionary [{"alpha": 1, "beta": 2, "rc": 3}], indexed. *)
Definition stage_rank (tag : string) : res Z :=
  if String.eqb tag "alpha" then Ok 1
  else if String.eqb tag "beta" then Ok 2
  else if String.eqb tag "rc" then Ok 3
  else Raise KeyError.

Definition version_tup (version : string) : res version_tuple :=
  if MAJOR_VERSION_RE_match version then
    match Str.split "." version with
    | [maj; min] =>
        a ← Str.int maj;
        b ← Str.int min;
        Ok (a, b, 0, 0, 0)
    | _ => Raise ValueError
    end
  else
    match VERSION_RE_match version with
    | None => Raise AssertionError
    | Some (major, minor, patch, None) =>
        a ← Str.int major;
        b ← Str.int minor;
        c ← Str.int patch;
        Ok (a, b, c, STABLE_MAX_RC, 0)
    | Some (major, minor, patch, Some (tag, tagnum)) =>
        t ← stage_rank tag;
        a ← Str.int major;
        b ← Str.int minor;
        c ← Str.int patch;
        n ← Str.int tagnum;
        Ok (a, b, c, t, n)
    end.

(** Python's [<] on tuples of integers: lexicographic. *)
Definition tup_compare (l r : version_tuple) : comparison :=
  let '(a1, b1, c1, d1, e1) := l in
  let '(a2, b2, c2, d2, e2) := r in
  match a1 ?= a2 with
  | Eq => match b1 ?= b2 with
          | Eq => match c1 ?= c2 with
                  | Eq => match d1 ?= d2 with
                          | Eq => e1 ?= e2
                          | o => o
                          end
                  | o => o
                  end
          | o => o
          end
  | o => o
  end.

Definition tup_ltb (l r : version_tuple) : bool :=
  match tup_compare l r with Lt => true | _ => false end.

Definition tup_lt (l r : version_tuple) : Prop := tup_ltb l r = true.

Definition collate_mdb_version (left right : string) : res Z :=
  lhs ← version_tup left;
  rhs ← version_tup right;
  if tup_ltb lhs rhs then Ok (-1)
  else if tup_ltb rhs lhs then Ok 1
  else Ok 0.

(** [tup[-1]] is the last component, the stage sequence number. *)
Definition mdb_version_not_rc (version : string) : res bool :=
  tup ← version_tup version;
  let '(_, _, _, _, last) := tup in
  Ok (last =? STABLE_MAX_RC).

Definition mdb_version_rapid (version : string) : res bool :=
  tup ← version_tup version;
  let '(_, minor, _, _, _) := tup in
  Ok (0 <? minor).

(** ** The retry policy *)

Record DownloadRetrier : Type := mkRetrier { retries : Z; attempt : Z }.

(** [DownloadRetrier(retries)]; the constructor asserts [retries >= 0]. *)
Definition DownloadRetrier_init (n : Z) : res DownloadRetrier :=
  if 0 <=? n then Ok (mkRetrier n 0) else Raise AssertionError.

Definition ten_minutes : Z := 600.

(** One call of [retry]: the answer, the object afterwards, and the
    arguments of the [time.sleep] calls it made, in order. *)
Definition retry (self : DownloadRetrier) : bool * DownloadRetrier * list Z :=
  if retries self <=? attempt self then (false, self, [])
  else
    let self' := mkRetrier (retries self) (attempt self + 1) in
    (true, self', [Z.min (2 ^ (attempt self' - 1)) ten_minutes]).

(** [n] successive calls on the same object: each call's answer and sleeps. *)
Fixpoint retry_calls (n : nat) (self : DownloadRetrier) : list (bool * list Z) :=
  match n with
  | O => []
  | S n' =>
      let '(b, self', slept) := retry self in
      (b, slept) :: retry_calls n' self'
  end.

(** ** Paths *)

Module Path.

(** A pure POSIX path, held as its [parts] tuple. *)
Definition PurePath : Type := list string.

Definition is_slash (c : ascii) : bool := Ascii.eqb c "/".

Definition keep_segment (seg : string) : bool :=
  negb (String.eqb seg "") && negb (String.eqb seg ".").

(** [PurePosixPath(s).parts]: one leading slash, or three and more, give
    the root ["/"], exactly two give ["//"]; empty and ["."] segments are
    dropped. *)
Definition parse (s : string) : PurePath :=
  let '(slashes, rest) := Str.span is_slash s in
  let root :=
    match String.length slashes with
    | O => []
    | 2%nat => ["//"]
    | _ => ["/"]
    end in
  (root ++ filter (fun seg => keep_segment seg = true) (Str.split "/" rest))%list.

Definition is_root (seg : string) : bool := Str.prefix "/" seg.

Definition is_absolute (p : PurePath) : bool :=
  match p with
  | seg :: _ => is_root seg
  | [] => false
  end.

(** [a / b] *)
Definition join (a b : PurePath) : PurePath :=
  if is_absolute b then b else (a ++ b)%list.

(** [p.parent]: the root and the empty path are their own parents. *)
Definition parent (p : PurePath) : PurePath :=
  match p with
  | [] => []
  | [seg] => if is_root seg then p else []
  | _ => removelast p
  end.

(** [p.name] *)
Definition name (p : PurePath) : string :=
  match p with
  | [] => ""
  | [seg] => if is_root seg then "" else seg
  | _ => List.last p ""
  end.

(** A segment as [parts] delivers it after the root. *)
Definition clean_segment (seg : string) : bool :=
  keep_segment seg && Str.all (fun c => negb (is_slash c)) seg.

Definition relative (p : PurePath) : Prop :=
  Forall (fun seg => clean_segment seg = true) p.

(** [l[i:]] with Python's reading of a negative index. *)
Definition slice_from {A} (l : list A) (i : Z) : list A :=
  let n := Z.of_nat (List.length l) in
  drop (Z.to_nat (if i <? 0 then n + i else i)) l.

End Path.

Import Path.

Definition _pathjoin (items : list string) : PurePath :=
  parse (String.concat "/" items).

(** ** The glob matcher *)

(** Python's [any] over a lazily evaluated generator. *)
Fixpoint any_lazy {A} (f : A -> option bool) (l : list A) : option bool :=
  match l with
  | [] => Some false
  | x :: l' =>
      match f x with
      | Some true => Some true
      | Some false => any_lazy f l'
      | None => None
      end
  end.

Section Glob.

(** [fnmatch(name, pat)] of the standard library. *)
Variable fnmatch : string -> string -> bool.

(** [_test_pattern], the recursion depth bounded by [fuel]; [None] when
    the bound is reached. *)
Fixpoint _test_pattern_fuel (fuel : nat) (path : PurePath)
    (pattern : option PurePath) : option bool :=
  match fuel with
  | O => None
  | S fuel' =>
      match pattern with
      | None => Some true
      | Some pattern_parts =>
          match pattern_parts with
          | [] => Some true
          | pattern_head :: pattern_rest =>
              let path_parts := path in
              match path_parts with
              | [] => Some false
              | path_head :: path_rest =>
                  let pattern_tail := _pathjoin pattern_rest in
                  if String.eqb pattern_head "**" then
                    let tails :=
                      map (fun i => drop i path_parts)
                          (seq 0 (List.length path_parts)) in
                    any_lazy
                      (fun t => _test_pattern_fuel fuel' (_pathjoin t)
                                  (Some pattern_tail))
                      tails
                  else if negb (fnmatch path_head pattern_head) then Some false
                  else _test_pattern_fuel fuel' (_pathjoin path_rest)
                         (Some pattern_tail)
              end
          end
      end
  end.

(** Each recursive call drops one pattern part. *)
Definition _test_pattern (path : PurePath) (pattern : option PurePath)
  : option bool :=
  _test_pattern_fuel
    (S (List.length (default [] pattern))) path pattern.

(** The matcher written on part lists, by recursion on the pattern. *)
Fixpoint glob_match (pattern path : list string) : bool :=
  match pattern with
  | [] => true
  | h :: pt =>
      match path with
      | [] => false
      | q :: qt =>
          if String.eqb h "**" then
            existsb (fun i => glob_match pt (drop i path))
                    (seq 0 (List.length path))
          else fnmatch q h && glob_match pt qt
      end
  end.

End Glob.

(** ** Filename patterns *)

(** The standard library's [fnmatch.fnmatch(name, pat)] with POSIX
    [normcase]: [*], [?], [[seq]], [[!seq]] and ranges; a pattern is
    compiled to tokens and the whole name must match. *)
Module Fnmatch.

Inductive token : Type :=
  | Star
  | AnyChar
  | Lit (c : ascii)
  | Class (negated : bool) (items : list (ascii * ascii)).

Fixpoint until_close (s : string) : option (string * string) :=
  match s with
  | EmptyString => None
  | String c s' =>
      if Ascii.eqb c "]" then Some (EmptyString, s')
      else match until_close s' with
           | Some (a, b) => Some (String c a, b)
           | None => None
           end
  end.

(** After a ["["]: whether the class is negated, its body and what
    follows the closing bracket.  A ["]"] in first position is a member. *)
Definition find_close (s : string) : option (bool * string * string) :=
  let '(neg, s1) :=
    match s with
    | String "!" s' => (true, s')
    | _ => (false, s)
    end in
  match s1 with
  | String "]" s2 =>
      match until_close s2 with
      | Some (a, b) => Some (neg, String "]" a, b)
      | None => None
      end
  | _ =>
      match until_close s1 with
      | Some (a, b) => Some (neg, a, b)
      | None => None
      end
  end.

Definition ascii_leb (a b : ascii) : bool :=
  (nat_of_ascii a <=? nat_of_ascii b)%nat.

(** The members of a class body: [a-b] is a range (empty when
    reversed), every other character stands for itself. *)
Fixpoint class_items (s : string) : list (ascii * ascii) :=
  match s with
  | EmptyString => []
  | String c1 s1 =>
      match s1 with
      | String "-" (String c2 s2) =>
          if ascii_leb c1 c2 then (c1, c2) :: class_items_after s2
          else class_items_after s2
      | _ => (c1, c1) :: class_items s1
      end
  end
(** Directly after a range a hyphen stands for itself. *)
with class_items_after (s : string) : list (ascii * ascii) :=
  match s with
  | EmptyString => []
  | String c s' => (c, c) :: class_items s'
  end.

Fixpoint tokenize (fuel : nat) (pat : string) : list token :=
  match fuel with
  | O => []
  | S fuel' =>
      match pat with
      | EmptyString => []
      | String c rest =>
          if Ascii.eqb c "*" then Star :: tokenize fuel' rest
          else if Ascii.eqb c "?" then AnyChar :: tokenize fuel' rest
          else if Ascii.eqb c "[" then
            match find_close rest with
            | None => Lit "[" :: tokenize fuel' rest
            | Some (neg, body, rest') =>
                Class neg (class_items body) :: tokenize fuel' rest'
            end
          else Lit c :: tokenize fuel' rest
      end
  end.

Definition class_match (neg : bool) (items : list (ascii * ascii)) (c : ascii)
  : bool :=
  xorb neg (existsb (fun '(lo, hi) => ascii_leb lo c && ascii_leb c hi) items).

Fixpoint match_tokens (ts : list token) (name : string) : bool :=
  match ts with
  | [] => String.eqb name EmptyString
  | Star :: ts' =>
      (fix star (n : string) : bool :=
         match_tokens ts' n
         || match n with
            | EmptyString => false
            | String _ n' => star n'
            end) name
  | AnyChar :: ts' =>
      match name with
      | String _ n' => match_tokens ts' n'
      | EmptyString => false
      end
  | Lit c :: ts' =>
      match name with
      | String c' n' => Ascii.eqb c c' && match_tokens ts' n'
      | EmptyString => false
      end
  | Class neg items :: ts' =>
      match name with
      | String c' n' => class_match neg items c' && match_tokens ts' n'
      | EmptyString => false
      end
  end.

Definition fnmatch (name pat : string) : bool :=
  match_tokens (tokenize (S (String.length pat)) pat) name.

End Fnmatch.

(** ** The cache directory *)

Inductive node : Type :=
  | Dir
  | File (content : string) (mode : Z).

(** Paths are keyed by their parts; the root and the current directory
    always exist. *)
Definition filesystem : Type := gmap (list string) node.

Definition node_at (fs : filesystem) (p : PurePath) : option node :=
  match p with
  | [] => Some Dir
  | [seg] => if is_root seg then Some Dir else fs !! p
  | _ => fs !! p
  end.

Definition path_exists (fs : filesystem) (p : PurePath) : bool :=
  match node_at fs p with Some _ => true | None => false end.

Definition path_is_dir (fs : filesystem) (p : PurePath) : bool :=
  match node_at fs p with Some Dir => true | _ => false end.

Definition path_is_file (fs : filesystem) (p : PurePath) : bool :=
  match node_at fs p with Some (File _ _) => true | _ => false end.

(** [p.mkdir()] *)
Definition mkdir (fs : filesystem) (p : PurePath) : res filesystem :=
  match node_at fs p with
  | Some _ => Raise FileExistsError
  | None =>
      match node_at fs (parent p) with
      | Some Dir => Ok (<[p := Dir]> fs)
      | Some (File _ _) => Raise NotADirectoryError
      | None => Raise FileNotFoundError
      end
  end.

Fixpoint _mkdir_fuel (fuel : nat) (fs : filesystem) (dirpath : PurePath)
  : res filesystem :=
  match fuel with
  | O => Raise RecursionError
  | S fuel' =>
      if path_is_dir fs dirpath then Ok fs
      else
        let par := parent dirpath in
        fs1 ← (if bool_decide (par = dirpath) then Ok fs
               else _mkdir_fuel fuel' fs par);
        match mkdir fs1 dirpath with
        | Raise FileExistsError => Ok fs1
        | r => r
        end
  end.

(** The recursion climbs one part per call. *)
Definition _mkdir (fs : filesystem) (dirpath : PurePath) : res filesystem :=
  _mkdir_fuel (S (List.length dirpath)) fs dirpath.

(** Mode of a file created by [open(.., "wb")], before any [chmod]. *)
Definition default_mode : Z := 420.

(** [p.open("wb")] followed by writing [content]; file permissions are not
    enforced. *)
Definition write_file (fs : filesystem) (p : PurePath) (content : string)
  : res filesystem :=
  match node_at fs p with
  | Some Dir => Raise IsADirectoryError
  | Some (File _ mode) => Ok (<[p := File content mode]> fs)
  | None =>
      match node_at fs (parent p) with
      | Some Dir => Ok (<[p := File content default_mode]> fs)
      | Some (File _ _) => Raise NotADirectoryError
      | None => Raise FileNotFoundError
      end
  end.

Definition chmod (fs : filesystem) (p : PurePath) (modebits : Z)
  : res filesystem :=
  match node_at fs p with
  | Some (File content _) => Ok (<[p := File content modebits]> fs)
  | Some Dir => Ok fs
  | None => Raise FileNotFoundError
  end.

(** ** Extraction of one archive member *)

(** [PurePath(pattern) if pattern else None] *)
Definition pattern_path (pattern : option string) : option PurePath :=
  match pattern with
  | None => None
  | Some EmptyString => None
  | Some s => Some (parse s)
  end.

(** An open archive member as [shutil.copyfileobj] reads it: the bytes it
    hands over before the copy ends, and the exception that ends the copy
    early, if any (a failed checksum, an input or output error). *)
Record Infile : Type := mkInfile {
  in_bytes : string;
  in_error : option exn
}.

(** A member that is read to its end. *)
Definition whole (content : string) : Infile := mkInfile content None.

(** How [shutil.copyfileobj] ends once the bytes it got are written. *)
Definition copy_end (infile : Infile) : res unit :=
  match in_error infile with
  | Some e => Raise e
  | None => Ok ()
  end.

(** [_maybe_extract_member]: the count it returns and the file system
    afterwards.  [opener] is what the member's opener delivers.  The file
    is created or emptied by [dest.open("wb")] before the copy, and
    [os.chmod] is reached by a complete copy only. *)
Definition _maybe_extract_member (fs : filesystem) (out : PurePath)
    (relpath : PurePath) (pattern : option string) (strip : Z)
    (is_dir : bool) (opener : res Infile) (modebits : Z) (test : bool)
  : res (Z * filesystem) :=
  if Z.of_nat (List.length relpath) <=? strip then Ok (0, fs)
  else
    match _test_pattern Fnmatch.fnmatch relpath (pattern_path pattern) with
    | None => Raise RecursionError
    | Some false => Ok (0, fs)
    | Some true =>
        let stripped := _pathjoin (slice_from relpath strip) in
        let dest := join out stripped in
        if test then Ok (1, fs)
        else if is_dir then
          fs1 ← _mkdir fs dest;
          Ok (1, fs1)
        else
          infile ← opener;
          fs1 ← _mkdir fs (parent dest);
          fs2 ← write_file fs1 dest (in_bytes infile);
          copy_end infile;;
          fs3 ← chmod fs2 dest modebits;
          Ok (1, fs3)
    end.

(** ** The manifest and the catalog tables *)

#[local] Set Warnings "-register-all".

(** The JSON values of a download entry: strings and objects. *)
Inductive json : Type :=
  | JStr (s : string)
  | JObj (fields : list (string * json)).

(** A [dict] in insertion order; keys are distinct. *)
Definition dict : Type := list (string * json).

Fixpoint dict_get (k : string) (d : dict) : option json :=
  match d with
  | [] => None
  | (k', v) :: d' => if String.eqb k k' then Some v else dict_get k d'
  end.

(** [d[k]] *)
Definition dict_item (k : string) (d : dict) : res json :=
  match dict_get k d with
  | Some v => Ok v
  | None => Raise KeyError
  end.

(** [v[k]] on a JSON value. *)
Definition json_item (k : string) (v : json) : res json :=
  match v with
  | JObj d => dict_item k d
  | JStr _ => Raise TypeError
  end.

(** [k in v]: a key of an object, a substring of a string. *)
Definition json_contains (k : string) (v : json) : bool :=
  match v with
  | JObj d => match dict_get k d with Some _ => true | None => false end
  | JStr s => Str.contains k s
  end.

(** A value bound to a [TEXT] column: objects cannot be bound. *)
Definition bind_text (v : json) : res string :=
  match v with
  | JStr s => Ok s
  | JObj _ => Raise ProgrammingError
  end.

(** One entry of [data["versions"]]. *)
Record VersionEntry : Type := mkVersionEntry {
  ve_version : string;
  ve_githash : string;
  ve_date : string;
  ve_downloads : list dict
}.

Record VersionRow : Type := mkVersionRow {
  vr_version_id : Z;
  vr_date : string;
  vr_version : string;
  vr_githash : string
}.

Record DownloadRow : Type := mkDownloadRow {
  dr_download_id : Z;
  dr_version_id : Z;
  dr_target : string;
  dr_arch : string;
  dr_edition : string;
  dr_ar_url : string;
  dr_ar_debug_url : option string;
  dr_data : json
}.

Record ComponentRow : Type := mkComponentRow {
  cr_component_id : Z;
  cr_key : string;
  cr_download_id : Z;
  cr_data : json
}.

(** The three catalog tables; [json.dumps] text is kept as the value it
    encodes. *)
Record Catalog : Type := mkCatalog {
  mdl_versions : list VersionRow;
  mdl_downloads : list DownloadRow;
  mdl_components : list ComponentRow
}.

Definition empty_catalog : Catalog := mkCatalog [] [] [].

(** The values of [DISTRO_ID_TO_TARGET], one list per distribution. *)
Definition DISTRO_ID_TO_TARGET_values : list (list string) :=
  [ ["ubuntu2404"; "ubuntu2204"; "ubuntu2004"; "ubuntu1804"; "ubuntu1604";
     "ubuntu1404"];
    ["debian92"; "debian10"; "debian11"; "debian12"];
    ["rhel6"; "rhel6"; "rhel7"; "rhel7"; "rhel8"; "rhel8"; "rhel9"; "rhel9"];
    ["suse10"; "suse11"; "suse12"; "suse13"; "suse15"];
    ["amazon2023"; "amzn64"; "amazon2"] ].

Definition TARGETS_THAT_ARE_NOT_DISTROS : list string :=
  ["linux_i686"; "linux_x86_64"; "osx"; "macos"; "windows"].

Definition str_in (s : string) (l : list string) : bool :=
  existsb (String.eqb s) l.

(** [target[:-1]] *)
Fixpoint drop_last_char (s : string) : string :=
  match s with
  | EmptyString => EmptyString
  | String c EmptyString => EmptyString
  | String c s' => String c (drop_last_char s')
  end.

(** RHEL target names keep just the major version. *)
Definition normalize_target (target : string) : string :=
  if Str.prefix "rhel" target && (String.length target =? 6)%nat
  then drop_last_char target
  else target.

(** The loop over [DISTRO_ID_TO_TARGET.values()]. *)
Definition target_found (target : string) : bool :=
  fold_left (fun found distro => if str_in target distro then true else found)
            DISTRO_ID_TO_TARGET_values false.

Definition next_rowid {A} (table : list A) : Z := Z.of_nat (List.length table) + 1.

(** The component rows of one download: every field that holds ["url"]. *)
Fixpoint import_components (dl_id : Z) (fields : dict)
    (table : list ComponentRow) : res (list ComponentRow) :=
  match fields with
  | [] => Ok table
  | (key, data) :: rest =>
      if negb (json_contains "url" data) then import_components dl_id rest table
      else if existsb (fun r => String.eqb (cr_key r) key
                                && (cr_download_id r =? dl_id)) table
      then Raise IntegrityError
      else import_components dl_id rest
             (table ++ [mkComponentRow (next_rowid table) key dl_id data])%list
  end.

(** The body of the loop over [ver["downloads"]]. *)
Definition import_download (version_id : Z) (st : Catalog * gset string)
    (dl : dict) : res (Catalog * gset string) :=
  let '(cat, missing) := st in
  let arch := default (JStr "null") (dict_get "arch" dl) in
  match default (JStr "null") (dict_get "target" dl) with
  | JObj _ => Raise AttributeError
  | JStr target0 =>
      let target := normalize_target target0 in
      let found := target_found target in
      let missing :=
        if negb found && negb (str_in target TARGETS_THAT_ARE_NOT_DISTROS)
        then missing ∪ {[ target ]} else missing in
      edition ← dict_item "edition" dl;
      archive ← dict_item "archive" dl;
      ar_url ← json_item "url" archive;
      let ar_debug_url :=
        match archive with
        | JObj d => dict_get "debug_symbols" d
        | JStr _ => None
        end in
      arch_s ← bind_text arch;
      edition_s ← bind_text edition;
      ar_url_s ← bind_text ar_url;
      ar_debug_s ← match ar_debug_url with
                   | None => Ok None
                   | Some v => s ← bind_text v; Ok (Some s)
                   end;
      let dl_id := next_rowid (mdl_downloads cat) in
      let row := mkDownloadRow dl_id version_id target arch_s edition_s
                   ar_url_s ar_debug_s (JObj dl) in
      comps ← import_components dl_id dl (mdl_components cat);
      Ok (mkCatalog (mdl_versions cat) (mdl_downloads cat ++ [row])%list comps,
          missing)
  end.

Fixpoint import_downloads (version_id : Z) (st : Catalog * gset string)
    (dls : list dict) : res (Catalog * gset string) :=
  match dls with
  | [] => Ok st
  | dl :: rest =>
      st' ← import_download version_id st dl;
      import_downloads version_id st' rest
  end.

(** The loop over [data["versions"]].  [missing] is [None] while the
    variable is unbound; every version entry binds it to a fresh set. *)
Fixpoint import_versions (st : Catalog * option (gset string))
    (vers : list VersionEntry) : res (Catalog * option (gset string)) :=
  match vers with
  | [] => Ok st
  | ver :: rest =>
      let '(cat, _) := st in
      let version_id := next_rowid (mdl_versions cat) in
      let row := mkVersionRow version_id (ve_date ver) (ve_version ver)
                   (ve_githash ver) in
      let cat1 := mkCatalog (mdl_versions cat ++ [row])%list
                    (mdl_downloads cat) (mdl_components cat) in
      let missing : gset string := ∅ in
      '(cat2, missing') ← import_downloads version_id (cat1, missing)
                            (ve_downloads ver);
      import_versions (cat2, Some missing') rest
  end.

(** What [_import_json_data] leaves behind: the tables, the set of targets
    written to the error log ([None] when nothing is logged) and how the
    call ends.  The half-built tables at an exception inside the loops are
    not tracked: the field then holds the empty catalog. *)
Record ImportOutcome : Type := mkImportOutcome {
  io_catalog : Catalog;
  io_reported : option (gset string);
  io_result : res unit
}.

(** [_import_json_data]; [validate_distros] is whether the environment has
    [VALIDATE_DISTROS=1].  The old tables are dropped first. *)
Definition _import_json_data (validate_distros : bool) (old : Catalog)
    (data : list VersionEntry) : ImportOutcome :=
  match import_versions (empty_catalog, None) data with
  | Raise e => mkImportOutcome empty_catalog None (Raise e)
  | Ok (cat, None) => mkImportOutcome cat None (Raise NameError)
  | Ok (cat, Some missing) =>
      if bool_decide (missing = ∅) then mkImportOutcome cat None (Ok ())
      else mkImportOutcome cat (Some missing)
             (if validate_distros then Raise (SystemExit 1) else Ok ())
  end.

(** [import_json_data]: the same inside a transaction, which an exception
    rolls back. *)
Definition import_json_data (validate_distros : bool) (old : Catalog)
    (data : list VersionEntry) : ImportOutcome :=
  let o := _import_json_data validate_distros old data in
  match io_result o with
  | Ok _ => o
  | Raise e => mkImportOutcome old (io_reported o) (Raise e)
  end.

(** ** Catalog queries *)

Record DownloadableComponent : Type := mkDownloadableComponent {
  dc_version : string;
  dc_target : string;
  dc_arch : string;
  dc_edition : string;
  dc_key : string;
  dc_data_json : json
}.

Module Sql.

Definition lower (c : ascii) : ascii :=
  let n := nat_of_ascii c in
  if (65 <=? n)%nat && (n <=? 90)%nat then ascii_of_nat (n + 32) else c.

(** [text LIKE pattern]: [%] is any run of characters, [_] any one
    character, letters compare without case. *)
Fixpoint like (pattern text : string) : bool :=
  match pattern with
  | EmptyString => String.eqb text EmptyString
  | String p pattern' =>
      if Ascii.eqb p "%" then
        (fix any_run (t : string) : bool :=
           like pattern' t
           || match t with
              | EmptyString => false
              | String _ t' => any_run t'
              end) text
      else
        match text with
        | EmptyString => false
        | String c text' =>
            (Ascii.eqb p "_" || Ascii.eqb (lower p) (lower c))
            && like pattern' text'
        end
  end.

(** [:param IS NULL OR column=:param] *)
Definition matches (param : option string) (column : string) : bool :=
  match param with
  | None => true
  | Some v => String.eqb column v
  end.

(** A Python exception inside a registered function fails the statement. *)
Definition call {A} (r : res A) : res A :=
  match r with
  | Ok a => Ok a
  | Raise _ => Raise OperationalError
  end.

End Sql.

(** The [CASE] of the [WHERE] clause on the version column. *)
Definition version_case (param : option string) (ver : string) : res bool :=
  match param with
  | None => Ok true
  | Some v =>
      if String.eqb v "latest-release" then Ok true
      else if String.eqb v "latest-stable" then Sql.call (mdb_version_not_rc ver)
      else if String.eqb v "rapid" then Sql.call (mdb_version_rapid ver)
      else Ok (String.eqb ver v || Sql.like (v ++ ".%") ver)
  end.

(** [mdl_components, mdl_downloads USING(download_id), mdl_versions
    USING(version_id)] *)
Definition joined_rows (cat : Catalog) : list DownloadableComponent :=
  c ← mdl_components cat;
  d ← filter (fun d => dr_download_id d = cr_download_id c) (mdl_downloads cat);
  v ← filter (fun v => vr_version_id v = dr_version_id d) (mdl_versions cat);
  [mkDownloadableComponent (vr_version v) (dr_target d) (dr_arch d)
     (dr_edition d) (cr_key c) (cr_data c)].

Fixpoint where_rows (f : DownloadableComponent -> res bool)
    (rows : list DownloadableComponent) : res (list DownloadableComponent) :=
  match rows with
  | [] => Ok []
  | r :: rest =>
      b ← f r;
      rest' ← where_rows f rest;
      Ok (if (b : bool) then r :: rest' else rest')
  end.

(** [ORDER BY version COLLATE mdb_version DESC], as a stable insertion
    sort; SQLite leaves the order of rows of equal rank open. *)
Fixpoint insert_desc (r : DownloadableComponent)
    (sorted : list DownloadableComponent) : res (list DownloadableComponent) :=
  match sorted with
  | [] => Ok [r]
  | s :: rest =>
      c ← Sql.call (collate_mdb_version (dc_version r) (dc_version s));
      if 0 <=? c then Ok (r :: sorted)
      else rest' ← insert_desc r rest; Ok (s :: rest')
  end.

Fixpoint order_desc (rows : list DownloadableComponent)
  : res (list DownloadableComponent) :=
  match rows with
  | [] => Ok []
  | r :: rest => sorted ← order_desc rest; insert_desc r sorted
  end.

(** [CacheDB.iter_available]: the rows the generator yields, in order.  The
    version functions are called on the rows that pass the other filters. *)
Definition iter_available (cat : Catalog)
    (version target arch edition component : option string)
  : res (list DownloadableComponent) :=
  let plain r :=
    Sql.matches component (dc_key r) && Sql.matches target (dc_target r)
    && Sql.matches arch (dc_arch r) && Sql.matches edition (dc_edition r) in
  rows ← where_rows
            (fun r => if plain r then version_case version (dc_version r)
                      else Ok false)
            (joined_rows cat);
  order_desc rows.

(** ** Resolving a request to a URL *)

(** [_published_build_url]: the URL and the checksum, as stored. *)
Definition _published_build_url (cat : Catalog)
    (version target arch edition component : string) : res (json * json) :=
  let '(component, value) :=
    if String.eqb component "archive-debug" then ("archive", "debug_symbols")
    else (component, "url") in
  matching ← iter_available cat (Some version) (Some target) (Some arch)
                (Some edition) (Some component);
  match matching with
  | [] => Raise ValueError
  | tup :: _ =>
      let data := dc_data_json tup in
      url ← json_item value data;
      sha ← json_item "sha256" data;
      Ok (url, sha)
  end.

(** [re.search(r"rhel[0-9][0-9]", s)]: the first match. *)
Fixpoint search_rhel_minor (s : string) : option string :=
  match s with
  | EmptyString => None
  | String _ s' =>
      if Str.prefix "rhel" s then
        match String.substring 4 2 s with
        | String a (String b EmptyString) =>
            if Str.is_digit a && Str.is_digit b
            then Some (String.substring 0 6 s)
            else search_rhel_minor s'
        | _ => search_rhel_minor s'
        end
      else search_rhel_minor s'
  end.

Definition _latest_build_url (cat : Catalog)
    (target arch edition component : string) (branch : option string)
  : res string :=
  let platform :=
    if String.eqb target "windows" then "windows"
    else if String.eqb target "win32" then "win32"
    else if String.eqb target "macos" then "osx"
    else "linux" in
  let typ :=
    if String.eqb target "windows" then "windows"
    else if String.eqb target "win32" then "win32"
    else if String.eqb target "macos" then "macos"
    else "linux" in
  let component_name :=
    if String.eqb component "archive" then "mongodb"
    else if String.eqb component "crypt_shared" then "mongo_crypt_shared_v1"
    else component in
  let base := "https://downloads.10gen.com/" ++ platform in
  let ext := if String.eqb target "windows" then "zip" else "tgz" in
  let ent_infix := if String.eqb edition "enterprise" then "enterprise-" else "" in
  target ← (if Str.contains "rhel" target then
              '(latest_release_url, _) ←
                 _published_build_url cat "latest-release" target arch edition
                   component;
              match latest_release_url with
              | JObj _ => Raise TypeError
              | JStr u =>
                  match search_rhel_minor u with
                  | Some got => Ok got
                  | None => Ok target
                  end
              end
            else Ok target);
  let tgt_infix :=
    if negb (str_in target ["windows"; "win32"; "macos"]) then target ++ "-"
    else "" in
  let br_infix :=
    match branch with
    | Some b => if negb (String.eqb b "master") then b ++ "-" else ""
    | None => ""
    end in
  let filename :=
    component_name ++ "-" ++ typ ++ "-" ++ arch ++ "-" ++ ent_infix
    ++ tgt_infix ++ br_infix ++ "latest." ++ ext in
  Ok (base ++ "/" ++ filename).

(** What the first part of [_dl_component] decides, up to [print(dl_url)]:
    the warnings issued, and the URL with its checksum or the exception. *)
Record Resolved : Type := mkResolved {
  rs_warnings : list string;
  rs_result : res (json * option json)
}.

Definition crypt_shared_warning : string :=
  "No matching version of crypt_shared found, using 'latest-release'".

Definition with_sha (r : res (json * json)) : res (json * option json) :=
  '(url, sha) ← r; Ok (url, Some sha).

Definition _dl_component_resolve (cat : Catalog)
    (version target arch edition component : string)
    (latest_build_branch : option string) : Resolved :=
  if str_in version ["latest-build"; "latest"] then
    mkResolved []
      (u ← _latest_build_url cat target arch edition component
             latest_build_branch;
       Ok (JStr u, None))
  else
    match _published_build_url cat version target arch edition component with
    | Raise ValueError =>
        if String.eqb component "crypt_shared"
           && negb (String.eqb version "latest-release")
        then
          let version := "latest-release" in
          let target := if String.eqb target "osx" then "macos" else target in
          mkResolved [crypt_shared_warning]
            (with_sha (_published_build_url cat version target arch edition
                         component))
        else mkResolved [] (Raise ValueError)
    | r => mkResolved [] (with_sha r)
    end.

(** ** The download cache *)

Record Request : Type := mkRequest {
  req_url : string;
  req_headers : gmap string string
}.

Record Response : Type := mkResponse {
  resp_headers : gmap string string;
  resp_body : string
}.

(** [DownloadResult(is_changed, path)] *)
Record DownloadResult : Type := mkDownloadResult {
  is_changed : bool;
  path : PurePath
}.

(** The table [mdl_http_downloads]: per URL the stored [etag] and
    [last_modified], each possibly [NULL]. *)
Definition http_table : Type := gmap string (option string * option string).

(** A string that counts as true in a condition. *)
Definition truthy (s : option string) : option string :=
  match s with
  | Some EmptyString => None
  | o => o
  end.

(** What one call of [download_file] does: the request it sends, its
    result, and the cache directory and table afterwards. *)
Record Fetched : Type := mkFetched {
  ft_request : Request;
  ft_result : res DownloadResult;
  ft_fs : filesystem;
  ft_table : http_table
}.

Section Cache.

(** [hashlib.sha256(s.encode("utf-8")).hexdigest()] *)
Variable sha256_hexdigest : string -> string.

(** [urllib.request.urlopen]: the remote side's answer to a request. *)
Variable urlopen : Request -> res Response.

(** The cache directory, [self._dirpath]. *)
Variable _dirpath : PurePath.

(** The local path derived from a URL. *)
Definition cache_dest (url : string) : PurePath :=
  let digest := String.substring 0 4 (sha256_hexdigest url) in
  let file_name := name (parse url) in
  join (join (join _dirpath (parse "files")) (parse digest)) (parse file_name).

(** The headers of the request, before it is sent. *)
Definition request_headers (fs : filesystem) (table : http_table)
    (url : string) : gmap string string :=
  let '(etag, modtime) := default (None, None) (table !! url) in
  let headers : gmap string string := ∅ in
  let headers :=
    match truthy etag with
    | Some e => <["If-None-Match" := e]> headers
    | None => headers
    end in
  let headers :=
    match truthy modtime with
    | Some m => <["If-Modified-Since" := m]> headers
    | None => headers
    end in
  if negb (path_exists fs (cache_dest url)) then ∅ else headers.

(** [int(resp.getheader("Content-Length"))] *)
Definition content_length (resp : Response) : res Z :=
  match resp_headers resp !! "Content-Length" with
  | None => Raise TypeError
  | Some s => Str.int s
  end.

(** The part of [download_file] after a response has arrived. *)
Definition store_response (fs : filesystem) (table : http_table)
    (url : string) (resp : Response)
  : res DownloadResult * filesystem * http_table :=
  let dest := cache_dest url in
  match _mkdir fs (parent dest) with
  | Raise e => (Raise e, fs, table)
  | Ok fs1 =>
      let got_etag := resp_headers resp !! "ETag" in
      let got_modtime := resp_headers resp !! "Last-Modified" in
      match content_length resp with
      | Raise e => (Raise e, fs1, table)
      | Ok got_len =>
          match write_file fs1 dest (resp_body resp) with
          | Raise e => (Raise e, fs1, table)
          | Ok fs2 =>
              let file_size := Z.of_nat (String.length (resp_body resp)) in
              if negb (file_size =? got_len) then (Raise RuntimeError, fs2, table)
              else (Ok (mkDownloadResult true dest), fs2,
                    <[url := (got_etag, got_modtime)]> table)
          end
      end
  end.

Definition download_file (fs : filesystem) (table : http_table)
    (url : string) : Fetched :=
  let dest := cache_dest url in
  let req := mkRequest url (request_headers fs table url) in
  match urlopen req with
  | Raise (HTTPError code) =>
      if negb (code =? 304) then mkFetched req (Raise RuntimeError) fs table
      else if negb (path_is_file fs dest)
      then mkFetched req (Raise AssertionError) fs table
      else mkFetched req (Ok (mkDownloadResult false dest)) fs table
  | Raise e => mkFetched req (Raise e) fs table
  | Ok resp =>
      let '(r, fs', table') := store_response fs table url resp in
      mkFetched req r fs' table'
  end.

End Cache.

(** ** Expanding an archive *)

(** [s.endswith(suffix)] *)
Fixpoint str_endswith (suffix s : string) : bool :=
  String.eqb suffix s
  || match s with
     | EmptyString => false
     | String _ s' => str_endswith suffix s'
     end.

(** The text of [s] from its last dot on, when it has a dot. *)
Fixpoint from_last_dot (s : string) : option string :=
  match s with
  | EmptyString => None
  | String c s' =>
      match from_last_dot s' with
      | Some r => Some r
      | None => if Ascii.eqb c "." then Some s else None
      end
  end.

(** [p.suffix]: the name from its last dot on, unless that dot is the
    first or the last character of the name. *)
Definition path_suffix (p : PurePath) : string :=
  match name p with
  | EmptyString => ""
  | String _ rest =>
      match from_last_dot rest with
      | Some (String _ EmptyString) => ""
      | Some r => r
      | None => ""
      end
  end.

(** Code that changes the file tree and may raise: the tree reached is
    kept also when an exception ends the call. *)
Definition io (A : Type) : Type := filesystem -> res A * filesystem.

Definition io_ret {A} (a : A) : io A := fun fs => (Ok a, fs).

Definition io_bind {A B} (m : io A) (k : A -> io B) : io B :=
  fun fs =>
    match m fs with
    | (Ok a, fs') => k a fs'
    | (Raise e, fs') => (Raise e, fs')
    end.

(** A value or exception that does not touch the tree. *)
Definition io_lift {A} (r : res A) : io A := fun fs => (r, fs).

(** One file-system call: it delivers a new tree or fails on the old one. *)
Definition io_step (f : filesystem -> res filesystem) : io unit :=
  fun fs =>
    match f fs with
    | Ok fs' => (Ok (), fs')
    | Raise e => (Raise e, fs)
    end.

Notation "'do' x <- m ; k" := (io_bind m (fun x => k))
  (at level 10, x name, m at level 100, k at level 200).

(** [_mkdir], keeping the directories made before a failure. *)
Fixpoint _mkdir_io_fuel (fuel : nat) (dirpath : PurePath) : io unit :=
  match fuel with
  | O => io_lift (Raise RecursionError)
  | S fuel' =>
      fun fs =>
        if path_is_dir fs dirpath then (Ok (), fs)
        else
          let par := parent dirpath in
          (do _ <- (if bool_decide (par = dirpath) then io_ret ()
                    else _mkdir_io_fuel fuel' par);
           fun fs1 =>
             match mkdir fs1 dirpath with
             | Ok fs2 => (Ok (), fs2)
             | Raise FileExistsError => (Ok (), fs1)
             | Raise e => (Raise e, fs1)
             end) fs
  end.

Definition _mkdir_io (dirpath : PurePath) : io unit :=
  _mkdir_io_fuel (S (List.length dirpath)) dirpath.

(** [_maybe_extract_member], keeping the tree reached at an exception: a
    copy that is cut short leaves the file with the bytes copied so far and
    the mode it was opened with. *)
Definition _maybe_extract_member_io (out : PurePath) (relpath : PurePath)
    (pattern : option string) (strip : Z) (is_dir : bool)
    (opener : res Infile) (modebits : Z) (test : bool) : io Z :=
  if Z.of_nat (List.length relpath) <=? strip then io_ret 0
  else
    match _test_pattern Fnmatch.fnmatch relpath (pattern_path pattern) with
    | None => io_lift (Raise RecursionError)
    | Some false => io_ret 0
    | Some true =>
        let stripped := _pathjoin (slice_from relpath strip) in
        let dest := join out stripped in
        if test then io_ret 1
        else if is_dir then
          do _ <- _mkdir_io dest;
          io_ret 1
        else
          do infile <- io_lift opener;
          do _ <- _mkdir_io (parent dest);
          do _ <- io_step (fun fs => write_file fs dest (in_bytes infile));
          do _ <- io_lift (copy_end infile);
          do _ <- io_step (fun fs => chmod fs dest modebits);
          io_ret 1
    end.

(** A member of a tar archive: its name, whether it is a directory, its
    mode and what [extractfile] delivers for it. *)
Record TarInfo : Type := mkTarInfo {
  ti_name : string;
  ti_isdir : bool;
  ti_mode : Z;
  ti_file : res Infile
}.

(** A member of a zip archive: its file name and what [open] delivers. *)
Record ZipInfo : Type := mkZipInfo {
  zi_filename : string;
  zi_file : res Infile
}.

(** The loop of [_expand_tgz] over [tf.getmembers()]. *)
Fixpoint _expand_tgz (members : list TarInfo) (dest : PurePath)
    (pattern : option string) (strip_components : Z) (test : bool)
    (n_extracted : Z) : io Z :=
  match members with
  | [] => io_ret n_extracted
  | mem :: rest =>
      do n <- _maybe_extract_member_io dest (parse (ti_name mem)) pattern
                strip_components (ti_isdir mem) (ti_file mem)
                (Z.lor (ti_mode mem) 146) test;
      _expand_tgz rest dest pattern strip_components test (n_extracted + n)
  end.

(** The loop of [_expand_zip] over [zf.infolist()]. *)
Fixpoint _expand_zip (items : list ZipInfo) (dest : PurePath)
    (pattern : option string) (strip_components : Z) (test : bool)
    (n_extracted : Z) : io Z :=
  match items with
  | [] => io_ret n_extracted
  | item :: rest =>
      do n <- _maybe_extract_member_io dest (parse (zi_filename item)) pattern
                strip_components (str_endswith "/" (zi_filename item))
                (zi_file item) 511 test;
      _expand_zip rest dest pattern strip_components test (n_extracted + n)
  end.

Inductive ExpandResult : Type :=
  | Empty
  | Okay.

(** The bytes of the file at [p], as [open(p, "rb")] reads them. *)
Definition read_file (p : PurePath) : io string :=
  fun fs =>
    match node_at fs p with
    | Some (File content _) => (Ok content, fs)
    | Some Dir => (Raise IsADirectoryError, fs)
    | None => (Raise FileNotFoundError, fs)
    end.

Section Archives.

(** The member lists the [tarfile] and [zipfile] modules read from the
    bytes of an archive. *)
Variable tar_members : string -> res (list TarInfo).
Variable zip_infolist : string -> res (list ZipInfo).

Definition _expand_archive (ar dest : PurePath) (pattern : option string)
    (strip_components : Z) (test : bool) : io ExpandResult :=
  do n_extracted <-
    (if String.eqb (path_suffix ar) ".zip" then
       do bytes <- read_file ar;
       do items <- io_lift (zip_infolist bytes);
       _expand_zip items dest pattern strip_components test 0
     else if String.eqb (path_suffix ar) ".tgz" then
       do bytes <- read_file ar;
       do members <- io_lift (tar_members bytes);
       _expand_tgz members dest pattern strip_components test 0
     else io_lift (Raise RuntimeError));
  if n_extracted =? 0 then io_ret Empty else io_ret Okay.

End Archives.

(** ** Example inputs *)

(** A cache or output tree that holds the directory [/dest]. *)
Definition example_fs : filesystem := {[ ["/"; "dest"] := Dir ]}.

(** A stand-in for the digest function. *)
Definition example_digest (s : string) : string := "3f2a9c".

Definition example_url : string := "https://downloads.mongodb.org/full.json".

(** A remote side that answers every request with "not modified". *)
Definition example_unchanged (req : Request) : res Response :=
  Raise (HTTPError 304).

(** A validator pair stored for [example_url]. *)
Definition example_table : http_table :=
  {[ example_url := (Some "v1", Some "Mon, 01 Jan 2024 00:00:00 GMT") ]}.

(** A cache directory that holds the file derived from [example_url]. *)
Definition example_cache_fs : filesystem :=
  {[ ["/"; "cache"] := Dir;
     ["/"; "cache"; "files"] := Dir;
     ["/"; "cache"; "files"; "3f2a"] := Dir;
     ["/"; "cache"; "files"; "3f2a"; "full.json"] := File "{}" 420 ]}.

(** A download entry for [target] with an archive and a [crypt_shared]
    component. *)
Definition example_download (target : string) : dict :=
  [ ("arch", JStr "x86_64");
    ("target", JStr target);
    ("edition", JStr "enterprise");
    ("archive", JObj [("url", JStr "U"); ("sha256", JStr "S")]);
    ("crypt_shared", JObj [("url", JStr "C"); ("sha256", JStr "T")]) ].

(** Two version entries: the first names the unknown target ["foo"], the
    second the known target ["rhel80"]. *)
Definition example_manifest : list VersionEntry :=
  [ mkVersionEntry "6.0.6" "abc" "2023-05-10" [example_download "foo"];
    mkVersionEntry "6.0.5" "def" "2023-03-01" [example_download "rhel80"] ].

(** The catalog of a manifest with the single version ["6.0.6"] for
    [macos]. *)
Definition example_catalog : Catalog :=
  io_catalog
    (_import_json_data false empty_catalog
       [mkVersionEntry "6.0.6" "abc" "2023-05-10" [example_download "macos"]]).

(** The catalog of three versions, given out of order, each with one
    download for [macos]. *)
Definition example_catalog_three : Catalog :=
  io_catalog
    (_import_json_data false empty_catalog
       [ mkVersionEntry "6.0.6" "abc" "2023-05-10" [example_download "macos"];
         mkVersionEntry "7.0.0-rc1" "fed" "2023-06-01" [example_download "macos"];
         mkVersionEntry "5.0.5" "def" "2022-01-01" [example_download "macos"] ]).

Definition example_row (version : string) : DownloadableComponent :=
  mkDownloadableComponent version "macos" "x86_64" "enterprise" "archive"
    (JObj [("url", JStr "U"); ("sha256", JStr "S")]).

(** A tar archive with a directory and two files below it. *)
Definition example_members : list TarInfo :=
  [ mkTarInfo "mongodb" true 493 (Raise TypeError);
    mkTarInfo "mongodb/bin/mongod" false 365 (Ok (whole "ELF"));
    mkTarInfo "mongodb/README" false 292 (Ok (whole "read me")) ].

(** A decoder that reads [example_members] from any bytes. *)
Definition example_tar (bytes : string) : res (list TarInfo) :=
  Ok example_members.

(** A decoder for which no bytes are a zip archive. *)
Definition example_zip (bytes : string) : res (list ZipInfo) :=
  Raise ValueError.

(** A zip archive whose second member fails its checksum: the read that
    reaches the end of the member raises, so none of its bytes are copied. *)
Definition example_items : list ZipInfo :=
  [ mkZipInfo "bin/mongod.exe" (Ok (whole "MZ"));
    mkZipInfo "bin/mongos.exe" (Ok (mkInfile "" (Some BadZipFile))) ].

(** A remote side that answers every request with a two-byte body and an
    ETag. *)
Definition example_full (req : Request) : res Response :=
  Ok (mkResponse {[ "ETag" := "v2"; "Content-Length" := "2" ]} "{}").

(** A remote side that declares five bytes and delivers two. *)
Definition example_short (req : Request) : res Response :=
  Ok (mkResponse {[ "ETag" := "v2"; "Content-Length" := "5" ]} "{}").

(** ** Predicates used in the statements *)

(** [r] does not start with a character satisfying [p]. *)
Definition stops (p : ascii -> bool) (r : string) : Prop :=
  match r with
  | EmptyString => True
  | String c _ => p c = false
  end.

(** [sep] does not occur in [a]. *)
Definition lacks (sep : ascii) (a : string) : bool :=
  Str.all (fun c => negb (Ascii.eqb c sep)) a.

(** The lexicographic order on 5-tuples, written out. *)
Definition lexicographic (l r : version_tuple) : Prop :=
  let '(a1, b1, c1, d1, e1) := l in
  let '(a2, b2, c2, d2, e2) := r in
  a1 < a2 \/ (a1 = a2 /\ (b1 < b2 \/ (b1 = b2 /\ (c1 < c2 \/ (c1 = c2 /\
    (d1 < d2 \/ (d1 = d2 /\ e1 < e2))))))).

(** A catalog lookup miss: the query of [_published_build_url] yields no
    row. *)
Definition lookup_miss (cat : Catalog)
    (version target arch edition component : string) : Prop :=
  iter_available cat (Some version) (Some target) (Some arch) (Some edition)
    (Some (if String.eqb component "archive-debug" then "archive"
           else component))
  = Ok [].

(** The target of a download entry as the import normalizes it. *)
Definition download_target (dl : dict) : option string :=
  match default (JStr "null") (dict_get "target" dl) with
  | JStr t => Some (normalize_target t)
  | JObj _ => None
  end.

(** Neither in a target table nor one of the names outside the tables. *)
Definition target_unknown (t : string) : bool :=
  negb (target_found t) && negb (str_in t TARGETS_THAT_ARE_NOT_DISTROS).

(** The unknown targets among a list of download entries. *)
Definition unknown_targets (dls : list dict) : gset string :=
  list_to_set (filter (fun t => target_unknown t = true)
                      (omap download_target dls)).

(** [r] does not sort below [s]: the collation of their versions is
    defined and not negative. *)
Definition not_below (r s : DownloadableComponent) : Prop :=
  exists c, collate_mdb_version (dc_version r) (dc_version s) = Ok c /\ 0 <= c.

(** The filters of a query other than the one on the version. *)
Definition plain_filters (target arch edition component : option string)
    (r : DownloadableComponent) : bool :=
  Sql.matches component (dc_key r) && Sql.matches target (dc_target r)
  && Sql.matches arch (dc_arch r) && Sql.matches edition (dc_edition r).

(** A digit or a dot. *)
Definition version_char (c : ascii) : bool :=
  Str.is_digit c || Ascii.eqb c ".".

(** The row ids of a table are 1, 2, ... in order. *)
Definition rowids {A} (id : A -> Z) (table : list A) : Prop :=
  map id table = map Z.of_nat (seq 1 (List.length table)).

(** What every import step keeps: row ids count up from 1, every download
    row names a version row, every component row names a download row, and
    every stored target is a normalized one. *)
Definition catalog_inv (cat : Catalog) : Prop :=
  rowids vr_version_id (mdl_versions cat)
  /\ rowids dr_download_id (mdl_downloads cat)
  /\ rowids cr_component_id (mdl_components cat)
  /\ Forall (fun d => 1 <= dr_version_id d
                      <= Z.of_nat (List.length (mdl_versions cat)))
            (mdl_downloads cat)
  /\ Forall (fun c => 1 <= cr_download_id c
                      <= Z.of_nat (List.length (mdl_downloads cat)))
            (mdl_components cat)
  /\ Forall (fun d => exists t, dr_target d = normalize_target t)
            (mdl_downloads cat).

(** The version row an entry of the manifest becomes. *)
Definition version_row_of (i : nat) (ver : VersionEntry) : VersionRow :=
  mkVersionRow (Z.of_nat i + 1) (ve_date ver) (ve_version ver) (ve_githash ver).

(** A character with no special meaning in a filename pattern. *)
Definition literal_char (c : ascii) : bool :=
  negb (Ascii.eqb c "*") && negb (Ascii.eqb c "?") && negb (Ascii.eqb c "[").

(** A pattern segment that stands for itself. *)
Definition literal_segment (seg : string) : bool := Str.all literal_char seg.

(** [p] is a prefix of [l], segment by segment. *)
Fixpoint parts_prefix (p l : list string) : bool :=
  match p, l with
  | [], _ => true
  | a :: p', b :: l' => String.eqb a b && parts_prefix p' l'
  | _ :: _, [] => false
  end.

(** Whether a member passes the filters of an extraction: more segments
    than [strip], and a path the pattern matches. *)
Definition member_passes (pattern : option string) (strip : Z)
    (relpath : PurePath) : bool :=
  negb (Z.of_nat (List.length relpath) <=? strip)
  && match _test_pattern Fnmatch.fnmatch relpath (pattern_path pattern) with
     | Some true => true
     | _ => false
     end.

(** The number of elements of [l] that satisfy [f]. *)
Definition count_of {A} (f : A -> bool) (l : list A) : Z :=
  Z.of_nat (List.length (List.filter f l)).

(** Nothing of [fs] is lost or altered in [fs'], and what is new in [fs']
    is a directory. *)
Definition only_new_dirs (fs fs' : filesystem) : Prop :=
  fs ⊆ fs' /\ forall p n, fs' !! p = Some n -> fs !! p = None -> n = Dir.

(** Every file of [fs'] that is not in [fs] as it is has the mode [P]. *)
Definition changed_files_have (P : Z -> Prop) (fs fs' : filesystem) : Prop :=
  forall p content mode,
    fs' !! p = Some (File content mode) ->
    fs !! p = Some (File content mode) \/ P mode.

(** As [changed_files_have], but for the file at [skip]. *)
Definition changed_files_but (skip : PurePath) (P : Z -> Prop)
    (fs fs' : filesystem) : Prop :=
  forall p content mode,
    p <> skip ->
    fs' !! p = Some (File content mode) ->
    fs !! p = Some (File content mode) \/ P mode.

(** The write bits for owner, group and others. *)
Definition writable (mode : Z) : Prop :=
  Z.testbit mode 7 = true /\ Z.testbit mode 4 = true /\ Z.testbit mode 1 = true.

(** * Properties *)

(** ** Strings *)

Module StrFacts.

Lemma span_app p a r :
  Str.all p a = true -> stops p r -> Str.span p (a ++ r) = (a, r).
Proof.
  induction a as [|c a IH]; simpl; intros Ha Hr.
  - destruct r as [|c r]; simpl in *; [reflexivity | now rewrite Hr].
  - apply andb_prop in Ha as [Hc Ha]. rewrite Hc, (IH Ha Hr). reflexivity.
Qed.

Lemma plus_app p a r :
  a <> EmptyString -> Str.all p a = true -> stops p r ->
  Str.plus p (a ++ r) = Some (a, r).
Proof.
  intros Hne Ha Hr. unfold Str.plus. rewrite (span_app _ _ _ Ha Hr).
  destruct a; [contradiction | reflexivity].
Qed.

Lemma append_cons c (s r : string) : String c s ++ r = String c (s ++ r).
Proof. reflexivity. Qed.

Lemma append_empty_r (s : string) : s ++ EmptyString = s.
Proof.
  induction s as [|c s IH]; [reflexivity | now rewrite append_cons, IH].
Qed.

Lemma plus_all p a :
  a <> EmptyString -> Str.all p a = true -> Str.plus p a = Some (a, EmptyString).
Proof.
  intros Hne Ha. pose proof (plus_app p a EmptyString Hne Ha I) as H.
  now rewrite append_empty_r in H.
Qed.

Lemma digit_range c :
  Str.is_digit c = true -> (48 <= nat_of_ascii c <= 57)%nat.
Proof.
  unfold Str.is_digit. intros H. apply andb_prop in H as [H1 H2].
  apply Nat.leb_le in H1, H2. lia.
Qed.

Lemma digit_not_space c : Str.is_digit c = true -> Str.is_space c = false.
Proof.
  intros H. apply digit_range in H. unfold Str.is_space.
  apply orb_false_intro; apply andb_false_iff.
  - right. apply Nat.leb_gt. lia.
  - right. apply Nat.leb_gt. lia.
Qed.

Lemma digit_neq c d :
  Str.is_digit c = true -> (nat_of_ascii d < 48)%nat -> Ascii.eqb c d = false.
Proof.
  intros H Hd. apply digit_range in H. apply Ascii.eqb_neq. intros ->. lia.
Qed.

Lemma rstrip_digits a : Str.all Str.is_digit a = true -> Str.rstrip a = a.
Proof.
  induction a as [|c a IH]; simpl; [reflexivity|].
  intros H. apply andb_prop in H as [Hc Ha]. rewrite (IH Ha).
  destruct a; [now rewrite (digit_not_space _ Hc) | reflexivity].
Qed.

Lemma lstrip_digits a : Str.all Str.is_digit a = true -> Str.lstrip a = a.
Proof.
  unfold Str.lstrip. destruct a as [|c a]; simpl; [reflexivity|].
  intros H. apply andb_prop in H as [Hc _].
  now rewrite (digit_not_space _ Hc).
Qed.

(** [int] of a run of digits is its decimal value. *)
Lemma int_digits a :
  a <> EmptyString -> Str.all Str.is_digit a = true ->
  Str.int a = Ok (Str.digits_val 0 a).
Proof.
  intros Hne Ha. unfold Str.int.
  rewrite (lstrip_digits _ Ha), (rstrip_digits _ Ha).
  destruct a as [|c a]; [contradiction|].
  assert (Hc : Str.is_digit c = true) by (simpl in Ha; now apply andb_prop in Ha).
  rewrite (digit_neq c "-" Hc), (digit_neq c "+" Hc) by (apply Nat.ltb_lt; reflexivity).
  unfold Str.unsigned. now rewrite Ha.
Qed.

Lemma split_lacks sep a : lacks sep a = true -> Str.split sep a = [a].
Proof.
  induction a as [|c a IH]; simpl; [reflexivity|].
  intros H. apply andb_prop in H as [Hc Ha].
  apply negb_true_iff in Hc. rewrite Hc, (IH Ha). reflexivity.
Qed.

Lemma split_app sep a r :
  lacks sep a = true ->
  Str.split sep (a ++ String sep r) = a :: Str.split sep r.
Proof.
  induction a as [|c a IH]; simpl.
  - intros _. now rewrite Ascii.eqb_refl.
  - intros H. apply andb_prop in H as [Hc Ha].
    apply negb_true_iff in Hc. rewrite Hc, (IH Ha). reflexivity.
Qed.

Lemma all_impl (p q : ascii -> bool) a :
  (forall c, p c = true -> q c = true) ->
  Str.all p a = true -> Str.all q a = true.
Proof.
  intros Hpq. induction a as [|c a IH]; simpl; [reflexivity|].
  intros H. apply andb_prop in H as [Hc Ha]. now rewrite (Hpq _ Hc), IH.
Qed.

Lemma digits_lack sep a :
  (nat_of_ascii sep < 48)%nat ->
  Str.all Str.is_digit a = true -> lacks sep a = true.
Proof.
  intros Hs. apply all_impl. intros c Hc.
  apply negb_true_iff. now apply digit_neq.
Qed.

End StrFacts.

(** ** Version parsing *)

(** The groups of a bare [MAJOR.MINOR] string. *)
Lemma MAJOR_VERSION_RE_bare (a b : string) :
  a <> EmptyString -> b <> EmptyString ->
  Str.all Str.is_digit a = true -> Str.all Str.is_digit b = true ->
  MAJOR_VERSION_RE_match (a ++ "." ++ b) = true.
Proof.
  intros Ha Hb Da Db. unfold MAJOR_VERSION_RE_match.
  change (a ++ "." ++ b) with (a ++ String "." b).
  rewrite (StrFacts.plus_app _ a (String "." b) Ha Da) by reflexivity.
  simpl. rewrite (StrFacts.plus_all _ b Hb Db). reflexivity.
Qed.

Lemma version_tup_bare (a b : string) :
  a <> EmptyString -> b <> EmptyString ->
  Str.all Str.is_digit a = true -> Str.all Str.is_digit b = true ->
  version_tup (a ++ "." ++ b)
  = Ok (Str.digits_val 0 a, Str.digits_val 0 b, 0, 0, 0).
Proof.
  intros Ha Hb Da Db. unfold version_tup.
  rewrite (MAJOR_VERSION_RE_bare a b Ha Hb Da Db).
  change (a ++ "." ++ b) with (a ++ String "." b).
  rewrite StrFacts.split_app by (apply StrFacts.digits_lack; [apply Nat.ltb_lt; reflexivity | exact Da]).
  rewrite StrFacts.split_lacks by (apply StrFacts.digits_lack; [apply Nat.ltb_lt; reflexivity | exact Db]).
  rewrite (StrFacts.int_digits a Ha Da), (StrFacts.int_digits b Hb Db).
  reflexivity.
Qed.

(** C1, as the code has it: a bare [MAJOR.MINOR] string parses to
    [(major, minor, 0, 0, 0)], with stage rank 0 and not the stable
    sentinel; so ["4.4"] sorts strictly below ["4.4.0"]. *)
Theorem C1_bare_version_has_zero_stage (a b : string) :
  a <> EmptyString -> b <> EmptyString ->
  Str.all Str.is_digit a = true -> Str.all Str.is_digit b = true ->
  version_tup (a ++ "." ++ b)
  = Ok (Str.digits_val 0 a, Str.digits_val 0 b, 0, 0, 0)
  /\ collate_mdb_version "4.4" "4.4.0" = Ok (-1).
Proof.
  intros Ha Hb Da Db. split.
  - now apply version_tup_bare.
  - reflexivity.
Qed.

Lemma C1_bare_version_has_zero_stage_witness :
  version_tup ("4" ++ "." ++ "4")
  = Ok (Str.digits_val 0 "4", Str.digits_val 0 "4", 0, 0, 0)
  /\ collate_mdb_version "4.4" "4.4.0" = Ok (-1).
Proof.
  apply (C1_bare_version_has_zero_stage "4" "4");
    [discriminate | discriminate | reflexivity | reflexivity].
Defined.

(** C1 as stated fails: ["4.4"] does not parse to a tuple with the stable
    sentinel, and does not compare equal to ["4.4.0"]. *)
Lemma C1_bare_version_counterexample :
  version_tup "4.4" <> Ok (4, 4, 0, STABLE_MAX_RC, 0)
  /\ collate_mdb_version "4.4" "4.4.0" <> Ok 0.
Proof. split; vm_compute; discriminate. Qed.

(** C2: the predicate behind [latest-stable] looks at the stage sequence
    number, so it rejects the stable ["5.0.3"] and accepts the
    release candidate ["5.0.3-rc9999"]. *)
Theorem C2_latest_stable_rejects_stable :
  mdb_version_not_rc "5.0.3" = Ok false
  /\ mdb_version_not_rc "5.0.3-rc9999" = Ok true
  /\ version_case (Some "latest-stable") "5.0.3" = Ok false
  /\ version_case (Some "latest-stable") "5.0.3-rc9999" = Ok true.
Proof. repeat split; reflexivity. Qed.

(** ** The version order *)

Lemma tup_lt_lexicographic (l r : version_tuple) :
  tup_lt l r <-> lexicographic l r.
Proof.
  destruct l as [[[[a1 b1] c1] d1] e1], r as [[[[a2 b2] c2] d2] e2].
  unfold tup_lt, tup_ltb, tup_compare, lexicographic.
  repeat match goal with
         | |- context [?x ?= ?y] => destruct (Z.compare_spec x y); simpl
         end;
    split; intros; try discriminate; try reflexivity; lia.
Qed.

Lemma tup_eq_components (l r : version_tuple) :
  ~ lexicographic l r -> ~ lexicographic r l -> l = r.
Proof.
  destruct l as [[[[a1 b1] c1] d1] e1], r as [[[[a2 b2] c2] d2] e2].
  unfold lexicographic. intros H1 H2.
  assert (a1 = a2 /\ b1 = b2 /\ c1 = c2 /\ d1 = d2 /\ e1 = e2) as (-> & -> & -> & -> & ->)
    by lia.
  reflexivity.
Qed.

Lemma lexicographic_irrefl (t : version_tuple) : ~ lexicographic t t.
Proof. destruct t as [[[[a b] c] d] e]. unfold lexicographic. lia. Qed.

Lemma lexicographic_trans (a b c : version_tuple) :
  lexicographic a b -> lexicographic b c -> lexicographic a c.
Proof.
  destruct a as [[[[a1 a2] a3] a4] a5], b as [[[[b1 b2] b3] b4] b5],
           c as [[[[c1 c2] c3] c4] c5].
  unfold lexicographic. lia.
Qed.

Lemma collate_value (l r : string) (tl tr : version_tuple) :
  version_tup l = Ok tl -> version_tup r = Ok tr ->
  collate_mdb_version l r
  = Ok (if tup_ltb tl tr then -1 else if tup_ltb tr tl then 1 else 0).
Proof.
  intros Hl Hr. unfold collate_mdb_version. rewrite Hl, Hr. simpl.
  destruct (tup_ltb tl tr), (tup_ltb tr tl); reflexivity.
Qed.

(** C7: on valid version strings the collation is the lexicographic order
    of the parsed tuples, a strict total order; ["5.0.3-rc2"] sorts below
    ["5.0.3"], which sorts below ["5.0.4-alpha0"], and the absent stage tag
    ranks above alpha (1), beta (2) and rc (3). *)
Theorem C7_version_order_is_strict_total (l m r : string)
    (tl tm tr : version_tuple) :
  version_tup l = Ok tl -> version_tup m = Ok tm -> version_tup r = Ok tr ->
  (tup_lt tl tm <-> lexicographic tl tm)
  /\ (collate_mdb_version l m = Ok (-1) <-> tup_lt tl tm)
  /\ (collate_mdb_version l m = Ok 1 <-> tup_lt tm tl)
  /\ (collate_mdb_version l m = Ok 0 <-> tl = tm)
  /\ ~ tup_lt tl tl
  /\ (tup_lt tl tm -> ~ tup_lt tm tl)
  /\ (tup_lt tl tm -> tup_lt tm tr -> tup_lt tl tr)
  /\ (tup_lt tl tm \/ tl = tm \/ tup_lt tm tl)
  /\ collate_mdb_version "5.0.3-rc2" "5.0.3" = Ok (-1)
  /\ collate_mdb_version "5.0.3" "5.0.4-alpha0" = Ok (-1)
  /\ version_tup "5.0.3" = Ok (5, 0, 3, STABLE_MAX_RC, 0)
  /\ stage_rank "alpha" = Ok 1 /\ stage_rank "beta" = Ok 2
  /\ stage_rank "rc" = Ok 3 /\ 3 < STABLE_MAX_RC.
Proof.
  intros Hl Hm Hr.
  pose proof (tup_lt_lexicographic tl tm) as Hlm.
  pose proof (tup_lt_lexicographic tm tl) as Hml.
  assert (Hirr : forall t, tup_ltb t t = false).
  { intros t. destruct (tup_ltb t t) eqn:E; [|reflexivity].
    apply tup_lt_lexicographic in E. now apply lexicographic_irrefl in E. }
  assert (Hasym : tup_lt tl tm -> ~ tup_lt tm tl).
  { intros H1 H2. apply tup_lt_lexicographic in H1, H2.
    exact (lexicographic_irrefl _ (lexicographic_trans _ _ _ H1 H2)). }
  rewrite (collate_value l m tl tm Hl Hm).
  unfold tup_lt in *.
  repeat split; try reflexivity.
  - apply Hlm.
  - apply Hlm.
  - destruct (tup_ltb tl tm); [reflexivity|].
    destruct (tup_ltb tm tl); discriminate.
  - now intros ->.
  - destruct (tup_ltb tl tm) eqn:E1; [discriminate|].
    destruct (tup_ltb tm tl); [reflexivity | discriminate].
  - intros H2. destruct (tup_ltb tl tm) eqn:E1; [|now rewrite H2].
    exfalso. now apply Hasym.
  - destruct (tup_ltb tl tm) eqn:E1; [discriminate|].
    destruct (tup_ltb tm tl) eqn:E2; [discriminate|]. intros _.
    apply tup_eq_components; intros H; apply tup_lt_lexicographic in H;
      unfold tup_lt in H; congruence.
  - intros ->. now rewrite Hirr.
  - now rewrite Hirr.
  - exact Hasym.
  - intros H1 H2. apply tup_lt_lexicographic.
    apply tup_lt_lexicographic in H1, H2.
    exact (lexicographic_trans _ _ _ H1 H2).
  - destruct (tup_ltb tl tm) eqn:E1; [now left|].
    destruct (tup_ltb tm tl) eqn:E2; [now right; right|].
    right; left. apply tup_eq_components; intros H;
      apply tup_lt_lexicographic in H; unfold tup_lt in H; congruence.
Qed.

Lemma C7_version_order_is_strict_total_witness :
  tup_lt (5, 0, 3, 3, 2) (5, 0, 3, STABLE_MAX_RC, 0)
  /\ tup_lt (5, 0, 3, 3, 2) (5, 0, 4, 1, 0).
Proof.
  destruct (C7_version_order_is_strict_total
              "5.0.3-rc2" "5.0.3" "5.0.4-alpha0"
              (5, 0, 3, 3, 2) (5, 0, 3, STABLE_MAX_RC, 0) (5, 0, 4, 1, 0)
              eq_refl eq_refl eq_refl)
    as (_ & Hlt & _ & _ & _ & _ & Htrans & _).
  split.
  - apply Hlt. reflexivity.
  - apply Htrans; reflexivity.
Defined.

(** ** The retry policy *)

Lemma retry_exhausted (N a : Z) :
  N <= a -> retry (mkRetrier N a) = (false, mkRetrier N a, []).
Proof.
  intros H. unfold retry. cbn [retries attempt].
  now replace (N <=? a) with true by (symmetry; apply Z.leb_le; lia).
Qed.

Lemma retry_again (N a : Z) :
  a < N ->
  retry (mkRetrier N a)
  = (true, mkRetrier N (a + 1), [Z.min (2 ^ (a + 1 - 1)) ten_minutes]).
Proof.
  intros H. unfold retry. cbn [retries attempt].
  now replace (N <=? a) with false by (symmetry; apply Z.leb_gt; lia).
Qed.

Lemma retry_calls_step (n : nat) (self : DownloadRetrier) :
  retry_calls (S n) self
  = (fst (fst (retry self)), snd (retry self))
    :: retry_calls n (snd (fst (retry self))).
Proof. cbn [retry_calls]. now destruct (retry self) as [[b s] sl]. Qed.

Lemma retry_calls_from (N : Z) (n : nat) (a : Z) :
  0 <= a -> a + Z.of_nat n = N ->
  retry_calls (S n) (mkRetrier N a)
  = (map (fun k => (true, [Z.min (2 ^ (a + Z.of_nat k - 1)) ten_minutes]))
         (seq 1 n) ++ [(false, [])])%list.
Proof.
  revert a. induction n as [|n IH]; intros a Ha Hn.
  - rewrite retry_calls_step, retry_exhausted by lia. reflexivity.
  - rewrite retry_calls_step, retry_again by lia. cbn [fst snd].
    rewrite (IH (a + 1)) by lia.
    cbn [seq map app].
    replace (a + Z.of_nat 1 - 1) with (a + 1 - 1) by lia.
    do 2 f_equal. rewrite <- (seq_shift n 1), map_map.
    apply map_ext. intros k.
    now replace (a + Z.of_nat (S k) - 1) with (a + 1 + Z.of_nat k - 1) by lia.
Qed.

(** C4: a retrier built with [N >= 0] answers true to its first [N] calls,
    the k-th of them sleeping [min(2^(k-1), 600)], and false without
    sleeping to call [N+1]; with [N = 3] the delays are 1, 2, 4. *)
Theorem C4_retry_backoff (N : Z) (r : DownloadRetrier) :
  DownloadRetrier_init N = Ok r ->
  retry_calls (S (Z.to_nat N)) r
  = (map (fun k => (true, [Z.min (2 ^ (Z.of_nat k - 1)) 600]))
         (seq 1 (Z.to_nat N)) ++ [(false, [])])%list
  /\ retry_calls 4 (mkRetrier 3 0)
     = [(true, [1]); (true, [2]); (true, [4]); (false, [])].
Proof.
  unfold DownloadRetrier_init. intros H.
  destruct (0 <=? N) eqn:E; [|discriminate].
  apply Z.leb_le in E. injection H as <-.
  split; [|reflexivity].
  rewrite (retry_calls_from N (Z.to_nat N) 0) by lia.
  reflexivity.
Qed.

Lemma C4_retry_backoff_witness :
  retry_calls 4 (mkRetrier 3 0)
  = (map (fun k => (true, [Z.min (2 ^ (Z.of_nat k - 1)) 600])) (seq 1 3)
     ++ [(false, [])])%list.
Proof. exact (proj1 (C4_retry_backoff 3 (mkRetrier 3 0) eq_refl)). Defined.

(** ** Paths *)

Module PathFacts.

Lemma split_segments sep s :
  Forall (fun seg => lacks sep seg = true) (Str.split sep s).
Proof.
  induction s as [|c s IH]; simpl.
  - repeat constructor.
  - destruct (Ascii.eqb c sep) eqn:E.
    + constructor; [reflexivity | exact IH].
    + destruct (Str.split sep s) as [|h t]; inversion IH; subst;
        constructor; simpl; auto; unfold lacks; simpl; now rewrite E.
Qed.

Lemma clean_keep seg : clean_segment seg = true -> keep_segment seg = true.
Proof. unfold clean_segment. intros H. now apply andb_prop in H. Qed.

Lemma clean_lacks seg : clean_segment seg = true -> lacks "/" seg = true.
Proof.
  unfold clean_segment, lacks. intros H. apply andb_prop in H as [_ H].
  revert H. apply StrFacts.all_impl. intros c Hc.
  unfold is_slash in Hc. now rewrite Ascii.eqb_sym.
Qed.

Lemma clean_intro seg :
  keep_segment seg = true -> lacks "/" seg = true -> clean_segment seg = true.
Proof.
  unfold clean_segment, lacks. intros -> H. simpl.
  revert H. apply StrFacts.all_impl. intros c Hc.
  unfold is_slash. now rewrite Ascii.eqb_sym.
Qed.

(** The segments [parse] keeps are clean. *)
Lemma filter_split_relative s :
  relative (filter (fun seg => keep_segment seg = true) (Str.split "/" s)).
Proof.
  unfold relative. pose proof (split_segments "/" s) as H.
  induction H as [|seg l Hseg Hl IH]; [constructor|].
  rewrite filter_cons. destruct (decide (keep_segment seg = true)); [|exact IH].
  constructor; [now apply clean_intro | exact IH].
Qed.

Lemma relative_drop (n : nat) (l : list string) :
  relative l -> relative (drop n l).
Proof.
  unfold relative. revert l. induction n as [|n IH]; intros l H.
  - now rewrite drop_0.
  - destruct l as [|x l]; [constructor|]. simpl. apply IH. now inversion H.
Qed.

Lemma relative_tail (l : list string) : relative l -> relative (tail l).
Proof. intros H. destruct l; [constructor | now inversion H]. Qed.

(** A path is an optional root followed by clean segments. *)
Lemma parse_tail_relative s : relative (tail (parse s)).
Proof.
  unfold parse. destruct (Str.span is_slash s) as [slashes rest].
  pose proof (filter_split_relative rest) as H. revert H.
  generalize (filter (fun seg => keep_segment seg = true) (Str.split "/" rest)).
  intros l H.
  destruct (String.length slashes) as [|[|[|n]]]; simpl; try exact H.
  now apply relative_tail.
Qed.

Lemma span_no_slash s :
  Str.prefix "/" s = false -> Str.span is_slash s = (EmptyString, s).
Proof.
  destruct s as [|c s]; [reflexivity|]. intros H.
  change (Str.prefix "/" (String c s)) with (Ascii.eqb "/" c && true) in H.
  rewrite andb_true_r in H. cbn [Str.span]. unfold is_slash.
  now rewrite Ascii.eqb_sym, H.
Qed.

Lemma parse_relative s : Str.prefix "/" s = false -> relative (parse s).
Proof.
  intros H. unfold parse. rewrite (span_no_slash _ H). simpl.
  apply filter_split_relative.
Qed.

Lemma concat_cons (x y : string) (l : list string) :
  String.concat "/" (x :: y :: l) = x ++ String "/" (String.concat "/" (y :: l)).
Proof. reflexivity. Qed.

Lemma split_concat (l : list string) :
  l <> [] -> Forall (fun seg => lacks "/" seg = true) l ->
  Str.split "/" (String.concat "/" l) = l.
Proof.
  induction l as [|x l IH]; [congruence|]. intros _ H.
  inversion H as [|? ? Hx Hl]; subst.
  destruct l as [|y l].
  - simpl. now apply StrFacts.split_lacks.
  - rewrite concat_cons, StrFacts.split_app by exact Hx.
    f_equal. apply IH; [discriminate | exact Hl].
Qed.

Lemma clean_no_slash_prefix seg s :
  clean_segment seg = true -> Str.prefix "/" (seg ++ s) = false.
Proof.
  intros H. destruct seg as [|c seg]; [discriminate|].
  unfold clean_segment in H. apply andb_prop in H as [_ H].
  simpl in H. apply andb_prop in H as [Hc _].
  rewrite StrFacts.append_cons.
  change (Str.prefix "/" (String c (seg ++ s))) with (Ascii.eqb "/" c && true).
  unfold is_slash in Hc. rewrite Ascii.eqb_sym.
  apply negb_true_iff in Hc. now rewrite Hc.
Qed.

Lemma concat_no_slash_prefix (l : list string) :
  relative l -> Str.prefix "/" (String.concat "/" l) = false.
Proof.
  intros H. destruct l as [|x l]; [reflexivity|].
  inversion H as [|? ? Hx Hl]; subst.
  destruct l as [|y l].
  - simpl. rewrite <- (StrFacts.append_empty_r x).
    now apply clean_no_slash_prefix.
  - rewrite concat_cons. now apply clean_no_slash_prefix.
Qed.

Lemma filter_keep (l : list string) :
  relative l -> filter (fun seg => keep_segment seg = true) l = l.
Proof.
  induction 1 as [|seg l Hseg Hl IH]; [reflexivity|].
  rewrite filter_cons, IH.
  destruct (decide (keep_segment seg = true)) as [|n]; [reflexivity|].
  now apply clean_keep in Hseg.
Qed.

(** Joining the parts of a relative path and reading the result back
    gives the same parts. *)
Lemma pathjoin_relative (l : list string) : relative l -> _pathjoin l = l.
Proof.
  intros H. unfold _pathjoin, parse.
  rewrite (span_no_slash _ (concat_no_slash_prefix l H)). simpl.
  destruct l as [|x l]; [reflexivity|].
  rewrite split_concat.
  - now apply filter_keep.
  - discriminate.
  - unfold relative in H. eapply Forall_impl; [exact H|].
    intros seg. apply clean_lacks.
Qed.

End PathFacts.

(** ** The glob matcher *)

Lemma any_lazy_map {A B} (f : B -> option bool) (g : A -> B) (h : A -> bool)
    (l : list A) :
  (forall x, In x l -> f (g x) = Some (h x)) ->
  any_lazy f (map g l) = Some (existsb h l).
Proof.
  induction l as [|x l IH]; intros H; [reflexivity|].
  cbn [map any_lazy existsb]. rewrite (H x) by now left.
  destruct (h x); [reflexivity|]. apply IH. intros y Hy. apply H. now right.
Qed.

Section GlobFacts.

Variable fnmatch : string -> string -> bool.

(** With a pattern whose tail is relative, the bounded recursion never
    reaches its bound and computes the matcher on part lists. *)
Lemma test_pattern_fuel_glob_match (pattern : list string) :
  relative (tail pattern) ->
  forall (fuel : nat) (path : PurePath),
    (List.length pattern < fuel)%nat -> relative path ->
    _test_pattern_fuel fnmatch fuel path (Some pattern)
    = Some (glob_match fnmatch pattern path).
Proof.
  induction pattern as [|h pt IH]; intros Hpt fuel path Hfuel Hpath.
  - destruct fuel; [simpl in Hfuel; lia | reflexivity].
  - destruct fuel as [|fuel]; [simpl in Hfuel; lia|].
    simpl in Hpt, Hfuel.
    assert (IH' : forall p, relative p ->
              _test_pattern_fuel fnmatch fuel (_pathjoin p) (Some (_pathjoin pt))
              = Some (glob_match fnmatch pt p)).
    { intros p Hp.
      rewrite (PathFacts.pathjoin_relative p Hp),
              (PathFacts.pathjoin_relative pt Hpt).
      apply IH; [now apply PathFacts.relative_tail | lia | exact Hp]. }
    cbn [_test_pattern_fuel glob_match].
    destruct path as [|q qt]; [reflexivity|].
    destruct (String.eqb h "**").
    + apply any_lazy_map. intros i _. apply IH'.
      now apply PathFacts.relative_drop.
    + destruct (fnmatch q h); cbn [negb andb]; [|reflexivity].
      apply IH'. now apply (PathFacts.relative_tail (q :: qt)).
Qed.

Lemma test_pattern_glob_match (path pattern : list string) :
  relative path -> relative (tail pattern) ->
  _test_pattern fnmatch path (Some pattern)
  = Some (glob_match fnmatch pattern path).
Proof.
  intros Hpath Hpt. unfold _test_pattern.
  apply test_pattern_fuel_glob_match; simpl; auto.
Qed.

Lemma glob_match_double_star (pt path : list string) :
  path <> [] ->
  glob_match fnmatch ("**" :: pt) path = true
  <-> exists n, (n <= List.length path)%nat
                /\ glob_match fnmatch pt (drop n path) = true.
Proof.
  intros Hne. destruct path as [|q qt]; [congruence|].
  cbn [glob_match]. change (String.eqb "**" "**") with true. cbn iota.
  rewrite existsb_exists. split.
  - intros (i & Hi & Hm). apply in_seq in Hi. exists i. split; [lia | exact Hm].
  - intros (n & Hn & Hm).
    destruct (decide (n = List.length (q :: qt))) as [->|Hlt].
    + rewrite drop_all in Hm. exists 0%nat. split; [apply in_seq; simpl; lia|].
      rewrite drop_0. destruct pt; [reflexivity | discriminate].
    + exists n. split; [apply in_seq; lia | exact Hm].
Qed.

End GlobFacts.

(** C5: the matcher works segment by segment.  An empty pattern matches
    every path; a non-empty pattern does not match the empty path; a
    leading [**] matches exactly when some suffix of the path matches the
    rest of the pattern; otherwise the first segments must match under
    [fnmatch] and the rests recursively.  ["bin/**"] matches
    ["bin/sub/mongod"] and ["bin/mongod"] but not ["lib/bin/mongod"], and
    ["*.exe"] matches ["mongod.exe"] but not ["bin/mongod.exe"]. *)
Theorem C5_glob_matcher_segmentwise (fnmatch : string -> string -> bool)
    (path pattern : list string) :
  relative path -> relative pattern ->
  (forall p, _test_pattern fnmatch p None = Some true
             /\ _test_pattern fnmatch p (Some []) = Some true)
  /\ (forall h pt, _test_pattern fnmatch [] (Some (h :: pt)) = Some false)
  /\ _test_pattern fnmatch path (Some pattern)
     = Some (glob_match fnmatch pattern path)
  /\ (forall pt, pattern = "**" :: pt -> path <> [] ->
        (_test_pattern fnmatch path (Some pattern) = Some true
         <-> exists n, (n <= List.length path)%nat
                       /\ _test_pattern fnmatch (drop n path) (Some pt)
                          = Some true))
  /\ (forall h pt q qt, pattern = h :: pt -> h <> "**" -> path = q :: qt ->
        (_test_pattern fnmatch path (Some pattern) = Some true
         <-> fnmatch q h = true
             /\ _test_pattern fnmatch qt (Some pt) = Some true))
  /\ _test_pattern Fnmatch.fnmatch (parse "bin/sub/mongod")
       (Some (parse "bin/**")) = Some true
  /\ _test_pattern Fnmatch.fnmatch (parse "bin/mongod")
       (Some (parse "bin/**")) = Some true
  /\ _test_pattern Fnmatch.fnmatch (parse "lib/bin/mongod")
       (Some (parse "bin/**")) = Some false
  /\ _test_pattern Fnmatch.fnmatch (parse "mongod.exe")
       (Some (parse "*.exe")) = Some true
  /\ _test_pattern Fnmatch.fnmatch (parse "bin/mongod.exe")
       (Some (parse "*.exe")) = Some false.
Proof.
  intros Hpath Hpattern.
  assert (Hrun : forall p q : list string, relative p -> relative q ->
            _test_pattern fnmatch p (Some q) = Some (glob_match fnmatch q p)).
  { intros p q Hp Hq. apply test_pattern_glob_match;
      [exact Hp | now apply PathFacts.relative_tail]. }
  split; [intros p; split; reflexivity|].
  split; [intros h pt; reflexivity|].
  split; [now apply Hrun|].
  split; [|split; [|repeat split; reflexivity]].
  - intros pt -> Hne.
    assert (Hpt : relative pt) by now apply (PathFacts.relative_tail ("**" :: pt)).
    rewrite (Hrun _ _ Hpath Hpattern). split.
    + intros H. injection H as H.
      apply glob_match_double_star in H as (n & Hn & H); [|exact Hne].
      exists n. split; [exact Hn|].
      rewrite Hrun by (try apply PathFacts.relative_drop; assumption).
      now rewrite H.
    + intros (n & Hn & H).
      rewrite Hrun in H by (try apply PathFacts.relative_drop; assumption).
      injection H as H. f_equal.
      apply glob_match_double_star; [exact Hne|]. now exists n.
  - intros h pt q qt -> Hh ->.
    assert (Hpt : relative pt) by now apply (PathFacts.relative_tail (h :: pt)).
    assert (Hqt : relative qt) by now apply (PathFacts.relative_tail (q :: qt)).
    rewrite (Hrun _ _ Hpath Hpattern), (Hrun _ _ Hqt Hpt).
    cbn [glob_match]. apply String.eqb_neq in Hh. rewrite Hh.
    destruct (fnmatch q h), (glob_match fnmatch pt qt); cbn;
      split; try tauto; try discriminate; intros [? ?]; discriminate.
Qed.

Lemma C5_glob_matcher_segmentwise_witness :
  _test_pattern Fnmatch.fnmatch ["bin"; "mongod"] (Some ["bin"; "**"])
  = Some (glob_match Fnmatch.fnmatch ["bin"; "**"] ["bin"; "mongod"]).
Proof.
  refine (proj1 (proj2 (proj2
    (C5_glob_matcher_segmentwise Fnmatch.fnmatch ["bin"; "mongod"]
       ["bin"; "**"] _ _))));
    repeat constructor.
Defined.

(** ** Files in the tree *)

(** Outside the root and the current directory a path is looked up in the
    map. *)
Lemma node_at_lookup (fs fs' : filesystem) (p : PurePath) :
  node_at fs p <> Some Dir -> node_at fs' p = fs' !! p.
Proof.
  unfold node_at. destruct p as [|seg [|seg' p]]; try reflexivity.
  - congruence.
  - destruct (is_root seg); [congruence | reflexivity].
Qed.

Lemma write_then_chmod (fs fs2 fs3 : filesystem) (p : PurePath)
    (content : string) (modebits : Z) :
  write_file fs p content = Ok fs2 -> chmod fs2 p modebits = Ok fs3 ->
  fs3 !! p = Some (File content modebits).
Proof.
  unfold write_file, chmod. intros Hw Hc.
  assert (Hnd : node_at fs p <> Some Dir).
  { intros E. rewrite E in Hw. discriminate. }
  assert (Hat : node_at fs2 p = Some (File content (match node_at fs p with
                                                    | Some (File _ m) => m
                                                    | _ => default_mode
                                                    end))).
  { rewrite (node_at_lookup fs fs2 p Hnd).
    destruct (node_at fs p) as [[|c m]|].
    - congruence.
    - injection Hw as <-. apply lookup_insert_eq.
    - destruct (node_at fs (parent p)) as [[|c m]|]; try discriminate.
      injection Hw as <-. apply lookup_insert_eq. }
  rewrite Hat in Hc. injection Hc as <-. apply lookup_insert_eq.
Qed.

(** ** The download cache *)

(** C8: on "not modified" the fetch returns [changed = false] with the
    cached path exactly when that path is a file on disk; otherwise it
    fails with an assertion error.  Either way nothing is written and no
    validators are stored. *)
Theorem C8_not_modified_requires_cached_file
    (sha256_hexdigest : string -> string) (urlopen : Request -> res Response)
    (_dirpath : PurePath) (fs : filesystem) (table : http_table)
    (url : string) :
  let dest := cache_dest sha256_hexdigest _dirpath url in
  let fetched := download_file sha256_hexdigest urlopen _dirpath fs table url in
  urlopen (mkRequest url (request_headers sha256_hexdigest _dirpath fs table url))
  = Raise (HTTPError 304) ->
  (path_is_file fs dest = true ->
   ft_result fetched = Ok (mkDownloadResult false dest))
  /\ (path_is_file fs dest = false -> ft_result fetched = Raise AssertionError)
  /\ (forall r, ft_result fetched = Ok r ->
        path_is_file fs dest = true /\ is_changed r = false /\ path r = dest)
  /\ ft_fs fetched = fs
  /\ ft_table fetched = table.
Proof.
  intros dest fetched H. unfold fetched, download_file. rewrite H.
  change (304 =? 304) with true. cbn [negb].
  fold dest. destruct (path_is_file fs dest); cbn [negb ft_result ft_fs ft_table].
  - repeat split; try reflexivity; try discriminate;
      match goal with Hr : Ok _ = Ok _ |- _ => now injection Hr as <- end.
  - repeat split; try reflexivity; discriminate.
Qed.

Lemma C8_not_modified_requires_cached_file_witness :
  ft_result (download_file example_digest example_unchanged ["/"; "cache"]
               example_cache_fs example_table example_url)
  = Ok (mkDownloadResult false ["/"; "cache"; "files"; "3f2a"; "full.json"])
  /\ ft_result (download_file example_digest example_unchanged ["/"; "cache"]
                  ∅ example_table example_url)
     = Raise AssertionError.
Proof.
  split.
  - apply (C8_not_modified_requires_cached_file example_digest
             example_unchanged ["/"; "cache"] example_cache_fs example_table
             example_url eq_refl).
    reflexivity.
  - apply (C8_not_modified_requires_cached_file example_digest
             example_unchanged ["/"; "cache"] ∅ example_table
             example_url eq_refl).
    reflexivity.
Defined.

(** C10: when the local file derived from the URL is absent, the request
    carries no conditional headers, whatever validators are stored for the
    URL; a response to it is stored as a full download. *)
Theorem C10_no_validators_without_cached_file
    (sha256_hexdigest : string -> string) (urlopen : Request -> res Response)
    (_dirpath : PurePath) (fs : filesystem) (table : http_table)
    (url : string) :
  let fetched := download_file sha256_hexdigest urlopen _dirpath fs table url in
  path_exists fs (cache_dest sha256_hexdigest _dirpath url) = false ->
  request_headers sha256_hexdigest _dirpath fs table url = ∅
  /\ ft_request fetched = mkRequest url ∅
  /\ (forall resp, urlopen (mkRequest url ∅) = Ok resp ->
        (ft_result fetched, ft_fs fetched, ft_table fetched)
        = store_response sha256_hexdigest _dirpath fs table url resp).
Proof.
  intros fetched H.
  assert (Hh : request_headers sha256_hexdigest _dirpath fs table url = ∅).
  { unfold request_headers. rewrite H.
    now destruct (default (None, None) (table !! url)). }
  split; [exact Hh|]. unfold fetched, download_file. rewrite Hh. split.
  - destruct (urlopen (mkRequest url ∅)) as [resp|e].
    + now destruct (store_response _ _ fs table url resp) as [[r fs'] t'].
    + destruct e; try reflexivity.
      destruct (negb (code =? 304)); [reflexivity|].
      now destruct (negb (path_is_file fs _)).
  - intros resp ->.
    now destruct (store_response _ _ fs table url resp) as [[r fs'] t'].
Qed.

Lemma C10_no_validators_without_cached_file_witness :
  example_table !! example_url
  = Some (Some "v1", Some "Mon, 01 Jan 2024 00:00:00 GMT")
  /\ request_headers example_digest ["/"; "cache"] ∅ example_table example_url
     = ∅.
Proof.
  split; [reflexivity|].
  apply (C10_no_validators_without_cached_file example_digest
           example_unchanged ["/"; "cache"] ∅ example_table example_url).
  reflexivity.
Defined.

(** ** Catalog import and lookup *)

(** C3: the set of missing targets is started afresh for every version
    entry, so an unknown target under an earlier entry is not reported:
    importing [example_manifest] logs nothing, while the same entries in
    the opposite order log ["foo"]. *)
Theorem C3_missing_targets_of_last_version_only :
  io_result (_import_json_data false empty_catalog example_manifest) = Ok ()
  /\ io_reported (_import_json_data false empty_catalog example_manifest) = None
  /\ io_reported (_import_json_data false empty_catalog (rev example_manifest))
     = Some {[ "foo" ]}
  /\ io_result (_import_json_data false empty_catalog []) = Raise NameError.
Proof. repeat split; vm_compute; reflexivity. Qed.

Lemma where_rows_raise f rows e :
  (forall r e', f r = Raise e' -> e' = OperationalError) ->
  where_rows f rows = Raise e -> e = OperationalError.
Proof.
  intros Hf. induction rows as [|r rows IH]; [discriminate|].
  cbn [where_rows]. unfold mbind, res_bind.
  destruct (f r) as [b|e'] eqn:E.
  - destruct (where_rows f rows) as [rest|e'']; [discriminate|].
    intros H. injection H as <-. now apply IH.
  - intros H. injection H as <-. now apply (Hf r).
Qed.

Lemma sql_call_raise {A} (m : res A) e :
  Sql.call m = Raise e -> e = OperationalError.
Proof. destruct m; simpl; [discriminate | congruence]. Qed.

Lemma insert_desc_raise r sorted e :
  insert_desc r sorted = Raise e -> e = OperationalError.
Proof.
  induction sorted as [|s rest IH]; [discriminate|].
  cbn [insert_desc]. unfold mbind, res_bind.
  destruct (Sql.call _) as [c|e'] eqn:E.
  - destruct (0 <=? c); [discriminate|].
    destruct (insert_desc r rest) as [rest'|e'']; [discriminate|].
    intros H. injection H as <-. now apply IH.
  - intros H. injection H as <-. now apply sql_call_raise in E.
Qed.

Lemma order_desc_raise rows e :
  order_desc rows = Raise e -> e = OperationalError.
Proof.
  induction rows as [|r rows IH]; [discriminate|].
  cbn [order_desc]. unfold mbind, res_bind.
  destruct (order_desc rows) as [sorted|e'].
  - apply insert_desc_raise.
  - intros H. injection H as <-. now apply IH.
Qed.

Lemma version_case_raise param ver e :
  version_case param ver = Raise e -> e = OperationalError.
Proof.
  unfold version_case. destruct param as [v|]; [|discriminate].
  destruct (String.eqb v "latest-release"); [discriminate|].
  destruct (String.eqb v "latest-stable"); [apply sql_call_raise|].
  destruct (String.eqb v "rapid"); [apply sql_call_raise | discriminate].
Qed.

(** A failing query fails with [OperationalError]. *)
Lemma iter_available_raise cat version target arch edition component e :
  iter_available cat version target arch edition component = Raise e ->
  e = OperationalError.
Proof.
  unfold iter_available, mbind, res_bind.
  destruct (where_rows _ _) as [rows|e'] eqn:E.
  - apply order_desc_raise.
  - intros H. injection H as <-. apply where_rows_raise in E; [exact E|].
    intros r e''. destruct (_ && _); [apply version_case_raise | discriminate].
Qed.

Lemma json_item_raise k v e : json_item k v = Raise e -> e <> ValueError.
Proof.
  destruct v as [s|d]; simpl.
  - intros H. injection H as <-. discriminate.
  - unfold dict_item. destruct (dict_get k d); [discriminate|].
    intros H. injection H as <-. discriminate.
Qed.

(** [_published_build_url] raises [ValueError] exactly on a lookup miss. *)
Lemma published_miss cat version target arch edition component :
  _published_build_url cat version target arch edition component
  = Raise ValueError
  <-> lookup_miss cat version target arch edition component.
Proof.
  unfold _published_build_url, lookup_miss.
  destruct (String.eqb component "archive-debug");
    unfold mbind, res_bind;
    (destruct (iter_available _ _ _ _ _ _) as [[|tup rest]|e] eqn:E;
     [ tauto
     | split; [|discriminate];
       destruct (json_item _ (dc_data_json tup)) as [u|e1] eqn:E1;
       [ destruct (json_item "sha256" (dc_data_json tup)) as [h|e2] eqn:E2;
         [ discriminate
         | intros H; injection H as ->; now apply json_item_raise in E2 ]
       | intros H; injection H as ->; now apply json_item_raise in E1 ]
     | split; [|discriminate];
       intros H; injection H as ->;
       apply iter_available_raise in E; discriminate ]).
Qed.

(** C9: for a published version a lookup miss is an error, save one case:
    for [crypt_shared] at a version other than [latest-release] a warning
    is issued and the request is resolved once more at [latest-release],
    with target [osx] rewritten to [macos]; a miss there is an error
    too. *)
Theorem C9_lookup_miss_fallback (cat : Catalog)
    (version target arch edition component : string)
    (latest_build_branch : option string) :
  let resolved := _dl_component_resolve cat version target arch edition
                    component latest_build_branch in
  let target' := if String.eqb target "osx" then "macos" else target in
  str_in version ["latest-build"; "latest"] = false ->
  (lookup_miss cat version target arch edition component ->
   component = "crypt_shared" -> version <> "latest-release" ->
   resolved
   = mkResolved [crypt_shared_warning]
       (with_sha (_published_build_url cat "latest-release" target' arch
                    edition component)))
  /\ (lookup_miss cat version target arch edition component ->
      component = "crypt_shared" -> version <> "latest-release" ->
      lookup_miss cat "latest-release" target' arch edition component ->
      rs_result resolved = Raise ValueError)
  /\ (lookup_miss cat version target arch edition component ->
      component <> "crypt_shared" ->
      resolved = mkResolved [] (Raise ValueError))
  /\ (lookup_miss cat version target arch edition component ->
      version = "latest-release" ->
      resolved = mkResolved [] (Raise ValueError))
  /\ (~ lookup_miss cat version target arch edition component ->
      resolved
      = mkResolved []
          (with_sha (_published_build_url cat version target arch edition
                       component))).
Proof.
  intros resolved target' Hpub.
  assert (Hres : resolved =
    match _published_build_url cat version target arch edition component with
    | Raise ValueError =>
        if String.eqb component "crypt_shared"
           && negb (String.eqb version "latest-release")
        then mkResolved [crypt_shared_warning]
               (with_sha (_published_build_url cat "latest-release" target'
                            arch edition component))
        else mkResolved [] (Raise ValueError)
    | r => mkResolved [] (with_sha r)
    end).
  { unfold resolved, _dl_component_resolve. now rewrite Hpub. }
  rewrite Hres. clear Hres. clearbody resolved.
  pose proof (published_miss cat version target arch edition component) as Hm.
  repeat split.
  - intros Hmiss -> Hv. apply Hm in Hmiss. rewrite Hmiss.
    apply String.eqb_neq in Hv. now rewrite Hv.
  - intros Hmiss -> Hv Hmiss'. apply Hm in Hmiss. rewrite Hmiss.
    apply String.eqb_neq in Hv. rewrite Hv.
    change (String.eqb "crypt_shared" "crypt_shared") with true.
    cbn [andb negb rs_result].
    apply published_miss in Hmiss'. now rewrite Hmiss'.
  - intros Hmiss Hc. apply Hm in Hmiss. rewrite Hmiss.
    apply String.eqb_neq in Hc. now rewrite Hc.
  - intros Hmiss ->. apply Hm in Hmiss. rewrite Hmiss.
    now rewrite andb_false_r.
  - intros Hhit.
    destruct (_published_build_url cat version target arch edition component)
      as [r|e] eqn:E; [reflexivity|].
    destruct e; try reflexivity. exfalso. apply Hhit, Hm. reflexivity.
Qed.

Lemma C9_lookup_miss_fallback_witness :
  _dl_component_resolve example_catalog "4.4" "osx" "x86_64" "enterprise"
    "crypt_shared" None
  = mkResolved [crypt_shared_warning] (Ok (JStr "C", Some (JStr "T")))
  /\ _dl_component_resolve example_catalog "4.4" "osx" "x86_64" "enterprise"
       "archive" None
     = mkResolved [] (Raise ValueError).
Proof.
  destruct (C9_lookup_miss_fallback example_catalog "4.4" "osx" "x86_64"
              "enterprise" "crypt_shared" None eq_refl) as (H1 & _).
  destruct (C9_lookup_miss_fallback example_catalog "4.4" "osx" "x86_64"
              "enterprise" "archive" None eq_refl) as (_ & _ & H3 & _).
  split.
  - rewrite H1; [reflexivity | reflexivity | reflexivity | discriminate].
  - apply H3; [reflexivity | discriminate].
Defined.

(** ** Further facts on the stable filter and the report of the import *)

(** A stable three-part version parses with the sentinel as stage rank and
    0 as stage sequence number. *)
Lemma version_tup_stable (a b c : string) :
  a <> EmptyString -> b <> EmptyString -> c <> EmptyString ->
  Str.all Str.is_digit a = true -> Str.all Str.is_digit b = true ->
  Str.all Str.is_digit c = true ->
  version_tup (a ++ "." ++ b ++ "." ++ c)
  = Ok (Str.digits_val 0 a, Str.digits_val 0 b, Str.digits_val 0 c,
        STABLE_MAX_RC, 0).
Proof.
  intros Ha Hb Hc Da Db Dc. unfold version_tup.
  change (a ++ "." ++ b ++ "." ++ c) with (a ++ String "." (b ++ String "." c)).
  assert (Hmajor : MAJOR_VERSION_RE_match (a ++ String "." (b ++ String "." c))
                   = false).
  { unfold MAJOR_VERSION_RE_match.
    rewrite (StrFacts.plus_app _ a _ Ha Da) by reflexivity.
    cbn [Str.char]. change (Ascii.eqb "." ".") with true. cbn iota.
    rewrite (StrFacts.plus_app _ b _ Hb Db) by reflexivity.
    reflexivity. }
  rewrite Hmajor. unfold VERSION_RE_match.
  rewrite (StrFacts.plus_app _ a _ Ha Da) by reflexivity.
  cbn [Str.char]. change (Ascii.eqb "." ".") with true. cbn iota.
  rewrite (StrFacts.plus_app _ b _ Hb Db) by reflexivity.
  cbn [Str.char]. change (Ascii.eqb "." ".") with true. cbn iota.
  rewrite (StrFacts.plus_all _ c Hc Dc).
  change (VERSION_RE_stage EmptyString) with (@None (string * string)).
  cbn iota.
  rewrite (StrFacts.int_digits a Ha Da), (StrFacts.int_digits b Hb Db),
          (StrFacts.int_digits c Hc Dc).
  reflexivity.
Qed.

(** No stable three-part version passes the predicate behind
    [latest-stable]. *)
Lemma mdb_version_not_rc_stable (a b c : string) :
  a <> EmptyString -> b <> EmptyString -> c <> EmptyString ->
  Str.all Str.is_digit a = true -> Str.all Str.is_digit b = true ->
  Str.all Str.is_digit c = true ->
  mdb_version_not_rc (a ++ "." ++ b ++ "." ++ c) = Ok false.
Proof.
  intros Ha Hb Hc Da Db Dc. unfold mdb_version_not_rc.
  now rewrite (version_tup_stable a b c Ha Hb Hc Da Db Dc).
Qed.

#[local] Set Warnings "-clear-no-such-hyp".

Lemma unknown_targets_cons (dl : dict) (dls : list dict) :
  unknown_targets (dl :: dls)
  = match download_target dl with
    | Some t => if target_unknown t then {[ t ]} else ∅
    | None => ∅
    end ∪ unknown_targets dls.
Proof.
  unfold unknown_targets. cbn [omap list_omap].
  destruct (download_target dl) as [t|]; [|set_solver].
  rewrite filter_cons. destruct (target_unknown t).
  - rewrite decide_True by reflexivity. now rewrite list_to_set_cons.
  - rewrite decide_False by discriminate. set_solver.
Qed.

Lemma import_download_missing vid cat missing dl cat' missing' :
  import_download vid (cat, missing) dl = Ok (cat', missing') ->
  missing' = missing ∪ unknown_targets [dl].
Proof.
  rewrite unknown_targets_cons.
  unfold import_download, download_target.
  destruct (default (JStr "null") (dict_get "target" dl)) as [t|d]; [|discriminate].
  fold (target_unknown (normalize_target t)).
  unfold mbind, res_bind.
  destruct (dict_item "edition" dl); [|discriminate].
  destruct (dict_item "archive" dl) as [archive|]; [|discriminate].
  destruct (json_item "url" archive); [|discriminate].
  destruct (bind_text _); [|discriminate].
  destruct (bind_text _); [|discriminate].
  destruct (bind_text _); [|discriminate].
  match goal with |- context [match ?x with Ok _ => _ | Raise _ => _ end] =>
    destruct x; [|discriminate] end.
  match goal with |- context [match ?x with Ok _ => _ | Raise _ => _ end] =>
    destruct x; [|discriminate] end.
  intros H. injection H as _ <-.
  destruct (target_unknown (normalize_target t)); set_solver.
Qed.

Lemma import_downloads_missing vid dls : forall cat missing cat' missing',
  import_downloads vid (cat, missing) dls = Ok (cat', missing') ->
  missing' = missing ∪ unknown_targets dls.
Proof.
  induction dls as [|dl dls IH]; intros cat missing cat' missing'.
  - cbn [import_downloads]. intros H. injection H as _ <-.
    unfold unknown_targets. set_solver.
  - cbn [import_downloads]. unfold mbind, res_bind.
    destruct (import_download vid (cat, missing) dl) as [[cat1 m1]|] eqn:E;
      [|discriminate].
    intros H. apply IH in H. apply import_download_missing in E.
    rewrite unknown_targets_cons. rewrite unknown_targets_cons in E.
    set_solver.
Qed.

(** After the loop over a non-empty version list the variable [missing]
    holds the unknown targets of the last entry alone. *)
Lemma import_versions_missing vers : forall st cat missing,
  vers <> [] ->
  import_versions st vers = Ok (cat, missing) ->
  exists last_ver, List.last vers last_ver = last_ver
                   /\ In last_ver vers
                   /\ missing = Some (unknown_targets (ve_downloads last_ver)).
Proof.
  induction vers as [|ver rest IH]; intros st cat missing Hne; [congruence|].
  cbn [import_versions]. destruct st as [cat0 m0]. unfold mbind, res_bind.
  destruct (import_downloads _ _ _) as [[cat2 m2]|] eqn:E; [|discriminate].
  destruct rest as [|ver' rest'].
  - cbn [import_versions]. intros H. injection H as _ <-.
    exists ver. split; [reflexivity|]. split; [now left|].
    apply import_downloads_missing in E. f_equal. set_solver.
  - intros H. apply IH in H as (lv & Hlast & Hin & Hm); [|discriminate].
    exists lv. split; [exact Hlast|]. split; [now right | exact Hm].
Qed.

(** What the import reports is the set of unknown targets of the last
    version entry. *)
Lemma import_reports_last_version_only validate old data missing :
  io_reported (_import_json_data validate old data) = Some missing ->
  exists last_ver, List.last data last_ver = last_ver
                   /\ In last_ver data
                   /\ missing = unknown_targets (ve_downloads last_ver).
Proof.
  unfold _import_json_data.
  destruct (import_versions (empty_catalog, None) data) as [[cat m]|] eqn:E;
    [|discriminate].
  destruct data as [|ver rest].
  - cbn in E. injection E as _ <-. discriminate.
  - apply import_versions_missing in E as (lv & Hlast & Hin & ->);
      [|discriminate].
    destruct (bool_decide _); [discriminate|].
    cbn [io_reported]. intros H. injection H as <-.
    now exists lv.
Qed.

(** Under an absolute path the parts are not kept by [_pathjoin]: the root
    joined with a separator reads back as a double slash. *)
Remark pathjoin_root : _pathjoin ["/"; "a"] = ["//"; "a"].
Proof. reflexivity. Qed.

(** A negative [strip] is read by the slice from the end of the path. *)
Remark slice_from_negative :
  slice_from ["bin"; "sub"; "mongod"] (-1) = ["mongod"].
Proof. reflexivity. Qed.

(** * Further properties of the code *)

(** ** Version strings *)

Lemma MAJOR_VERSION_RE_three (a b r : string) :
  a <> EmptyString -> b <> EmptyString ->
  Str.all Str.is_digit a = true -> Str.all Str.is_digit b = true ->
  MAJOR_VERSION_RE_match (a ++ String "." (b ++ String "." r)) = false.
Proof.
  intros Ha Hb Da Db. unfold MAJOR_VERSION_RE_match.
  rewrite (StrFacts.plus_app _ a _ Ha Da) by reflexivity.
  cbn [Str.char]. change (Ascii.eqb "." ".") with true. cbn iota.
  rewrite (StrFacts.plus_app _ b _ Hb Db) by reflexivity.
  reflexivity.
Qed.

(** The groups of [VERSION_RE] on three runs of digits followed by [r]. *)
Lemma VERSION_RE_three (a b c r : string) :
  a <> EmptyString -> b <> EmptyString -> c <> EmptyString ->
  Str.all Str.is_digit a = true -> Str.all Str.is_digit b = true ->
  Str.all Str.is_digit c = true -> stops Str.is_digit r ->
  VERSION_RE_match (a ++ String "." (b ++ String "." (c ++ r)))
  = Some (a, b, c, VERSION_RE_stage r).
Proof.
  intros Ha Hb Hc Da Db Dc Hr. unfold VERSION_RE_match.
  rewrite (StrFacts.plus_app _ a _ Ha Da) by reflexivity.
  cbn [Str.char]. change (Ascii.eqb "." ".") with true. cbn iota.
  rewrite (StrFacts.plus_app _ b _ Hb Db) by reflexivity.
  cbn [Str.char]. change (Ascii.eqb "." ".") with true. cbn iota.
  now rewrite (StrFacts.plus_app _ c r Hc Dc Hr).
Qed.

Lemma version_tup_three (a b c r : string) :
  a <> EmptyString -> b <> EmptyString -> c <> EmptyString ->
  Str.all Str.is_digit a = true -> Str.all Str.is_digit b = true ->
  Str.all Str.is_digit c = true -> stops Str.is_digit r ->
  version_tup (a ++ String "." (b ++ String "." (c ++ r)))
  = match VERSION_RE_stage r with
    | None =>
        Ok (Str.digits_val 0 a, Str.digits_val 0 b, Str.digits_val 0 c,
            STABLE_MAX_RC, 0)
    | Some (tag, tagnum) =>
        t ← stage_rank tag;
        n ← Str.int tagnum;
        Ok (Str.digits_val 0 a, Str.digits_val 0 b, Str.digits_val 0 c, t, n)
    end.
Proof.
  intros Ha Hb Hc Da Db Dc Hr. unfold version_tup.
  rewrite (MAJOR_VERSION_RE_three a b (c ++ r) Ha Hb Da Db).
  rewrite (VERSION_RE_three a b c r Ha Hb Hc Da Db Dc Hr).
  destruct (VERSION_RE_stage r) as [[tag tagnum]|].
  - rewrite (StrFacts.int_digits a Ha Da), (StrFacts.int_digits b Hb Db),
            (StrFacts.int_digits c Hc Dc).
    unfold mbind, res_bind. destruct (stage_rank tag); reflexivity.
  - now rewrite (StrFacts.int_digits a Ha Da), (StrFacts.int_digits b Hb Db),
                (StrFacts.int_digits c Hc Dc).
Qed.

Lemma stage_rank_lower (tag : string) (rank : Z) :
  stage_rank tag = Ok rank ->
  tag <> EmptyString /\ Str.all Str.is_lower tag = true.
Proof.
  unfold stage_rank.
  destruct (String.eqb tag "alpha") eqn:E1;
    [apply String.eqb_eq in E1; subst; intros _; split; [discriminate | reflexivity]|].
  destruct (String.eqb tag "beta") eqn:E2;
    [apply String.eqb_eq in E2; subst; intros _; split; [discriminate | reflexivity]|].
  destruct (String.eqb tag "rc") eqn:E3;
    [apply String.eqb_eq in E3; subst; intros _; split; [discriminate | reflexivity]|].
  discriminate.
Qed.

Lemma digit_not_lower c : Str.is_digit c = true -> Str.is_lower c = false.
Proof.
  intros H. apply StrFacts.digit_range in H. unfold Str.is_lower.
  apply andb_false_iff. left. apply Nat.leb_gt. lia.
Qed.

Lemma digits_stop_lower (n : string) :
  Str.all Str.is_digit n = true -> stops Str.is_lower n.
Proof.
  destruct n as [|c n]; [exact (fun _ => I)|]. simpl. intros H.
  apply andb_prop in H as [Hc _]. now apply digit_not_lower.
Qed.

(** The optional group on [-<tag><digits>]. *)
Lemma VERSION_RE_stage_tagged (tag n : string) :
  tag <> EmptyString -> Str.all Str.is_lower tag = true ->
  n <> EmptyString -> Str.all Str.is_digit n = true ->
  VERSION_RE_stage (String "-" (tag ++ n)) = Some (tag, n).
Proof.
  intros Ht Lt Hn Dn. unfold VERSION_RE_stage.
  cbn [Str.char]. change (Ascii.eqb "-" "-") with true. cbn iota.
  rewrite (StrFacts.plus_app _ tag n Ht Lt (digits_stop_lower n Dn)).
  now rewrite (StrFacts.plus_all _ n Hn Dn).
Qed.

Lemma version_tup_tagged (a b c tag n : string) (rank : Z) :
  a <> EmptyString -> b <> EmptyString -> c <> EmptyString ->
  n <> EmptyString ->
  Str.all Str.is_digit a = true -> Str.all Str.is_digit b = true ->
  Str.all Str.is_digit c = true -> Str.all Str.is_digit n = true ->
  stage_rank tag = Ok rank ->
  version_tup (a ++ "." ++ b ++ "." ++ c ++ "-" ++ tag ++ n)
  = Ok (Str.digits_val 0 a, Str.digits_val 0 b, Str.digits_val 0 c,
        rank, Str.digits_val 0 n).
Proof.
  intros Ha Hb Hc Hn Da Db Dc Dn Hrank.
  destruct (stage_rank_lower tag rank Hrank) as [Ht Lt].
  change (a ++ "." ++ b ++ "." ++ c ++ "-" ++ tag ++ n)
    with (a ++ String "." (b ++ String "." (c ++ String "-" (tag ++ n)))).
  rewrite version_tup_three by (try assumption; reflexivity).
  rewrite (VERSION_RE_stage_tagged tag n Ht Lt Hn Dn), Hrank.
  unfold mbind, res_bind. now rewrite (StrFacts.int_digits n Hn Dn).
Qed.

(** X1: a version [MAJOR.MINOR.PATCH] parses to its three numbers with the
    stable sentinel and sequence number 0, and
    [MAJOR.MINOR.PATCH-<tag><n>] with tag alpha, beta or rc parses to the
    three numbers, the rank of the tag and [n]. *)
Theorem X1_version_tup_parses (a b c tag n : string) (rank : Z) :
  a <> EmptyString -> b <> EmptyString -> c <> EmptyString ->
  n <> EmptyString ->
  Str.all Str.is_digit a = true -> Str.all Str.is_digit b = true ->
  Str.all Str.is_digit c = true -> Str.all Str.is_digit n = true ->
  stage_rank tag = Ok rank ->
  version_tup (a ++ "." ++ b ++ "." ++ c)
  = Ok (Str.digits_val 0 a, Str.digits_val 0 b, Str.digits_val 0 c,
        STABLE_MAX_RC, 0)
  /\ version_tup (a ++ "." ++ b ++ "." ++ c ++ "-" ++ tag ++ n)
     = Ok (Str.digits_val 0 a, Str.digits_val 0 b, Str.digits_val 0 c,
           rank, Str.digits_val 0 n).
Proof.
  intros Ha Hb Hc Hn Da Db Dc Dn Hrank. split.
  - now apply version_tup_stable.
  - now apply version_tup_tagged.
Qed.

Lemma X1_version_tup_parses_witness :
  version_tup ("5" ++ "." ++ "0" ++ "." ++ "3")
  = Ok (Str.digits_val 0 "5", Str.digits_val 0 "0", Str.digits_val 0 "3",
        STABLE_MAX_RC, 0)
  /\ version_tup ("5" ++ "." ++ "0" ++ "." ++ "3" ++ "-" ++ "rc" ++ "12")
     = Ok (Str.digits_val 0 "5", Str.digits_val 0 "0", Str.digits_val 0 "3",
           3, Str.digits_val 0 "12").
Proof.
  apply (X1_version_tup_parses "5" "0" "3" "rc" "12" 3);
    first [discriminate | reflexivity].
Defined.

(** X2: text after the patch number that starts neither with a digit nor
    with a hyphen is ignored: the version parses as the stable
    [MAJOR.MINOR.PATCH]. *)
Theorem X2_version_tup_ignores_trailing_text (a b c r : string) :
  a <> EmptyString -> b <> EmptyString -> c <> EmptyString ->
  Str.all Str.is_digit a = true -> Str.all Str.is_digit b = true ->
  Str.all Str.is_digit c = true ->
  stops Str.is_digit r -> stops (Ascii.eqb "-") r ->
  version_tup (a ++ "." ++ b ++ "." ++ c ++ r)
  = version_tup (a ++ "." ++ b ++ "." ++ c).
Proof.
  intros Ha Hb Hc Da Db Dc Hr Hh.
  rewrite (version_tup_stable a b c Ha Hb Hc Da Db Dc).
  change (a ++ "." ++ b ++ "." ++ c ++ r)
    with (a ++ String "." (b ++ String "." (c ++ r))).
  rewrite version_tup_three by assumption.
  replace (VERSION_RE_stage r) with (@None (string * string)); [reflexivity|].
  unfold VERSION_RE_stage.
  destruct r as [|ch r]; [reflexivity|]. unfold stops in Hh.
  cbn [Str.char]. now rewrite Hh.
Qed.

Lemma X2_version_tup_ignores_trailing_text_witness :
  version_tup ("5" ++ "." ++ "0" ++ "." ++ "3" ++ "+git")
  = version_tup ("5" ++ "." ++ "0" ++ "." ++ "3").
Proof.
  apply (X2_version_tup_ignores_trailing_text "5" "0" "3" "+git");
    first [discriminate | reflexivity].
Defined.

(** X3: a string that is empty or starts with a character other than a
    digit is no version: parsing fails with an assertion error, and so does
    the collation with it on either side of a parsable version. *)
Theorem X3_version_tup_rejects_non_digit_start (s v : string)
    (t : version_tuple) :
  stops Str.is_digit s -> version_tup v = Ok t ->
  version_tup s = Raise AssertionError
  /\ collate_mdb_version s v = Raise AssertionError
  /\ collate_mdb_version v s = Raise AssertionError.
Proof.
  intros Hs Hv.
  assert (H : version_tup s = Raise AssertionError).
  { unfold version_tup, MAJOR_VERSION_RE_match, VERSION_RE_match, Str.plus.
    destruct s as [|c s]; [reflexivity|]. simpl in Hs.
    cbn [Str.span]. now rewrite Hs. }
  unfold collate_mdb_version. rewrite H, Hv. repeat split.
Qed.

Lemma X3_version_tup_rejects_non_digit_start_witness :
  version_tup "v5.0.3" = Raise AssertionError
  /\ collate_mdb_version "v5.0.3" "5.0.3" = Raise AssertionError
  /\ collate_mdb_version "5.0.3" "v5.0.3" = Raise AssertionError.
Proof.
  apply (X3_version_tup_rejects_non_digit_start "v5.0.3" "5.0.3"
           (5, 0, 3, STABLE_MAX_RC, 0)); reflexivity.
Defined.

(** X4: a pre-release tag other than alpha, beta and rc is a key error,
    not a parse failure. *)
Theorem X4_version_tup_unknown_tag (a b c tag n : string) :
  a <> EmptyString -> b <> EmptyString -> c <> EmptyString ->
  tag <> EmptyString -> n <> EmptyString ->
  Str.all Str.is_digit a = true -> Str.all Str.is_digit b = true ->
  Str.all Str.is_digit c = true -> Str.all Str.is_lower tag = true ->
  Str.all Str.is_digit n = true ->
  tag <> "alpha" -> tag <> "beta" -> tag <> "rc" ->
  version_tup (a ++ "." ++ b ++ "." ++ c ++ "-" ++ tag ++ n) = Raise KeyError.
Proof.
  intros Ha Hb Hc Ht Hn Da Db Dc Lt Dn N1 N2 N3.
  change (a ++ "." ++ b ++ "." ++ c ++ "-" ++ tag ++ n)
    with (a ++ String "." (b ++ String "." (c ++ String "-" (tag ++ n)))).
  rewrite version_tup_three by (try assumption; reflexivity).
  rewrite (VERSION_RE_stage_tagged tag n Ht Lt Hn Dn).
  unfold stage_rank.
  apply String.eqb_neq in N1, N2, N3. now rewrite N1, N2, N3.
Qed.

Lemma X4_version_tup_unknown_tag_witness :
  version_tup ("5" ++ "." ++ "0" ++ "." ++ "3" ++ "-" ++ "dev" ++ "1")
  = Raise KeyError.
Proof.
  apply (X4_version_tup_unknown_tag "5" "0" "3" "dev" "1");
    first [discriminate | reflexivity].
Defined.

(** X5: the predicate behind [rapid] is true exactly when the minor number
    is positive, on two-part and three-part versions alike. *)
Theorem X5_mdb_version_rapid_minor (a b c : string) :
  a <> EmptyString -> b <> EmptyString -> c <> EmptyString ->
  Str.all Str.is_digit a = true -> Str.all Str.is_digit b = true ->
  Str.all Str.is_digit c = true ->
  mdb_version_rapid (a ++ "." ++ b ++ "." ++ c) = Ok (0 <? Str.digits_val 0 b)
  /\ mdb_version_rapid (a ++ "." ++ b) = Ok (0 <? Str.digits_val 0 b).
Proof.
  intros Ha Hb Hc Da Db Dc. unfold mdb_version_rapid.
  rewrite (version_tup_stable a b c Ha Hb Hc Da Db Dc),
          (version_tup_bare a b Ha Hb Da Db).
  split; reflexivity.
Qed.

Lemma X5_mdb_version_rapid_minor_witness :
  mdb_version_rapid ("7" ++ "." ++ "3" ++ "." ++ "1")
  = Ok (0 <? Str.digits_val 0 "3")
  /\ mdb_version_rapid ("7" ++ "." ++ "3") = Ok (0 <? Str.digits_val 0 "3").
Proof.
  apply (X5_mdb_version_rapid_minor "7" "3" "1");
    first [discriminate | reflexivity].
Defined.

(** X6: on a tagged version the predicate behind [latest-stable] tells
    whether the sequence number is 9999; on every stable three-part version
    it is false. *)
Theorem X6_mdb_version_not_rc_reads_sequence_number
    (a b c tag n : string) (rank : Z) :
  a <> EmptyString -> b <> EmptyString -> c <> EmptyString ->
  n <> EmptyString ->
  Str.all Str.is_digit a = true -> Str.all Str.is_digit b = true ->
  Str.all Str.is_digit c = true -> Str.all Str.is_digit n = true ->
  stage_rank tag = Ok rank ->
  mdb_version_not_rc (a ++ "." ++ b ++ "." ++ c) = Ok false
  /\ mdb_version_not_rc (a ++ "." ++ b ++ "." ++ c ++ "-" ++ tag ++ n)
     = Ok (Str.digits_val 0 n =? STABLE_MAX_RC).
Proof.
  intros Ha Hb Hc Hn Da Db Dc Dn Hrank.
  unfold mdb_version_not_rc.
  rewrite (version_tup_stable a b c Ha Hb Hc Da Db Dc),
          (version_tup_tagged a b c tag n rank Ha Hb Hc Hn Da Db Dc Dn Hrank).
  split; reflexivity.
Qed.

Lemma X6_mdb_version_not_rc_reads_sequence_number_witness :
  mdb_version_not_rc ("5" ++ "." ++ "0" ++ "." ++ "3") = Ok false
  /\ mdb_version_not_rc ("5" ++ "." ++ "0" ++ "." ++ "3" ++ "-" ++ "rc" ++ "9999")
     = Ok (Str.digits_val 0 "9999" =? STABLE_MAX_RC).
Proof.
  apply (X6_mdb_version_not_rc_reads_sequence_number "5" "0" "3" "rc" "9999" 3);
    first [discriminate | reflexivity].
Defined.

(** ** Catalog queries *)

Lemma where_rows_in f rows out :
  where_rows f rows = Ok out ->
  forall r, In r out <-> In r rows /\ f r = Ok true.
Proof.
  revert out. induction rows as [|x rows IH]; intros out.
  - cbn [where_rows]. intros H. injection H as <-. simpl. tauto.
  - cbn [where_rows]. unfold mbind, res_bind.
    destruct (f x) as [b|] eqn:Ex; [|discriminate].
    destruct (where_rows f rows) as [rest|]; [|discriminate].
    intros H. injection H as <-. intros r. specialize (IH rest eq_refl r).
    destruct b; simpl; rewrite IH; split.
    + intros [->|[H1 H2]]; [split; [now left | exact Ex] | split; [now right | exact H2]].
    + intros [[->|H1] H2]; [now left | right; now split].
    + intros [H1 H2]; split; [now right | exact H2].
    + intros [[->|H1] H2]; [congruence | now split].
Qed.

Lemma insert_desc_perm r sorted out :
  insert_desc r sorted = Ok out -> Permutation (r :: sorted) out.
Proof.
  revert out. induction sorted as [|s rest IH]; intros out.
  - cbn [insert_desc]. intros H. now injection H as <-.
  - cbn [insert_desc]. unfold mbind, res_bind.
    destruct (Sql.call _) as [c|]; [|discriminate].
    destruct (0 <=? c).
    + intros H. now injection H as <-.
    + destruct (insert_desc r rest) as [rest'|]; [|discriminate].
      intros H. injection H as <-.
      rewrite Permutation_swap. constructor. now apply IH.
Qed.

Lemma order_desc_perm rows out :
  order_desc rows = Ok out -> Permutation rows out.
Proof.
  revert out. induction rows as [|r rows IH]; intros out.
  - cbn [order_desc]. intros H. now injection H as <-.
  - cbn [order_desc]. unfold mbind, res_bind.
    destruct (order_desc rows) as [sorted|]; [|discriminate].
    intros H. apply insert_desc_perm in H.
    rewrite <- H. constructor. now apply IH.
Qed.

Lemma collate_sign (l r : string) (c : Z) :
  collate_mdb_version l r = Ok c ->
  exists tl tr, version_tup l = Ok tl /\ version_tup r = Ok tr
                /\ (0 <= c <-> tup_ltb tl tr = false)
                /\ (c < 0 <-> tup_ltb tl tr = true).
Proof.
  unfold collate_mdb_version, mbind, res_bind.
  destruct (version_tup l) as [tl|]; [|discriminate].
  destruct (version_tup r) as [tr|]; [|discriminate].
  intros H. exists tl, tr. split; [reflexivity|]. split; [reflexivity|].
  destruct (tup_ltb tl tr).
  - injection H as <-. split; split; intros; try lia; try discriminate; reflexivity.
  - destruct (tup_ltb tr tl); injection H as <-;
      split; split; intros; try lia; try discriminate; reflexivity.
Qed.

Lemma tup_ltb_false_trans (a b c : version_tuple) :
  tup_ltb a b = false -> tup_ltb b c = false -> tup_ltb a c = false.
Proof.
  intros H1 H2. destruct (tup_ltb a c) eqn:E; [|reflexivity]. exfalso.
  assert (N1 : ~ lexicographic a b)
    by (intros H; apply tup_lt_lexicographic in H; unfold tup_lt in H; congruence).
  assert (N2 : ~ lexicographic b c)
    by (intros H; apply tup_lt_lexicographic in H; unfold tup_lt in H; congruence).
  apply tup_lt_lexicographic in E.
  destruct a as [[[[a1 a2] a3] a4] a5], b as [[[[b1 b2] b3] b4] b5],
           c as [[[[c1 c2] c3] c4] c5].
  unfold lexicographic in *. lia.
Qed.

Lemma tup_ltb_asym (a b : version_tuple) :
  tup_ltb a b = true -> tup_ltb b a = false.
Proof.
  intros H. destruct (tup_ltb b a) eqn:E; [|reflexivity]. exfalso.
  apply tup_lt_lexicographic in H, E.
  exact (lexicographic_irrefl _ (lexicographic_trans _ _ _ H E)).
Qed.

Lemma not_below_trans (r s x : DownloadableComponent) :
  not_below r s -> not_below s x -> not_below r x.
Proof.
  intros (c1 & H1 & G1) (c2 & H2 & G2).
  apply collate_sign in H1 as (tr & ts & Hr & Hs & S1 & _).
  apply collate_sign in H2 as (ts' & tx & Hs' & Hx & S2 & _).
  assert (ts' = ts) by congruence. subst ts'.
  pose proof (tup_ltb_false_trans tr ts tx (proj1 S1 G1) (proj1 S2 G2)) as H.
  exists (if tup_ltb tx tr then 1 else 0). split.
  - rewrite (collate_value _ _ tr tx Hr Hx), H. reflexivity.
  - destruct (tup_ltb tx tr); lia.
Qed.

Lemma insert_desc_sorted r sorted out :
  StronglySorted not_below sorted ->
  insert_desc r sorted = Ok out -> StronglySorted not_below out.
Proof.
  revert out. induction sorted as [|s rest IH]; intros out Hs.
  - cbn [insert_desc]. intros H. injection H as <-. repeat constructor.
  - cbn [insert_desc]. unfold mbind, res_bind.
    destruct (Sql.call _) as [c|] eqn:Ec; [|discriminate].
    assert (Hc : collate_mdb_version (dc_version r) (dc_version s) = Ok c).
    { destruct (collate_mdb_version (dc_version r) (dc_version s));
        simpl in Ec; congruence. }
    inversion Hs as [|? ? Hrest Hall]; subst.
    destruct (0 <=? c) eqn:E.
    + intros H. injection H as <-. apply Z.leb_le in E.
      assert (Hrs : not_below r s) by (exists c; now split).
      constructor; [exact Hs|]. constructor; [exact Hrs|].
      eapply Forall_impl; [exact Hall|]. intros x Hx.
      now apply (not_below_trans r s x).
    + destruct (insert_desc r rest) as [rest'|] eqn:Ei; [|discriminate].
      intros H. injection H as <-. apply Z.leb_gt in E.
      constructor; [now apply IH|].
      apply insert_desc_perm in Ei.
      rewrite <- Ei. constructor; [|exact Hall].
      destruct (collate_sign _ _ _ Hc) as (tr & ts & Hr & Hts & _ & S).
      exists (if tup_ltb tr ts then 1 else 0). split.
      * rewrite (collate_value _ _ ts tr Hts Hr).
        now rewrite (tup_ltb_asym tr ts (proj1 S E)).
      * destruct (tup_ltb tr ts); lia.
Qed.

Lemma order_desc_sorted rows out :
  order_desc rows = Ok out -> StronglySorted not_below out.
Proof.
  revert out. induction rows as [|r rows IH]; intros out.
  - cbn [order_desc]. intros H. injection H as <-. constructor.
  - cbn [order_desc]. unfold mbind, res_bind.
    destruct (order_desc rows) as [sorted|]; [|discriminate].
    apply insert_desc_sorted. now apply IH.
Qed.

(** X7: the rows of a query come in descending version order: no row
    sorts below a row that comes after it. *)
Theorem X7_iter_available_descending (cat : Catalog)
    (version target arch edition component : option string)
    (rows : list DownloadableComponent) :
  iter_available cat version target arch edition component = Ok rows ->
  StronglySorted not_below rows.
Proof.
  unfold iter_available, mbind, res_bind.
  destruct (where_rows _ _) as [filtered|]; [|discriminate].
  apply order_desc_sorted.
Qed.

(** X8: when a query succeeds, its rows are exactly the joined rows that
    pass every filter. *)
Theorem X8_iter_available_rows (cat : Catalog)
    (version target arch edition component : option string)
    (rows : list DownloadableComponent) :
  iter_available cat version target arch edition component = Ok rows ->
  forall r, In r rows
            <-> In r (joined_rows cat)
                /\ plain_filters target arch edition component r = true
                /\ version_case version (dc_version r) = Ok true.
Proof.
  unfold iter_available, mbind, res_bind.
  destruct (where_rows _ _) as [filtered|] eqn:E; [|discriminate].
  intros H r. apply order_desc_perm in H.
  pose proof (where_rows_in _ _ _ E r) as Hin. cbv beta in Hin.
  fold (plain_filters target arch edition component r) in Hin.
  split.
  - intros Hr. apply (Permutation_in _ (Permutation_sym H)) in Hr.
    apply Hin in Hr as [H1 H2]. split; [exact H1|].
    destruct (plain_filters target arch edition component r);
      [now split | discriminate].
  - intros (H1 & H2 & H3). apply (Permutation_in _ H). apply Hin.
    split; [exact H1|]. now rewrite H2.
Qed.

Lemma X7_iter_available_descending_witness :
  StronglySorted not_below
    [example_row "7.0.0-rc1"; example_row "6.0.6"; example_row "5.0.5"].
Proof.
  apply (X7_iter_available_descending example_catalog_three
           (Some "latest-release") None None None (Some "archive")).
  reflexivity.
Defined.

Lemma X8_iter_available_rows_witness :
  In (example_row "6.0.6") [example_row "6.0.6"]
  <-> In (example_row "6.0.6") (joined_rows example_catalog_three)
      /\ plain_filters None None None (Some "archive") (example_row "6.0.6")
         = true
      /\ version_case (Some "6.0") (dc_version (example_row "6.0.6")) = Ok true.
Proof.
  apply (X8_iter_available_rows example_catalog_three (Some "6.0") None None
           None (Some "archive")).
  reflexivity.
Defined.

Lemma like_percent (t : string) : Sql.like "%" t = true.
Proof.
  cbn [Sql.like]. change (Ascii.eqb "%" "%") with true. cbn iota.
  induction t as [|c t IH]; [reflexivity|].
  destruct t; cbn [Sql.like String.eqb] in *; [reflexivity|].
  now rewrite IH, orb_true_r.
Qed.

Lemma version_char_code c :
  version_char c = true ->
  (nat_of_ascii c = 46 \/ 48 <= nat_of_ascii c <= 57)%nat.
Proof.
  unfold version_char. intros H. apply orb_prop in H as [H|H].
  - right. now apply StrFacts.digit_range.
  - left. apply Ascii.eqb_eq in H. now subst.
Qed.

Lemma code_neq c d :
  nat_of_ascii c <> nat_of_ascii d -> Ascii.eqb c d = false.
Proof. intros H. apply Ascii.eqb_neq. intros ->. now apply H. Qed.

Lemma lower_version_char c d :
  version_char c = true ->
  Ascii.eqb (Sql.lower c) (Sql.lower d) = Ascii.eqb c d.
Proof.
  intros Hc. apply version_char_code in Hc.
  assert (Hlc : Sql.lower c = c).
  { unfold Sql.lower.
    destruct (65 <=? nat_of_ascii c)%nat eqn:E; [|reflexivity].
    apply Nat.leb_le in E. lia. }
  rewrite Hlc. unfold Sql.lower.
  destruct ((65 <=? nat_of_ascii d)%nat && (nat_of_ascii d <=? 90)%nat) eqn:E;
    [|reflexivity].
  apply andb_prop in E as [E1 E2]. apply Nat.leb_le in E1, E2.
  rewrite (code_neq c d) by lia.
  apply code_neq. rewrite nat_ascii_embedding by lia. lia.
Qed.

(** With digits and dots only before the final [%], [LIKE] is a prefix
    test. *)
Lemma like_prefix (p t : string) :
  Str.all version_char p = true ->
  Sql.like (p ++ "%") t = Str.prefix p t.
Proof.
  revert t. induction p as [|c p IH]; intros t Hp.
  - change (EmptyString ++ "%") with "%". rewrite like_percent.
    now destruct t.
  - cbn [Str.all] in Hp. apply andb_prop in Hp as [Hc Hp].
    rewrite StrFacts.append_cons. cbn [Sql.like Str.prefix].
    pose proof (version_char_code c Hc) as Hcode.
    rewrite (code_neq c "%") by (change (nat_of_ascii "%") with 37%nat; lia).
    destruct t as [|d t]; [reflexivity|].
    rewrite (code_neq c "_") by (change (nat_of_ascii "_") with 95%nat; lia).
    cbn [orb]. now rewrite (lower_version_char c d Hc), (IH t Hp).
Qed.

Lemma version_chars_no_alias (v alias : string) :
  Str.all version_char v = true ->
  stops version_char alias -> alias <> EmptyString ->
  String.eqb v alias = false.
Proof.
  intros Hv Ha Hne. apply String.eqb_neq. intros ->.
  destruct alias as [|c alias]; [congruence|].
  cbn [Str.all] in Hv. apply andb_prop in Hv as [Hc _].
  unfold stops in Ha. congruence.
Qed.

(** X9: a version filter made of digits and dots, such as [MAJOR.MINOR],
    accepts exactly the versions equal to it and those that start with it
    followed by a dot. *)
Theorem X9_version_filter_prefix (v ver : string) :
  Str.all version_char v = true ->
  version_case (Some v) ver
  = Ok (String.eqb ver v || Str.prefix (v ++ ".") ver).
Proof.
  intros Hv. unfold version_case.
  rewrite (version_chars_no_alias v "latest-release" Hv) by (reflexivity || discriminate).
  rewrite (version_chars_no_alias v "latest-stable" Hv) by (reflexivity || discriminate).
  rewrite (version_chars_no_alias v "rapid" Hv) by (reflexivity || discriminate).
  replace (v ++ ".%") with ((v ++ ".") ++ "%").
  - rewrite like_prefix; [reflexivity|].
    clear ver. induction v as [|c v IH]; [reflexivity|].
    cbn [Str.all] in Hv. apply andb_prop in Hv as [Hc Hv].
    rewrite StrFacts.append_cons. cbn [Str.all]. now rewrite Hc, IH.
  - clear. induction v as [|c v IH]; [reflexivity|].
    now rewrite !StrFacts.append_cons, IH.
Qed.

Lemma X9_version_filter_prefix_witness :
  version_case (Some "4.4") "4.4.29"
  = Ok (String.eqb "4.4.29" "4.4" || Str.prefix ("4.4" ++ ".") "4.4.29").
Proof. apply (X9_version_filter_prefix "4.4" "4.4.29"). reflexivity. Defined.

(** ** Catalog import *)

Lemma rowids_nil {A} (id : A -> Z) : rowids id [].
Proof. reflexivity. Qed.

Lemma rowids_snoc {A} (id : A -> Z) (table : list A) (row : A) :
  rowids id table -> id row = next_rowid table -> rowids id (table ++ [row])%list.
Proof.
  unfold rowids, next_rowid. intros H Hrow.
  rewrite map_app, length_app, H. cbn [map List.length].
  rewrite Nat.add_1_r, seq_S, map_app. cbn [map]. f_equal. f_equal.
  rewrite Hrow. lia.
Qed.

Lemma rowids_in {A} (id : A -> Z) (table : list A) (k : Z) :
  rowids id table -> 1 <= k <= Z.of_nat (List.length table) ->
  exists x, In x table /\ id x = k.
Proof.
  unfold rowids. intros H Hk.
  assert (Hin : In k (map id table)).
  { rewrite H. apply in_map_iff. exists (Z.to_nat k). split; [lia|].
    apply in_seq. lia. }
  apply in_map_iff in Hin as (x & Hx & Hin). now exists x.
Qed.

Lemma rowids_NoDup {A} (id : A -> Z) (table : list A) :
  rowids id table -> List.NoDup (map id table).
Proof.
  unfold rowids. intros ->.
  apply Finite.Injective_map_NoDup; [|apply seq_NoDup].
  intros x y. apply Nat2Z.inj.
Qed.

Lemma import_components_shape dl_id fields : forall table table',
  import_components dl_id fields table = Ok table' ->
  exists new, table' = (table ++ new)%list
              /\ Forall (fun c => cr_download_id c = dl_id) new
              /\ (rowids cr_component_id table -> rowids cr_component_id table').
Proof.
  induction fields as [|[key data] rest IH]; intros table table'.
  - cbn [import_components]. intros H. injection H as <-.
    exists []. rewrite app_nil_r. auto.
  - cbn [import_components].
    destruct (negb (json_contains "url" data)); [apply IH|].
    destruct (existsb _ table); [discriminate|].
    intros H. apply IH in H as (new & -> & Hnew & Hids).
    exists (mkComponentRow (next_rowid table) key dl_id data :: new).
    split; [now rewrite <- app_assoc|]. split.
    + constructor; [reflexivity | exact Hnew].
    + intros Ht. apply Hids. now apply rowids_snoc.
Qed.

Lemma import_download_shape vid cat missing dl cat' missing' :
  import_download vid (cat, missing) dl = Ok (cat', missing') ->
  mdl_versions cat' = mdl_versions cat
  /\ (exists row, mdl_downloads cat' = (mdl_downloads cat ++ [row])%list
                  /\ dr_download_id row = next_rowid (mdl_downloads cat)
                  /\ dr_version_id row = vid
                  /\ exists t, dr_target row = normalize_target t)
  /\ import_components (next_rowid (mdl_downloads cat)) dl (mdl_components cat)
     = Ok (mdl_components cat').
Proof.
  unfold import_download.
  destruct (default (JStr "null") (dict_get "target" dl)) as [t|d]; [|discriminate].
  unfold mbind, res_bind.
  destruct (dict_item "edition" dl); [|discriminate].
  destruct (dict_item "archive" dl) as [archive|]; [|discriminate].
  destruct (json_item "url" archive); [|discriminate].
  destruct (bind_text _); [|discriminate].
  destruct (bind_text _); [|discriminate].
  destruct (bind_text _); [|discriminate].
  match goal with |- context [match ?x with Ok _ => _ | Raise _ => _ end] =>
    destruct x; [|discriminate] end.
  destruct (import_components _ _ _) as [comps|] eqn:E; [|discriminate].
  intros H. injection H as <- _. cbn [mdl_versions mdl_downloads mdl_components].
  split; [reflexivity|]. split; [|reflexivity].
  eexists. split; [reflexivity|]. cbn. repeat split. now exists t.
Qed.

Lemma Forall_le_more {A} (f : A -> Z) (n m : nat) (l : list A) :
  (n <= m)%nat -> Forall (fun x => 1 <= f x <= Z.of_nat n) l ->
  Forall (fun x => 1 <= f x <= Z.of_nat m) l.
Proof.
  intros Hnm H. eapply Forall_impl; [exact H|]. intros x Hx. cbv beta in *. lia.
Qed.

Lemma import_download_inv vid cat missing dl cat' missing' :
  1 <= vid <= Z.of_nat (List.length (mdl_versions cat)) ->
  catalog_inv cat ->
  import_download vid (cat, missing) dl = Ok (cat', missing') ->
  catalog_inv cat'.
Proof.
  intros Hvid (Iv & Id & Ic & Rd & Rc & Nt) H.
  apply import_download_shape in H
    as (Ev & (row & Ed & Hid & Hrv & Hrt) & Hcomp).
  apply import_components_shape in Hcomp as (new & Ec & Hnew & Hids).
  unfold catalog_inv. rewrite Ev, Ed, Ec, length_app. cbn [List.length].
  repeat split.
  - exact Iv.
  - now apply rowids_snoc.
  - rewrite <- Ec. now apply Hids.
  - apply Forall_app. split; [exact Rd|]. constructor; [|constructor].
    now rewrite Hrv.
  - apply Forall_app. split.
    + eapply Forall_le_more; [|exact Rc]. lia.
    + eapply Forall_impl; [exact Hnew|]. intros c Hc. cbv beta in *.
      rewrite Hc. unfold next_rowid. lia.
  - apply Forall_app. split; [exact Nt|]. now constructor.
Qed.

Lemma import_downloads_inv vid dls : forall cat missing cat' missing',
  1 <= vid <= Z.of_nat (List.length (mdl_versions cat)) ->
  catalog_inv cat ->
  import_downloads vid (cat, missing) dls = Ok (cat', missing') ->
  catalog_inv cat' /\ mdl_versions cat' = mdl_versions cat.
Proof.
  induction dls as [|dl dls IH]; intros cat missing cat' missing' Hvid Hinv.
  - cbn [import_downloads]. intros H. injection H as <- _. now split.
  - cbn [import_downloads]. unfold mbind, res_bind.
    destruct (import_download vid (cat, missing) dl) as [[cat1 m1]|] eqn:E;
      [|discriminate].
    intros H.
    pose proof (import_download_inv _ _ _ _ _ _ Hvid Hinv E) as Hinv1.
    apply import_download_shape in E as (Ev & _).
    apply IH in H as [H1 H2]; [|now rewrite Ev | exact Hinv1].
    split; [exact H1 | congruence].
Qed.

Lemma import_versions_inv vers : forall cat m cat' m',
  catalog_inv cat ->
  import_versions (cat, m) vers = Ok (cat', m') ->
  catalog_inv cat'
  /\ mdl_versions cat'
     = (mdl_versions cat
        ++ imap (fun i => version_row_of (List.length (mdl_versions cat) + i))
                vers)%list.
Proof.
  induction vers as [|ver rest IH]; intros cat m cat' m' Hinv.
  - cbn [import_versions]. intros H. injection H as <- _.
    split; [exact Hinv | now rewrite app_nil_r].
  - cbn [import_versions]. unfold mbind, res_bind.
    destruct (import_downloads _ _ _) as [[cat2 m2]|] eqn:E; [|discriminate].
    intros H.
    destruct Hinv as (Iv & Id & Ic & Rd & Rc & Nt).
    apply import_downloads_inv in E as [Hinv2 Ev2].
    + apply IH in H as [H1 H2]; [|exact Hinv2].
      split; [exact H1|]. rewrite H2, Ev2. cbn [mdl_versions].
      rewrite length_app, <- app_assoc. cbn [List.length app imap].
      f_equal. f_equal.
      * unfold version_row_of, next_rowid. now rewrite Nat.add_0_r.
      * apply imap_ext. intros i x _. cbn. f_equal. lia.
    + cbn [mdl_versions]. rewrite length_app. cbn [List.length].
      unfold next_rowid. lia.
    + unfold catalog_inv. cbn [mdl_versions mdl_downloads mdl_components].
      rewrite length_app. cbn [List.length]. repeat split; auto.
      * now apply rowids_snoc.
      * eapply Forall_le_more; [|exact Rd]. lia.
Qed.

Lemma import_ok_inv validate old data :
  io_result (_import_json_data validate old data) = Ok () ->
  catalog_inv (io_catalog (_import_json_data validate old data))
  /\ mdl_versions (io_catalog (_import_json_data validate old data))
     = imap version_row_of data.
Proof.
  unfold _import_json_data.
  destruct (import_versions (empty_catalog, None) data) as [[cat m]|] eqn:E;
    [|discriminate].
  assert (H0 : catalog_inv empty_catalog).
  { unfold catalog_inv, empty_catalog. cbn. repeat split; constructor. }
  apply import_versions_inv in E as [H1 H2]; [|exact H0].
  destruct m as [missing|]; [|discriminate].
  destruct (bool_decide _); cbn [io_result io_catalog]; intros _;
    (split; [exact H1 | exact H2]).
Qed.

(** X10: after a successful import the primary keys of the three tables
    are distinct, every download row refers to a version row and every
    component row refers to a download row. *)
Theorem X10_import_referential_integrity (validate : bool) (old : Catalog)
    (data : list VersionEntry) :
  let cat := io_catalog (_import_json_data validate old data) in
  io_result (_import_json_data validate old data) = Ok () ->
  List.NoDup (map vr_version_id (mdl_versions cat))
  /\ List.NoDup (map dr_download_id (mdl_downloads cat))
  /\ List.NoDup (map cr_component_id (mdl_components cat))
  /\ (forall d, In d (mdl_downloads cat) ->
        exists v, In v (mdl_versions cat)
                  /\ vr_version_id v = dr_version_id d)
  /\ (forall c, In c (mdl_components cat) ->
        exists d, In d (mdl_downloads cat)
                  /\ dr_download_id d = cr_download_id c).
Proof.
  intros cat H. destruct (import_ok_inv validate old data H)
    as [(Iv & Id & Ic & Rd & Rc & _) _].
  fold cat in Iv, Id, Ic, Rd, Rc.
  split; [now apply rowids_NoDup|]. split; [now apply rowids_NoDup|].
  split; [now apply rowids_NoDup|]. split.
  - intros d Hd. apply (rowids_in _ _ _ Iv).
    rewrite Forall_forall in Rd. apply Rd. now apply list_elem_of_In.
  - intros c Hc. apply (rowids_in _ _ _ Id).
    rewrite Forall_forall in Rc. apply Rc. now apply list_elem_of_In.
Qed.

Lemma X10_import_referential_integrity_witness :
  List.NoDup (map cr_component_id (mdl_components example_catalog_three)).
Proof.
  apply (X10_import_referential_integrity false empty_catalog
           [ mkVersionEntry "6.0.6" "abc" "2023-05-10" [example_download "macos"];
             mkVersionEntry "7.0.0-rc1" "fed" "2023-06-01" [example_download "macos"];
             mkVersionEntry "5.0.5" "def" "2022-01-01" [example_download "macos"] ]).
  reflexivity.
Defined.

(** X11: after a successful import the version table holds one row per
    entry of the manifest, in the manifest's order, with ids 1, 2, ... and
    the entry's date, version and githash. *)
Theorem X11_import_versions_round_trip (validate : bool) (old : Catalog)
    (data : list VersionEntry) :
  io_result (_import_json_data validate old data) = Ok () ->
  mdl_versions (io_catalog (_import_json_data validate old data))
  = imap version_row_of data.
Proof. intros H. now apply import_ok_inv. Qed.

Lemma X11_import_versions_round_trip_witness :
  mdl_versions (io_catalog (_import_json_data false empty_catalog
                              example_manifest))
  = imap version_row_of example_manifest.
Proof.
  apply (X11_import_versions_round_trip false empty_catalog example_manifest).
  reflexivity.
Defined.

(** X12: whatever the import writes to the error log is the set of unknown
    targets of the last version entry of the manifest alone. *)
Theorem X12_import_reports_last_entry (validate : bool) (old : Catalog)
    (data : list VersionEntry) (missing : gset string) :
  io_reported (_import_json_data validate old data) = Some missing ->
  exists last_ver, List.last data last_ver = last_ver
                   /\ In last_ver data
                   /\ missing = unknown_targets (ve_downloads last_ver).
Proof. apply import_reports_last_version_only. Qed.

Lemma X12_import_reports_last_entry_witness :
  exists last_ver, List.last (rev example_manifest) last_ver = last_ver
                   /\ In last_ver (rev example_manifest)
                   /\ {[ "foo" ]} = unknown_targets (ve_downloads last_ver).
Proof.
  apply (X12_import_reports_last_entry false empty_catalog
           (rev example_manifest) {[ "foo" ]}).
  vm_compute. reflexivity.
Defined.

Lemma drop_last_char_length (s : string) :
  String.length (drop_last_char s) = pred (String.length s).
Proof.
  induction s as [|c s IH]; [reflexivity|].
  destruct s as [|d s]; [reflexivity|].
  change (drop_last_char (String c (String d s)))
    with (String c (drop_last_char (String d s))).
  cbn [String.length] in *. now rewrite IH.
Qed.

(** A normalized target is never a six-character name that starts with
    [rhel]. *)
Lemma normalize_target_not_minor (t : string) :
  Str.prefix "rhel" (normalize_target t)
  && (String.length (normalize_target t) =? 6)%nat = false.
Proof.
  unfold normalize_target.
  destruct (Str.prefix "rhel" t && (String.length t =? 6)%nat) eqn:E;
    [|exact E].
  apply andb_prop in E as [_ E]. apply Nat.eqb_eq in E.
  rewrite drop_last_char_length, E. apply andb_false_r.
Qed.

Lemma where_rows_none f rows :
  (forall r, In r rows -> f r = Ok false) -> where_rows f rows = Ok [].
Proof.
  induction rows as [|x rows IH]; intros H; [reflexivity|].
  cbn [where_rows]. unfold mbind, res_bind.
  rewrite (H x) by now left. rewrite IH; [reflexivity|].
  intros r Hr. apply H. now right.
Qed.

Lemma joined_rows_target (cat : Catalog) (r : DownloadableComponent) :
  In r (joined_rows cat) ->
  exists d, In d (mdl_downloads cat) /\ dc_target r = dr_target d.
Proof.
  unfold joined_rows. intros H. apply list_elem_of_In in H.
  apply list_elem_of_bind in H as (c & H & _).
  apply list_elem_of_bind in H as (d & H & Hd).
  apply list_elem_of_bind in H as (v & H & _).
  apply list_elem_of_singleton in H. subst r.
  apply list_elem_of_filter in Hd as [_ Hd].
  exists d. split; [now apply list_elem_of_In | reflexivity].
Qed.

(** X13: the import stores RHEL targets by major version only, so on an
    imported catalog a six-character target that starts with [rhel], such
    as [rhel80], matches no row: the query is empty and resolving a
    published build fails with a lookup miss. *)
Theorem X13_minor_rhel_target_never_resolves (validate : bool) (old : Catalog)
    (data : list VersionEntry)
    (version target arch edition component : string) :
  let cat := io_catalog (_import_json_data validate old data) in
  io_result (_import_json_data validate old data) = Ok () ->
  Str.prefix "rhel" target = true -> String.length target = 6%nat ->
  (forall v a e c, iter_available cat v (Some target) a e c = Ok [])
  /\ _published_build_url cat version target arch edition component
     = Raise ValueError.
Proof.
  intros cat H Hp Hl.
  destruct (import_ok_inv validate old data H) as [(_ & _ & _ & _ & _ & Nt) _].
  fold cat in Nt.
  assert (Hq : forall v a e c, iter_available cat v (Some target) a e c = Ok []).
  { intros v a e c. unfold iter_available.
    rewrite where_rows_none; [reflexivity|].
    intros r Hr. apply joined_rows_target in Hr as (d & Hd & Ht).
    rewrite Forall_forall in Nt.
    destruct (Nt d (proj2 (list_elem_of_In _ _) Hd)) as (t0 & Ht0).
    replace (Sql.matches (Some target) (dc_target r)) with false.
    - now rewrite andb_false_r.
    - symmetry. unfold Sql.matches. apply String.eqb_neq. intros E.
      pose proof (normalize_target_not_minor t0) as Hn.
      rewrite <- Ht0, <- Ht, E, Hp, Hl in Hn. discriminate. }
  split; [exact Hq|].
  apply published_miss. unfold lookup_miss. apply Hq.
Qed.

Lemma X13_minor_rhel_target_never_resolves_witness :
  _published_build_url
    (io_catalog (_import_json_data false empty_catalog (rev example_manifest)))
    "6.0.5" "rhel80" "x86_64" "enterprise" "archive"
  = Raise ValueError.
Proof.
  apply (X13_minor_rhel_target_never_resolves false empty_catalog
           (rev example_manifest) "6.0.5" "rhel80" "x86_64" "enterprise"
           "archive"); reflexivity.
Defined.

(** ** More on the glob matcher *)

Section GlobMore.

Variable fnmatch : string -> string -> bool.

Lemma glob_match_extend (pattern path more : list string) :
  glob_match fnmatch pattern path = true ->
  glob_match fnmatch pattern (path ++ more)%list = true.
Proof.
  revert path. induction pattern as [|h pt IH]; intros path; [reflexivity|].
  destruct path as [|q qt]; [discriminate|].
  cbn [glob_match app]. destruct (String.eqb h "**").
  - rewrite !existsb_exists. intros (i & Hi & Hm).
    apply in_seq in Hi. exists i. split.
    + apply in_seq. cbn [List.length] in *. rewrite length_app. lia.
    + change (q :: qt ++ more)%list with ((q :: qt) ++ more)%list.
      rewrite drop_app_le by (cbn [List.length] in *; lia).
      now apply IH.
  - intros H. apply andb_prop in H as [H1 H2]. rewrite H1. cbn [andb].
    now apply IH.
Qed.

Lemma relative_app (p q : list string) :
  relative p -> relative q -> relative (p ++ q)%list.
Proof. unfold relative. intros Hp Hq. apply Forall_app. now split. Qed.

End GlobMore.

(** X14: a pattern is matched against the leading segments of a path: once
    it matches a relative path it matches every path that extends it with
    further segments. *)
Theorem X14_test_pattern_matches_extensions
    (fnmatch : string -> string -> bool) (path more pattern : list string) :
  relative path -> relative more -> relative pattern ->
  _test_pattern fnmatch path (Some pattern) = Some true ->
  _test_pattern fnmatch (path ++ more)%list (Some pattern) = Some true.
Proof.
  intros Hp Hm Hpat.
  rewrite !test_pattern_glob_match
    by (try apply relative_app; try apply PathFacts.relative_tail; assumption).
  intros H. injection H as H. f_equal. now apply glob_match_extend.
Qed.

Lemma X14_test_pattern_matches_extensions_witness :
  _test_pattern Fnmatch.fnmatch (["bin"] ++ ["sub"; "mongod"])%list
    (Some ["bin"])
  = Some true.
Proof.
  apply (X14_test_pattern_matches_extensions Fnmatch.fnmatch ["bin"]
           ["sub"; "mongod"] ["bin"]);
    first [reflexivity | repeat constructor].
Defined.

(** ** Filename patterns without wildcards *)

Lemma tokenize_literal (fuel : nat) (pat : string) :
  literal_segment pat = true -> (String.length pat < fuel)%nat ->
  Fnmatch.tokenize fuel pat
  = map Fnmatch.Lit (list_ascii_of_string pat).
Proof.
  revert fuel. induction pat as [|c pat IH]; intros fuel Hl Hf.
  - destruct fuel; reflexivity.
  - destruct fuel as [|fuel]; [cbn in Hf; lia|].
    cbn [literal_segment Str.all] in Hl. apply andb_prop in Hl as [Hc Hl].
    unfold literal_char in Hc.
    apply andb_prop in Hc as [Hc H3]. apply andb_prop in Hc as [H1 H2].
    apply negb_true_iff in H1, H2, H3.
    cbn [Fnmatch.tokenize list_ascii_of_string map]. rewrite H1, H2, H3.
    f_equal. apply IH; [exact Hl | cbn in Hf; lia].
Qed.

Lemma match_literal (lit name : string) :
  Fnmatch.match_tokens (map Fnmatch.Lit (list_ascii_of_string lit)) name
  = String.eqb lit name.
Proof.
  revert name. induction lit as [|c lit IH]; intros name.
  - destruct name; reflexivity.
  - cbn [list_ascii_of_string map Fnmatch.match_tokens].
    destruct name as [|d name]; [reflexivity|].
    cbn [String.eqb]. rewrite IH.
    destruct (Ascii.eqb c d); reflexivity.
Qed.

(** A pattern without [*], [?] and [[] matches its own text only. *)
Lemma fnmatch_literal (name pat : string) :
  literal_segment pat = true ->
  Fnmatch.fnmatch name pat = String.eqb pat name.
Proof.
  intros H. unfold Fnmatch.fnmatch.
  rewrite tokenize_literal by (try exact H; lia). apply match_literal.
Qed.

Lemma literal_not_double_star (seg : string) :
  literal_segment seg = true -> String.eqb seg "**" = false.
Proof.
  intros H. apply String.eqb_neq. intros ->. discriminate.
Qed.

Lemma glob_match_literal (pattern path : list string) :
  Forall (fun seg => literal_segment seg = true) pattern ->
  glob_match Fnmatch.fnmatch pattern path = parts_prefix pattern path.
Proof.
  intros H. revert path. induction H as [|h pt Hh Hpt IH]; intros path.
  - reflexivity.
  - destruct path as [|q qt]; [reflexivity|].
    cbn [glob_match parts_prefix].
    now rewrite (literal_not_double_star h Hh), (fnmatch_literal q h Hh), IH.
Qed.

(** X15: a pattern whose segments hold no [*], [?] or [[] matches exactly
    the relative paths that start with those segments. *)
Theorem X15_literal_pattern_is_prefix_test (path pattern : list string) :
  relative path -> relative pattern ->
  Forall (fun seg => literal_segment seg = true) pattern ->
  _test_pattern Fnmatch.fnmatch path (Some pattern)
  = Some (parts_prefix pattern path).
Proof.
  intros Hp Hpat Hl.
  rewrite test_pattern_glob_match
    by (try apply PathFacts.relative_tail; assumption).
  now rewrite glob_match_literal.
Qed.

Lemma X15_literal_pattern_is_prefix_test_witness :
  _test_pattern Fnmatch.fnmatch ["bin"; "mongod"] (Some ["bin"])
  = Some (parts_prefix ["bin"] ["bin"; "mongod"]).
Proof.
  apply (X15_literal_pattern_is_prefix_test ["bin"; "mongod"] ["bin"]);
    repeat constructor.
Defined.

(** ** Expanding an archive *)

Lemma any_lazy_total {A} (f : A -> option bool) (l : list A) :
  (forall x, exists b, f x = Some b) -> exists b, any_lazy f l = Some b.
Proof.
  intros H. induction l as [|x l IH]; [now exists false|].
  cbn [any_lazy]. destruct (H x) as [[|] ->]; [now exists true | exact IH].
Qed.

(** With a pattern read from a string the matcher gives a verdict on every
    path, relative or not. *)
Lemma test_pattern_fuel_total (fnmatch : string -> string -> bool)
    (pattern : list string) :
  relative (tail pattern) ->
  forall (fuel : nat) (path : PurePath),
    (List.length pattern < fuel)%nat ->
    exists b, _test_pattern_fuel fnmatch fuel path (Some pattern) = Some b.
Proof.
  induction pattern as [|h pt IH]; intros Hpt fuel path Hfuel.
  - destruct fuel; [simpl in Hfuel; lia | now exists true].
  - destruct fuel as [|fuel]; [simpl in Hfuel; lia|].
    simpl in Hpt, Hfuel.
    assert (IH' : forall p, exists b,
              _test_pattern_fuel fnmatch fuel p (Some (_pathjoin pt)) = Some b).
    { intros p. rewrite (PathFacts.pathjoin_relative pt Hpt).
      apply IH; [now apply PathFacts.relative_tail | lia]. }
    cbn [_test_pattern_fuel].
    destruct path as [|q qt]; [now exists false|].
    destruct (String.eqb h "**").
    + apply any_lazy_total. intros t. apply IH'.
    + destruct (fnmatch q h); cbn [negb]; [apply IH' | now exists false].
Qed.

Lemma pattern_path_tail (pattern : option string) :
  relative (tail (default [] (pattern_path pattern))).
Proof.
  destruct pattern as [[|c s]|]; cbn [pattern_path default tail];
    try constructor.
  apply PathFacts.parse_tail_relative.
Qed.

Lemma test_pattern_verdict (path : PurePath) (pattern : option string) :
  exists b, _test_pattern Fnmatch.fnmatch path (pattern_path pattern) = Some b.
Proof.
  pose proof (pattern_path_tail pattern) as H.
  unfold _test_pattern. destruct (pattern_path pattern) as [pat|].
  - apply test_pattern_fuel_total; [exact H | cbn; lia].
  - now exists true.
Qed.

(** In test mode a member is counted and nothing else happens. *)
Lemma maybe_extract_member_io_test out relpath pattern strip is_dir opener
    modebits fs :
  _maybe_extract_member_io out relpath pattern strip is_dir opener modebits
    true fs
  = (Ok (if member_passes pattern strip relpath then 1 else 0), fs).
Proof.
  unfold _maybe_extract_member_io, member_passes.
  destruct (Z.of_nat (List.length relpath) <=? strip); [reflexivity|].
  destruct (test_pattern_verdict relpath pattern) as [[|] ->]; reflexivity.
Qed.

Lemma io_bind_ok {A B} (m : io A) (k : A -> io B) fs b fs' :
  io_bind m k fs = (Ok b, fs') ->
  exists a fs1, m fs = (Ok a, fs1) /\ k a fs1 = (Ok b, fs').
Proof.
  unfold io_bind. destruct (m fs) as [[a|e] fs1]; [|discriminate].
  intros H. now exists a, fs1.
Qed.

(** A member that is extracted without an exception is counted as in test
    mode. *)
Lemma maybe_extract_member_io_count out relpath pattern strip is_dir opener
    modebits test fs n fs' :
  _maybe_extract_member_io out relpath pattern strip is_dir opener modebits
    test fs = (Ok n, fs') ->
  n = if member_passes pattern strip relpath then 1 else 0.
Proof.
  unfold _maybe_extract_member_io, member_passes.
  unfold io_ret, io_lift.
  destruct (Z.of_nat (List.length relpath) <=? strip);
    [intros H; cbn [negb andb]; congruence|].
  destruct (_test_pattern _ _ _) as [[|]|]; cbn [negb andb];
    try (intros H; congruence).
  destruct test; [intros H; congruence|].
  destruct is_dir.
  - intros H. apply io_bind_ok in H as (a1 & fs1 & _ & H).
    unfold io_ret in H. congruence.
  - intros H. apply io_bind_ok in H as (a1 & fs1 & _ & H).
    apply io_bind_ok in H as (a2 & fs2 & _ & H).
    apply io_bind_ok in H as (a3 & fs3 & _ & H).
    apply io_bind_ok in H as (a4 & fs4 & _ & H).
    apply io_bind_ok in H as (a5 & fs5 & _ & H).
    unfold io_ret in H. congruence.
Qed.

Lemma count_of_cons {A} (f : A -> bool) (x : A) (l : list A) :
  count_of f (x :: l) = (if f x then 1 else 0) + count_of f l.
Proof.
  unfold count_of. cbn [List.filter]. destruct (f x); cbn [List.length]; lia.
Qed.

Lemma expand_tgz_test members dest pattern strip fs : forall n0,
  _expand_tgz members dest pattern strip true n0 fs
  = (Ok (n0 + count_of (fun mem => member_passes pattern strip
                                     (parse (ti_name mem))) members), fs).
Proof.
  induction members as [|mem rest IH]; intros n0.
  - cbn [_expand_tgz]. unfold io_ret, count_of. cbn. now rewrite Z.add_0_r.
  - cbn [_expand_tgz]. unfold io_bind.
    rewrite maybe_extract_member_io_test, IH, count_of_cons.
    now rewrite Z.add_assoc.
Qed.

Lemma expand_tgz_count members dest pattern strip test : forall n0 fs n fs',
  _expand_tgz members dest pattern strip test n0 fs = (Ok n, fs') ->
  n = n0 + count_of (fun mem => member_passes pattern strip
                                  (parse (ti_name mem))) members.
Proof.
  induction members as [|mem rest IH]; intros n0 fs n fs'.
  - cbn [_expand_tgz]. unfold io_ret. intros H.
    assert (n = n0) as -> by congruence.
    unfold count_of. cbn. lia.
  - cbn [_expand_tgz]. intros H.
    apply io_bind_ok in H as (k & fs1 & Hk & H).
    apply maybe_extract_member_io_count in Hk. apply IH in H.
    rewrite count_of_cons. lia.
Qed.

Lemma expand_zip_test items dest pattern strip fs : forall n0,
  _expand_zip items dest pattern strip true n0 fs
  = (Ok (n0 + count_of (fun item => member_passes pattern strip
                                      (parse (zi_filename item))) items), fs).
Proof.
  induction items as [|item rest IH]; intros n0.
  - cbn [_expand_zip]. unfold io_ret, count_of. cbn. now rewrite Z.add_0_r.
  - cbn [_expand_zip]. unfold io_bind.
    rewrite maybe_extract_member_io_test, IH, count_of_cons.
    now rewrite Z.add_assoc.
Qed.

Lemma expand_zip_count items dest pattern strip test : forall n0 fs n fs',
  _expand_zip items dest pattern strip test n0 fs = (Ok n, fs') ->
  n = n0 + count_of (fun item => member_passes pattern strip
                                   (parse (zi_filename item))) items.
Proof.
  induction items as [|item rest IH]; intros n0 fs n fs'.
  - cbn [_expand_zip]. unfold io_ret. intros H.
    assert (n = n0) as -> by congruence.
    unfold count_of. cbn. lia.
  - cbn [_expand_zip]. intros H.
    apply io_bind_ok in H as (k & fs1 & Hk & H).
    apply maybe_extract_member_io_count in Hk. apply IH in H.
    rewrite count_of_cons. lia.
Qed.

(** X16: a dry run of an extraction never fails and never touches the file
    tree; it returns the number of members that pass the filters, and an
    extraction that ends without an exception returns the same number. *)
Theorem X16_dry_run_predicts_count (members : list TarInfo)
    (items : list ZipInfo) (dest : PurePath) (pattern : option string)
    (strip : Z) (fs : filesystem) (n : Z) (fs' : filesystem) :
  let tar_count :=
    count_of (fun mem => member_passes pattern strip (parse (ti_name mem)))
             members in
  let zip_count :=
    count_of (fun item => member_passes pattern strip
                            (parse (zi_filename item))) items in
  _expand_tgz members dest pattern strip true 0 fs = (Ok tar_count, fs)
  /\ _expand_zip items dest pattern strip true 0 fs = (Ok zip_count, fs)
  /\ (_expand_tgz members dest pattern strip false 0 fs = (Ok n, fs') ->
      n = tar_count)
  /\ (_expand_zip items dest pattern strip false 0 fs = (Ok n, fs') ->
      n = zip_count)
  /\ 0 <= tar_count <= Z.of_nat (List.length members).
Proof.
  intros tar_count zip_count.
  split; [apply expand_tgz_test|]. split; [apply expand_zip_test|].
  split; [intros H; now apply expand_tgz_count in H|].
  split; [intros H; now apply expand_zip_count in H|].
  unfold tar_count, count_of.
  pose proof (List.filter_length_le
                (fun mem => member_passes pattern strip (parse (ti_name mem)))
                members). lia.
Qed.

Lemma X16_dry_run_predicts_count_witness :
  _expand_tgz example_members ["/"; "dest"] (Some "mongodb/bin/**") 1 false 0
    example_fs
  = (Ok 1, <[ ["/"; "dest"; "bin"; "mongod"] := File "ELF" 511 ]>
             (<[ ["/"; "dest"; "bin"] := Dir ]> example_fs))
  /\ 1 = count_of (fun mem => member_passes (Some "mongodb/bin/**") 1
                                (parse (ti_name mem))) example_members.
Proof.
  assert (H : _expand_tgz example_members ["/"; "dest"] (Some "mongodb/bin/**")
                1 false 0 example_fs
              = (Ok 1, <[ ["/"; "dest"; "bin"; "mongod"] := File "ELF" 511 ]>
                         (<[ ["/"; "dest"; "bin"] := Dir ]> example_fs)))
    by (vm_compute; reflexivity).
  split; [exact H|].
  exact (proj1 (proj2 (proj2 (X16_dry_run_predicts_count example_members []
           ["/"; "dest"] (Some "mongodb/bin/**") 1 example_fs 1 _))) H).
Defined.

(** ** Making directories *)

Lemma node_at_None (fs : filesystem) (p : PurePath) :
  node_at fs p = None -> fs !! p = None.
Proof.
  unfold node_at. destruct p as [|seg [|seg' p]]; try discriminate; auto.
  destruct (is_root seg); [discriminate | auto].
Qed.

Lemma node_at_insert (fs : filesystem) (p : PurePath) (n : node) :
  node_at fs p <> Some Dir -> node_at (<[p := n]> fs) p = Some n.
Proof.
  intros H. rewrite (node_at_lookup fs _ p H). apply lookup_insert_eq.
Qed.

Lemma only_new_dirs_refl (fs : filesystem) : only_new_dirs fs fs.
Proof. split; [reflexivity|]. intros p n H1 H2. congruence. Qed.

Lemma only_new_dirs_trans (a b c : filesystem) :
  only_new_dirs a b -> only_new_dirs b c -> only_new_dirs a c.
Proof.
  intros [S1 N1] [S2 N2]. split; [now transitivity b|].
  intros p n Hc Ha. destruct (b !! p) as [m|] eqn:Hb.
  - pose proof (lookup_weaken _ _ _ _ Hb S2) as Hc'.
    unfold filesystem in *. rewrite Hc in Hc'. injection Hc' as ->.
    now apply (N1 p).
  - now apply (N2 p).
Qed.

Lemma mkdir_new_dir (fs fs' : filesystem) (p : PurePath) :
  mkdir fs p = Ok fs' ->
  only_new_dirs fs fs' /\ path_is_dir fs' p = true.
Proof.
  unfold mkdir. destruct (node_at fs p) as [n|] eqn:E; [discriminate|].
  destruct (node_at fs (parent p)) as [[|c m]|]; try discriminate.
  intros H. injection H as <-.
  pose proof (node_at_None _ _ E) as Hl. split.
  - split; [now apply insert_subseteq|].
    intros q n Hq Hn. unfold filesystem in *.
    destruct (decide (q = p)) as [->|Hne].
    + rewrite lookup_insert_eq in Hq. congruence.
    + rewrite lookup_insert_ne in Hq by congruence. congruence.
  - unfold path_is_dir. rewrite node_at_insert; [reflexivity|]. congruence.
Qed.

Lemma mkdir_raises (fs : filesystem) (p : PurePath) (e : exn) :
  mkdir fs p = Raise e ->
  e <> RecursionError /\ (e = FileExistsError -> path_exists fs p = true).
Proof.
  unfold mkdir, path_exists. destruct (node_at fs p) as [n|].
  - intros H. injection H as <-. split; [discriminate | reflexivity].
  - destruct (node_at fs (parent p)) as [[|c m]|]; try discriminate;
      intros H; injection H as <-; split; discriminate.
Qed.

Lemma parent_shorter (p : PurePath) :
  parent p <> p -> (List.length (parent p) < List.length p)%nat.
Proof.
  destruct p as [|a [|b p]]; cbn [parent].
  - congruence.
  - destruct (is_root a); [congruence | cbn; lia].
  - intros _. rewrite removelast_firstn_len, length_firstn. cbn. lia.
Qed.

Lemma mkdir_io_fuel_spec (fuel : nat) : forall (p : PurePath) (fs : filesystem),
  (List.length p < fuel)%nat ->
  fst (_mkdir_io_fuel fuel p fs) <> Raise RecursionError
  /\ only_new_dirs fs (snd (_mkdir_io_fuel fuel p fs))
  /\ (fst (_mkdir_io_fuel fuel p fs) = Ok () ->
      path_is_dir (snd (_mkdir_io_fuel fuel p fs)) p = true
      \/ path_is_file fs p = true).
Proof.
  induction fuel as [|fuel IH]; intros p fs Hf; [lia|].
  cbn [_mkdir_io_fuel].
  destruct (path_is_dir fs p) eqn:Ed.
  { cbn [fst snd]. split; [discriminate|].
    split; [apply only_new_dirs_refl | now left]. }
  unfold io_bind.
  set (step := if bool_decide (parent p = p) then io_ret ()
               else _mkdir_io_fuel fuel (parent p)).
  assert (Hstep : fst (step fs) <> Raise RecursionError
                  /\ only_new_dirs fs (snd (step fs))).
  { unfold step. destruct (bool_decide (parent p = p)) eqn:Eb.
    - cbn. split; [discriminate | apply only_new_dirs_refl].
    - apply bool_decide_eq_false in Eb. apply parent_shorter in Eb.
      destruct (IH (parent p) fs ltac:(lia)) as (H1 & H2 & _). now split. }
  destruct (step fs) as [[[]|e] fs1]; cbn [fst snd] in Hstep.
  - destruct Hstep as [_ Hnew].
    destruct (mkdir fs1 p) as [fs2|e] eqn:Em.
    + apply mkdir_new_dir in Em as [Hn2 Hd]. cbn [fst snd].
      split; [discriminate|].
      split; [now apply (only_new_dirs_trans fs fs1 fs2) | now left].
    + apply mkdir_raises in Em as [Hne Hex].
      destruct e; cbn [fst snd];
        try (split; [congruence | split; [exact Hnew | discriminate]]).
      split; [discriminate|]. split; [exact Hnew|]. intros _.
      specialize (Hex eq_refl). unfold path_exists in Hex.
      destruct (node_at fs1 p) as [[|c m]|] eqn:En; [| |discriminate].
      * left. unfold path_is_dir. now rewrite En.
      * right. assert (Hl : fs1 !! p = Some (File c m)).
        { rewrite <- (node_at_lookup fs1 fs1 p); [exact En | congruence]. }
        destruct Hnew as [Hsub Honly].
        destruct (fs !! p) as [n|] eqn:Efs.
        -- pose proof (lookup_weaken _ _ _ _ Efs Hsub) as Hw.
           assert (Hn : node_at fs p = Some (File c m)).
           { rewrite (node_at_lookup fs1 fs p) by congruence.
             unfold filesystem in *. rewrite Hl in Hw. injection Hw as <-.
             exact Efs. }
           unfold path_is_file. now rewrite Hn.
        -- specialize (Honly p _ Hl Efs). discriminate.
  - destruct Hstep as [Hne Hnew]. cbn [fst snd].
    split; [exact Hne|]. split; [exact Hnew | discriminate].
Qed.

(** X17: [_mkdir] never loses or alters an entry and adds directories
    only; when it returns normally the path is a directory or was a file
    before the call (a file in the way is passed over in silence); the
    recursion always ends. *)
Theorem X17_mkdir_adds_directories_only (p : PurePath) (fs : filesystem) :
  fst (_mkdir_io p fs) <> Raise RecursionError
  /\ only_new_dirs fs (snd (_mkdir_io p fs))
  /\ (fst (_mkdir_io p fs) = Ok () ->
      path_is_dir (snd (_mkdir_io p fs)) p = true \/ path_is_file fs p = true).
Proof. unfold _mkdir_io. apply mkdir_io_fuel_spec. lia. Qed.

(** ** Modes of extracted files *)

Lemma changed_files_refl (P : Z -> Prop) (fs : filesystem) :
  changed_files_have P fs fs.
Proof. intros p c m H. now left. Qed.

Lemma changed_files_trans (P : Z -> Prop) (a b c : filesystem) :
  changed_files_have P a b -> changed_files_have P b c ->
  changed_files_have P a c.
Proof.
  intros H1 H2 p content mode Hc.
  destruct (H2 p content mode Hc) as [Hb|HP]; [|now right].
  now apply (H1 p content mode).
Qed.

Lemma only_new_dirs_files (P : Z -> Prop) (fs fs' : filesystem) :
  only_new_dirs fs fs' -> changed_files_have P fs fs'.
Proof.
  intros [Hsub Hnew] p c m H. left.
  destruct (fs !! p) as [n|] eqn:E.
  - pose proof (lookup_weaken _ _ _ _ E Hsub) as Hw.
    unfold filesystem in *. rewrite H in Hw. now injection Hw as <-.
  - specialize (Hnew p _ H E). discriminate.
Qed.

Lemma mkdir_io_files (P : Z -> Prop) (p : PurePath) (fs : filesystem) :
  changed_files_have P fs (snd (_mkdir_io p fs)).
Proof.
  apply only_new_dirs_files. unfold _mkdir_io.
  now destruct (mkdir_io_fuel_spec (S (List.length p)) p fs ltac:(lia))
    as (_ & H & _).
Qed.

Lemma changed_files_have_but (skip : PurePath) (P : Z -> Prop)
    (fs fs' : filesystem) :
  changed_files_have P fs fs' -> changed_files_but skip P fs fs'.
Proof. intros H p c m _ Hp. now apply (H p c m). Qed.

Lemma changed_files_but_trans (skip : PurePath) (P : Z -> Prop)
    (a b c : filesystem) :
  changed_files_have P a b -> changed_files_but skip P b c ->
  changed_files_but skip P a c.
Proof.
  intros H1 H2 p content mode Hne Hc.
  destruct (H2 p content mode Hne Hc) as [Hb|HP]; [|now right].
  now apply (H1 p content mode).
Qed.

Lemma write_file_shape (fs fs2 : filesystem) (p : PurePath) (content : string) :
  write_file fs p content = Ok fs2 ->
  node_at fs p <> Some Dir
  /\ exists mode0, fs2 = <[p := File content mode0]> fs.
Proof.
  intros Ew. split.
  - intros E. unfold write_file in Ew. rewrite E in Ew. discriminate.
  - unfold write_file in Ew. destruct (node_at fs p) as [[|c m]|].
    + congruence.
    + injection Ew as <-. now exists m.
    + destruct (node_at fs (parent p)) as [[|c m]|]; try discriminate.
      injection Ew as <-. now exists default_mode.
Qed.

(** The copy into [dest]: a complete copy ends with the mode set; one cut
    short changes the file at [dest] and nothing else. *)
Lemma copy_chmod_files (fs : filesystem) (dest : PurePath) (infile : Infile)
    (modebits : Z) :
  let after := (do _ <- io_step (fun fs => write_file fs dest (in_bytes infile));
                do _ <- io_lift (copy_end infile);
                do _ <- io_step (fun fs => chmod fs dest modebits);
                io_ret 1) fs in
  (is_ok (fst after) = true ->
   changed_files_have (fun m => m = modebits) fs (snd after))
  /\ changed_files_but dest (fun m => m = modebits) fs (snd after).
Proof.
  cbv zeta. unfold io_bind, io_step, io_ret, io_lift.
  destruct (write_file fs dest (in_bytes infile)) as [fs2|e] eqn:Ew.
  2:{ cbn [fst snd]. split; [discriminate|].
      apply changed_files_have_but, changed_files_refl. }
  apply write_file_shape in Ew as [Hnd [mode0 ->]].
  destruct (copy_end infile) as [[]|e].
  - unfold chmod. rewrite (node_at_insert fs dest _ Hnd). cbn [fst snd].
    assert (H : changed_files_have (fun m => m = modebits) fs
                  (<[dest := File (in_bytes infile) modebits]>
                     (<[dest := File (in_bytes infile) mode0]> fs))).
    { intros p c m H. unfold filesystem in *.
      destruct (decide (p = dest)) as [->|Hne].
      - rewrite lookup_insert_eq in H. right. congruence.
      - rewrite !lookup_insert_ne in H by congruence. now left. }
    split; [intros _; exact H | now apply changed_files_have_but].
  - cbn [fst snd]. split; [discriminate|].
    intros p c m Hne H. unfold filesystem in *.
    rewrite lookup_insert_ne in H by congruence. now left.
Qed.

Lemma maybe_extract_member_io_files out relpath pattern strip is_dir opener
    modebits test fs :
  let r := _maybe_extract_member_io out relpath pattern strip is_dir opener
             modebits test fs in
  (is_ok (fst r) = true ->
   changed_files_have (fun m => m = modebits) fs (snd r))
  /\ exists p, changed_files_but p (fun m => m = modebits) fs (snd r).
Proof.
  cbv zeta.
  assert (Hsame : forall (r : res Z),
            (is_ok r = true ->
             changed_files_have (fun m => m = modebits) fs fs)
            /\ exists p : PurePath,
                 changed_files_but p (fun m => m = modebits) fs fs).
  { intros r. split; [intros _; apply changed_files_refl|].
    exists []. apply changed_files_have_but, changed_files_refl. }
  unfold _maybe_extract_member_io.
  destruct (Z.of_nat (List.length relpath) <=? strip); [apply Hsame|].
  destruct (_test_pattern _ _ _) as [[|]|]; try apply Hsame.
  destruct test; [apply Hsame|].
  set (dest := join out (_pathjoin (slice_from relpath strip))).
  destruct is_dir.
  - unfold io_bind.
    pose proof (mkdir_io_files (fun m => m = modebits) dest fs) as H.
    destruct (_mkdir_io dest fs) as [[[]|e] fs1]; cbn [fst snd] in *;
      (split; [intros _; exact H|]);
      exists []; now apply changed_files_have_but.
  - destruct opener as [infile|e]; [|apply Hsame].
    pose proof (mkdir_io_files (fun m => m = modebits) (parent dest) fs) as H.
    pose proof (fun fs1 => copy_chmod_files fs1 dest infile modebits) as Hc.
    cbv zeta in Hc. unfold io_bind, io_lift in *.
    destruct (_mkdir_io (parent dest) fs) as [[[]|e] fs1]; cbn [fst snd] in H.
    + destruct (Hc fs1) as [Hok Hbut]. split.
      * intros Hr. apply (changed_files_trans _ fs fs1); [exact H|].
        now apply Hok.
      * exists dest. now apply (changed_files_but_trans _ _ fs fs1).
    + cbn [fst snd]. split; [discriminate|].
      exists []. now apply changed_files_have_but.
Qed.

Lemma changed_files_weaken (P Q : Z -> Prop) (fs fs' : filesystem) :
  (forall m, P m -> Q m) ->
  changed_files_have P fs fs' -> changed_files_have Q fs fs'.
Proof.
  intros HPQ H p c m Hp. destruct (H p c m Hp) as [?|?]; [now left|].
  right. now apply HPQ.
Qed.

Lemma changed_files_but_weaken (skip : PurePath) (P Q : Z -> Prop)
    (fs fs' : filesystem) :
  (forall m, P m -> Q m) ->
  changed_files_but skip P fs fs' -> changed_files_but skip Q fs fs'.
Proof.
  intros HPQ H p c m Hne Hp. destruct (H p c m Hne Hp) as [?|?]; [now left|].
  right. now apply HPQ.
Qed.

Lemma writable_lor (mode : Z) : writable (Z.lor mode 146).
Proof. unfold writable. rewrite !Z.lor_spec. cbn. now rewrite !orb_true_r. Qed.

Lemma writable_777 : writable 511.
Proof. repeat split. Qed.

(** One step of either loop: a member written with a writable mode,
    followed by a rest that keeps the property. *)
Lemma expand_step_files (modebits : Z) (step : res Z * filesystem)
    (rest : Z -> io Z) (fs : filesystem) :
  writable modebits ->
  ((is_ok (fst step) = true ->
    changed_files_have (fun m => m = modebits) fs (snd step))
   /\ exists p, changed_files_but p (fun m => m = modebits) fs (snd step)) ->
  (forall n fs1,
     (is_ok (fst (rest n fs1)) = true ->
      changed_files_have writable fs1 (snd (rest n fs1)))
     /\ exists p, changed_files_but p writable fs1 (snd (rest n fs1))) ->
  let r := match step with
           | (Ok n, fs1) => rest n fs1
           | (Raise e, fs1) => (Raise e, fs1)
           end in
  (is_ok (fst r) = true -> changed_files_have writable fs (snd r))
  /\ exists p, changed_files_but p writable fs (snd r).
Proof.
  intros Hw [Hok [p Hbut]] Hrest. cbv zeta.
  destruct step as [[n|e] fs1]; cbn [fst snd] in *.
  - specialize (Hok eq_refl).
    apply (changed_files_weaken _ writable) in Hok; [|now intros m ->].
    destruct (Hrest n fs1) as [Hr [q Hq]]. split.
    + intros H. apply (changed_files_trans _ fs fs1); [exact Hok | now apply Hr].
    + exists q. now apply (changed_files_but_trans _ _ fs fs1).
  - split; [discriminate|]. exists p.
    apply (changed_files_but_weaken _ _ writable) in Hbut; [exact Hbut|].
    now intros m ->.
Qed.

Lemma expand_tgz_files members dest pattern strip test : forall n0 fs,
  (is_ok (fst (_expand_tgz members dest pattern strip test n0 fs)) = true ->
   changed_files_have writable fs
     (snd (_expand_tgz members dest pattern strip test n0 fs)))
  /\ exists p, changed_files_but p writable fs
                 (snd (_expand_tgz members dest pattern strip test n0 fs)).
Proof.
  induction members as [|mem rest IH]; intros n0 fs.
  - cbn [_expand_tgz]. split; [intros _; apply changed_files_refl|].
    exists []. apply changed_files_have_but, changed_files_refl.
  - cbn [_expand_tgz]. unfold io_bind.
    apply (expand_step_files (Z.lor (ti_mode mem) 146)).
    + apply writable_lor.
    + apply maybe_extract_member_io_files.
    + intros n fs1. apply IH.
Qed.

Lemma expand_zip_files items dest pattern strip test : forall n0 fs,
  (is_ok (fst (_expand_zip items dest pattern strip test n0 fs)) = true ->
   changed_files_have writable fs
     (snd (_expand_zip items dest pattern strip test n0 fs)))
  /\ exists p, changed_files_but p writable fs
                 (snd (_expand_zip items dest pattern strip test n0 fs)).
Proof.
  induction items as [|item rest IH]; intros n0 fs.
  - cbn [_expand_zip]. split; [intros _; apply changed_files_refl|].
    exists []. apply changed_files_have_but, changed_files_refl.
  - cbn [_expand_zip]. unfold io_bind.
    apply (expand_step_files 511).
    + apply writable_777.
    + apply maybe_extract_member_io_files.
    + intros n fs1. apply IH.
Qed.

(** X18: an extraction that ends normally leaves every file it has written
    or replaced with the write bits for owner, group and others: a tar
    member's mode is or-ed with [0o222], a zip member gets [0o777].  One
    that stops at an exception leaves at most one file without them: the
    member whose copy was cut short keeps the bytes copied so far and the
    mode it was opened with, since [os.chmod] comes after the copy. *)
Theorem X18_extracted_files_are_writable (members : list TarInfo)
    (items : list ZipInfo) (dest : PurePath) (pattern : option string)
    (strip : Z) (test : bool) (n0 : Z) (fs : filesystem) :
  let tar := _expand_tgz members dest pattern strip test n0 fs in
  let zip := _expand_zip items dest pattern strip test n0 fs in
  (is_ok (fst tar) = true -> changed_files_have writable fs (snd tar))
  /\ (is_ok (fst zip) = true -> changed_files_have writable fs (snd zip))
  /\ (exists p, changed_files_but p writable fs (snd tar))
  /\ (exists p, changed_files_but p writable fs (snd zip))
  /\ _expand_zip example_items ["/"; "dest"] None 0 false 0 example_fs
     = (Raise BadZipFile,
        <[ ["/"; "dest"; "bin"; "mongos.exe"] := File "" default_mode ]>
          (<[ ["/"; "dest"; "bin"; "mongod.exe"] := File "MZ" 511 ]>
             (<[ ["/"; "dest"; "bin"] := Dir ]> example_fs)))
  /\ ~ writable default_mode.
Proof.
  cbv zeta.
  destruct (expand_tgz_files members dest pattern strip test n0 fs) as [T1 T2].
  destruct (expand_zip_files items dest pattern strip test n0 fs) as [Z1 Z2].
  split; [exact T1|]. split; [exact Z1|]. split; [exact T2|].
  split; [exact Z2|]. split.
  - vm_compute. reflexivity.
  - intros (_ & H & _). vm_compute in H. discriminate.
Qed.

(** ** The two readings of the extraction agree *)

Lemma mkdir_io_fuel_agrees (fuel : nat) : forall (p : PurePath) (fs : filesystem),
  match _mkdir_fuel fuel fs p with
  | Ok fs' => _mkdir_io_fuel fuel p fs = (Ok (), fs')
  | Raise e => fst (_mkdir_io_fuel fuel p fs) = Raise e
  end.
Proof.
  induction fuel as [|fuel IH]; intros p fs; [reflexivity|].
  cbn [_mkdir_fuel _mkdir_io_fuel].
  destruct (path_is_dir fs p); [reflexivity|].
  unfold io_bind, mbind, res_bind.
  destruct (bool_decide (parent p = p)).
  - unfold io_ret. destruct (mkdir fs p) as [fs2|e]; [reflexivity|].
    destruct e; reflexivity.
  - specialize (IH (parent p) fs).
    destruct (_mkdir_fuel fuel fs (parent p)) as [fs1|e].
    + rewrite IH. destruct (mkdir fs1 p) as [fs2|e]; [reflexivity|].
      destruct e; reflexivity.
    + destruct (_mkdir_io_fuel fuel (parent p) fs) as [[[]|e'] fs1];
        cbn [fst] in IH; [discriminate | exact IH].
Qed.

(** Where [_maybe_extract_member] delivers a count and a tree, the reading
    that keeps the tree at an exception delivers the same; where it raises,
    the other raises the same exception. *)
Lemma maybe_extract_member_agrees fs out relpath pattern strip is_dir opener
    modebits test :
  match _maybe_extract_member fs out relpath pattern strip is_dir opener
          modebits test with
  | Ok (n, fs') =>
      _maybe_extract_member_io out relpath pattern strip is_dir opener
        modebits test fs = (Ok n, fs')
  | Raise e =>
      fst (_maybe_extract_member_io out relpath pattern strip is_dir opener
             modebits test fs) = Raise e
  end.
Proof.
  unfold _maybe_extract_member, _maybe_extract_member_io.
  destruct (Z.of_nat (List.length relpath) <=? strip); [reflexivity|].
  destruct (_test_pattern _ _ _) as [[|]|]; try reflexivity.
  destruct test; [reflexivity|].
  set (dest := join out (_pathjoin (slice_from relpath strip))).
  unfold io_bind, io_lift, io_step, io_ret, mbind, res_bind.
  destruct is_dir.
  - pose proof (mkdir_io_fuel_agrees (S (List.length dest)) dest fs) as H.
    fold (_mkdir fs dest) in H. fold (_mkdir_io dest fs) in H.
    destruct (_mkdir fs dest) as [fs1|e].
    + now rewrite H.
    + destruct (_mkdir_io dest fs) as [[[]|e'] fs1]; cbn [fst] in *;
        [discriminate | congruence].
  - destruct opener as [infile|e]; [|reflexivity].
    pose proof (mkdir_io_fuel_agrees (S (List.length (parent dest)))
                  (parent dest) fs) as H.
    fold (_mkdir fs (parent dest)) in H. fold (_mkdir_io (parent dest) fs) in H.
    destruct (_mkdir fs (parent dest)) as [fs1|e].
    + rewrite H.
      destruct (write_file fs1 dest (in_bytes infile)) as [fs2|e];
        [|reflexivity].
      destruct (copy_end infile) as [[]|e]; [|reflexivity].
      destruct (chmod fs2 dest modebits) as [fs3|e]; reflexivity.
    + destruct (_mkdir_io (parent dest) fs) as [[[]|e'] fs1]; cbn [fst] in *;
        [discriminate | congruence].
Qed.

(** ** Extraction of one archive member *)

(** What a normal return of [_mkdir] leaves, and that its recursion ends. *)
Lemma mkdir_ok (fs : filesystem) (p : PurePath) :
  _mkdir fs p <> Raise RecursionError
  /\ forall fs', _mkdir fs p = Ok fs' ->
       only_new_dirs fs fs'
       /\ (path_is_dir fs' p = true \/ path_is_file fs p = true).
Proof.
  unfold _mkdir.
  pose proof (mkdir_io_fuel_agrees (S (List.length p)) p fs) as Ha.
  destruct (mkdir_io_fuel_spec (S (List.length p)) p fs ltac:(lia))
    as (Hne & Hn & Hd).
  destruct (_mkdir_fuel (S (List.length p)) fs p) as [fs1|e].
  - split; [discriminate|]. intros fs' E. injection E as <-.
    rewrite Ha in Hn, Hd. cbn [fst snd] in Hn, Hd.
    split; [exact Hn | now apply Hd].
  - split; [|discriminate]. rewrite Ha in Hne. congruence.
Qed.

(** The pattern a member is tested with: none when the argument is absent
    or empty, the parsed argument otherwise. *)
Lemma pattern_path_verdict (relpath : PurePath) (pattern : option string) :
  _test_pattern Fnmatch.fnmatch relpath (pattern_path pattern)
  = match pattern with
    | Some (String c s) =>
        _test_pattern Fnmatch.fnmatch relpath (Some (parse (String c s)))
    | _ => Some true
    end.
Proof. destruct pattern as [[|c s]|]; reflexivity. Qed.

(** C6: a member with at most [strip] segments is excluded.  With more, the
    pattern, if one is given, is tested against the unstripped path: a
    member it rejects is excluded, a member it accepts goes to the
    destination joined with the path less its first [strip] segments, as a
    directory made together with its parents, or as a file that holds the
    member's bytes with the member's mode.  ["bin/mongod.exe"] goes to
    ["<dest>/mongod.exe"] with [strip = 1] and is excluded with [strip = 2];
    with [strip = 0] the directory ["<dest>/bin"] is made for it; the
    pattern ["bin/*.exe"] accepts it and the pattern ["mongod.exe"], which
    fits the stripped path only, rejects it. *)
Theorem C6_extract_member_strip (fs : filesystem) (out relpath : PurePath)
    (pattern : option string) (strip : Z) (is_dir : bool) (opener : res Infile)
    (modebits : Z) (test : bool) :
  0 <= strip ->
  let run := _maybe_extract_member fs out relpath pattern strip is_dir opener
               modebits test in
  let verdict :=
    match pattern with
    | Some (String c s) =>
        _test_pattern Fnmatch.fnmatch relpath (Some (parse (String c s)))
    | _ => Some true
    end in
  let dest := join out (_pathjoin (drop (Z.to_nat strip) relpath)) in
  (Z.of_nat (List.length relpath) <= strip -> run = Ok (0, fs))
  /\ (strip < Z.of_nat (List.length relpath) ->
      (exists b, verdict = Some b)
      /\ (verdict = Some false -> run = Ok (0, fs))
      /\ (verdict = Some true -> test = true -> run = Ok (1, fs))
      /\ (verdict = Some true -> test = false -> is_dir = true ->
          run <> Raise RecursionError
          /\ forall n fs', run = Ok (n, fs') ->
               n = 1 /\ only_new_dirs fs fs'
               /\ (path_is_dir fs' dest = true \/ path_is_file fs dest = true))
      /\ (verdict = Some true -> test = false -> is_dir = false ->
          forall n fs', run = Ok (n, fs') ->
            n = 1 /\ exists infile,
              opener = Ok infile /\ in_error infile = None
              /\ fs' !! dest = Some (File (in_bytes infile) modebits)))
  /\ (relative relpath ->
      _pathjoin (drop (Z.to_nat strip) relpath) = drop (Z.to_nat strip) relpath)
  /\ _maybe_extract_member example_fs ["/"; "dest"] (parse "bin/mongod.exe")
       None 1 false (Ok (whole "MZ")) 511 false
     = Ok (1, <[ ["/"; "dest"; "mongod.exe"] := File "MZ" 511 ]> example_fs)
  /\ _maybe_extract_member example_fs ["/"; "dest"] (parse "bin/mongod.exe")
       None 2 false (Ok (whole "MZ")) 511 false
     = Ok (0, example_fs)
  /\ _maybe_extract_member example_fs ["/"; "dest"] (parse "bin/mongod.exe")
       None 0 false (Ok (whole "MZ")) 511 false
     = Ok (1, <[ ["/"; "dest"; "bin"; "mongod.exe"] := File "MZ" 511 ]>
                (<[ ["/"; "dest"; "bin"] := Dir ]> example_fs))
  /\ _maybe_extract_member example_fs ["/"; "dest"] (parse "bin/mongod.exe")
       (Some "bin/*.exe") 1 false (Ok (whole "MZ")) 511 false
     = Ok (1, <[ ["/"; "dest"; "mongod.exe"] := File "MZ" 511 ]> example_fs)
  /\ _maybe_extract_member example_fs ["/"; "dest"] (parse "bin/mongod.exe")
       (Some "mongod.exe") 1 false (Ok (whole "MZ")) 511 false
     = Ok (0, example_fs).
Proof.
  intros Hstrip run verdict dest.
  assert (Hslice : slice_from relpath strip = drop (Z.to_nat strip) relpath).
  { unfold slice_from.
    now replace (strip <? 0) with false by (symmetry; apply Z.ltb_ge; lia). }
  assert (Hverdict : _test_pattern Fnmatch.fnmatch relpath (pattern_path pattern)
                     = verdict) by apply pattern_path_verdict.
  split; [|split; [|split; [|split; [|split; [|split; [|split]]]]]].
  - intros H. unfold run, _maybe_extract_member.
    now replace (Z.of_nat (List.length relpath) <=? strip) with true
      by (symmetry; apply Z.leb_le; lia).
  - intros H.
    assert (Hrun : run =
      match verdict with
      | None => Raise RecursionError
      | Some false => Ok (0, fs)
      | Some true =>
          if test then Ok (1, fs)
          else if is_dir then fs1 ← _mkdir fs dest; Ok (1, fs1)
          else
            infile ← opener;
            fs1 ← _mkdir fs (parent dest);
            fs2 ← write_file fs1 dest (in_bytes infile);
            copy_end infile;;
            fs3 ← chmod fs2 dest modebits;
            Ok (1, fs3)
      end).
    { unfold run, _maybe_extract_member, dest. rewrite Hslice, Hverdict.
      now replace (Z.of_nat (List.length relpath) <=? strip) with false
        by (symmetry; apply Z.leb_gt; lia). }
    rewrite Hrun. clear Hrun.
    assert (Hsome : exists b, verdict = Some b).
    { rewrite <- Hverdict. apply test_pattern_verdict. }
    clearbody dest verdict run.
    split; [exact Hsome|]. split; [now intros ->|].
    split; [now intros -> ->|]. split.
    + intros -> -> ->. unfold mbind, res_bind.
      destruct (mkdir_ok fs dest) as [Hne Hok].
      destruct (_mkdir fs dest) as [fs1|e].
      * split; [discriminate|]. intros n fs' E. injection E as <- <-.
        split; [reflexivity|]. now apply Hok.
      * split; [congruence | discriminate].
    + intros -> -> -> n fs' Hok. unfold mbind, res_bind in Hok.
      destruct opener as [infile|e]; [|discriminate].
      destruct (_mkdir fs (parent dest)) as [fs1|e]; [|discriminate].
      destruct (write_file fs1 dest (in_bytes infile)) as [fs2|e] eqn:Hw;
        [|discriminate].
      unfold copy_end in Hok.
      destruct (in_error infile) as [e|] eqn:He; [discriminate|].
      destruct (chmod fs2 dest modebits) as [fs3|e] eqn:Hc; [|discriminate].
      injection Hok as <- <-. split; [reflexivity|].
      exists infile. split; [reflexivity|]. split; [exact He|].
      exact (write_then_chmod _ _ _ _ _ _ Hw Hc).
  - intros Hrel. apply PathFacts.pathjoin_relative.
    now apply PathFacts.relative_drop.
  - vm_compute. reflexivity.
  - vm_compute. reflexivity.
  - vm_compute. reflexivity.
  - vm_compute. reflexivity.
  - vm_compute. reflexivity.
Qed.

Lemma C6_extract_member_strip_witness :
  _maybe_extract_member example_fs ["/"; "dest"] ["bin"; "mongod.exe"]
    (Some "mongod.exe") 1 false (Ok (whole "MZ")) 511 false
  = Ok (0, example_fs).
Proof.
  destruct (C6_extract_member_strip example_fs ["/"; "dest"]
              ["bin"; "mongod.exe"] (Some "mongod.exe") 1 false
              (Ok (whole "MZ")) 511 false
              ltac:(discriminate)) as (_ & H & _).
  destruct (H eq_refl) as (_ & Hb & _).
  apply Hb. reflexivity.
Defined.

(** ** Choosing the archive format *)

Lemma from_last_dot_gz (s : string) : from_last_dot (s ++ ".gz") = Some ".gz".
Proof.
  induction s as [|c s IH]; [reflexivity|].
  rewrite StrFacts.append_cons. cbn [from_last_dot]. now rewrite IH.
Qed.

Lemma path_suffix_tar_gz (ar : PurePath) (base : string) :
  name ar = base ++ ".tar.gz" -> path_suffix ar = ".gz".
Proof.
  intros H. unfold path_suffix. rewrite H.
  destruct base as [|c base].
  - reflexivity.
  - rewrite StrFacts.append_cons.
    replace (base ++ ".tar.gz") with ((base ++ ".tar") ++ ".gz").
    + now rewrite from_last_dot_gz.
    + clear. induction base as [|c base IH]; [reflexivity|].
      now rewrite !StrFacts.append_cons, IH.
Qed.

(** X19: the archive format is chosen by the last suffix of the file name
    alone.  A file named [*.tar.gz] has suffix [.gz] and is refused with a
    runtime error before it is opened; a [.tgz] file is read as a tar
    archive, and its dry run reports [Empty] exactly when no member passes
    the filters. *)
Theorem X19_expand_archive_by_suffix
    (tar_members : string -> res (list TarInfo))
    (zip_infolist : string -> res (list ZipInfo))
    (ar dest : PurePath) (pattern : option string) (strip : Z) (test : bool)
    (fs : filesystem) (base : string) :
  (name ar = base ++ ".tar.gz" ->
   _expand_archive tar_members zip_infolist ar dest pattern strip test fs
   = (Raise RuntimeError, fs))
  /\ (forall bytes mode members,
        path_suffix ar = ".tgz" ->
        node_at fs ar = Some (File bytes mode) ->
        tar_members bytes = Ok members ->
        _expand_archive tar_members zip_infolist ar dest pattern strip true fs
        = (Ok (if count_of (fun mem => member_passes pattern strip
                                         (parse (ti_name mem))) members =? 0
               then Empty else Okay), fs)).
Proof.
  split.
  - intros H. unfold _expand_archive.
    rewrite (path_suffix_tar_gz ar base H). reflexivity.
  - intros bytes mode members Hs Hn Ht. unfold _expand_archive.
    rewrite Hs. change (String.eqb ".tgz" ".zip") with false.
    change (String.eqb ".tgz" ".tgz") with true. cbn iota.
    unfold io_bind at 1 2 3. unfold read_file, io_lift. rewrite Hn, Ht.
    rewrite expand_tgz_test. rewrite Z.add_0_l.
    destruct (count_of _ members =? 0); reflexivity.
Qed.

Lemma X19_expand_archive_by_suffix_witness :
  _expand_archive example_tar example_zip ["/"; "cache"; "mongodb.tar.gz"]
    ["/"; "dest"] None 0 false example_fs
  = (Raise RuntimeError, example_fs).
Proof.
  apply (proj1 (X19_expand_archive_by_suffix example_tar example_zip
                  ["/"; "cache"; "mongodb.tar.gz"] ["/"; "dest"] None 0 false
                  example_fs "mongodb")).
  reflexivity.
Defined.

(** ** Patterns that fix the end of a name *)

Lemma tokenize_star_literal (lit : string) :
  literal_segment lit = true ->
  Fnmatch.tokenize (S (String.length ("*" ++ lit))) ("*" ++ lit)
  = Fnmatch.Star :: map Fnmatch.Lit (list_ascii_of_string lit).
Proof.
  intros H. change ("*" ++ lit) with (String "*" lit).
  change (Fnmatch.tokenize (S (String.length (String "*" lit))) (String "*" lit))
    with (Fnmatch.Star :: Fnmatch.tokenize (String.length (String "*" lit)) lit).
  f_equal. apply tokenize_literal; [exact H | cbn [String.length]; lia].
Qed.

Lemma fnmatch_star_literal (name lit : string) :
  literal_segment lit = true ->
  Fnmatch.fnmatch name ("*" ++ lit) = str_endswith lit name.
Proof.
  intros H. unfold Fnmatch.fnmatch. rewrite (tokenize_star_literal lit H).
  cbn [Fnmatch.match_tokens].
  induction name as [|c name IH]; cbn [str_endswith]; rewrite match_literal.
  - reflexivity.
  - now rewrite IH.
Qed.

(** X20: a one-segment pattern [*text], where [text] holds no [*], [?] or
    [[], matches a relative path exactly when the first segment of the
    path ends with [text]: ["*.exe"] looks at the first segment only, so
    it takes ["mongod.exe"] at the top level, leaves out ["bin/mongod.exe"]
    and takes everything below a directory named ["tools.exe"]. *)
Theorem X20_star_pattern_tests_first_segment (path : list string)
    (lit : string) :
  relative path -> clean_segment ("*" ++ lit) = true ->
  literal_segment lit = true ->
  _test_pattern Fnmatch.fnmatch path (Some ["*" ++ lit])
  = Some match path with
         | first :: _ => str_endswith lit first
         | [] => false
         end.
Proof.
  intros Hp Hc Hl.
  rewrite test_pattern_glob_match by (try exact Hp; constructor).
  cbn [glob_match]. destruct path as [|q qt]; [reflexivity|].
  replace (String.eqb ("*" ++ lit) "**") with false.
  - now rewrite (fnmatch_star_literal q lit Hl), andb_true_r.
  - symmetry. apply String.eqb_neq. change ("*" ++ lit) with (String "*" lit).
    intros E. injection E as ->. discriminate.
Qed.

Lemma X20_star_pattern_tests_first_segment_witness :
  _test_pattern Fnmatch.fnmatch ["bin"; "mongod.exe"] (Some ["*" ++ ".exe"])
  = Some (str_endswith ".exe" "bin").
Proof.
  apply (X20_star_pattern_tests_first_segment ["bin"; "mongod.exe"] ".exe");
    first [reflexivity | repeat constructor].
Defined.

(** ** More on the download cache *)

Lemma write_file_lookup (fs fs2 : filesystem) (p : PurePath) (content : string) :
  write_file fs p content = Ok fs2 ->
  (exists mode, fs2 !! p = Some (File content mode))
  /\ path_is_file fs2 p = true /\ path_exists fs2 p = true.
Proof.
  intros Hw.
  assert (Hnd : node_at fs p <> Some Dir).
  { intros E. unfold write_file in Hw. rewrite E in Hw. discriminate. }
  assert (H : exists mode, fs2 = <[p := File content mode]> fs).
  { unfold write_file in Hw. destruct (node_at fs p) as [[|c m]|].
    - congruence.
    - injection Hw as <-. now exists m.
    - destruct (node_at fs (parent p)) as [[|c m]|]; try discriminate.
      injection Hw as <-. now exists default_mode. }
  destruct H as [mode ->]. split; [|split].
  - exists mode. apply lookup_insert_eq.
  - unfold path_is_file. now rewrite (node_at_insert fs p _ Hnd).
  - unfold path_exists. now rewrite (node_at_insert fs p _ Hnd).
Qed.

Section CacheFacts.

Variable sha256_hexdigest : string -> string.
Variable _dirpath : PurePath.

(** What a stored response leaves behind, case by case. *)
Lemma store_response_cases (fs : filesystem) (table : http_table)
    (url : string) (resp : Response) :
  let dest := cache_dest sha256_hexdigest _dirpath url in
  let out := store_response sha256_hexdigest _dirpath fs table url resp in
  (exists fs1 fs2,
      _mkdir fs (parent dest) = Ok fs1
      /\ write_file fs1 dest (resp_body resp) = Ok fs2
      /\ content_length resp = Ok (Z.of_nat (String.length (resp_body resp)))
      /\ out = (Ok (mkDownloadResult true dest), fs2,
                <[url := (resp_headers resp !! "ETag",
                          resp_headers resp !! "Last-Modified")]> table))
  \/ (exists e, fst (fst out) = Raise e /\ snd out = table
                /\ (forall fs1 fs2 n,
                      _mkdir fs (parent dest) = Ok fs1 ->
                      write_file fs1 dest (resp_body resp) = Ok fs2 ->
                      content_length resp = Ok n ->
                      e = RuntimeError /\ snd (fst out) = fs2
                      /\ n <> Z.of_nat (String.length (resp_body resp)))).
Proof.
  cbv zeta. unfold store_response.
  set (dest := cache_dest sha256_hexdigest _dirpath url).
  destruct (_mkdir fs (parent dest)) as [fs1|e] eqn:Em.
  2:{ right. exists e. split; [reflexivity|]. split; [reflexivity|].
      intros; congruence. }
  destruct (content_length resp) as [n|e] eqn:El.
  2:{ right. exists e. split; [reflexivity|]. split; [reflexivity|].
      intros; congruence. }
  destruct (write_file fs1 dest (resp_body resp)) as [fs2|e] eqn:Ew.
  2:{ right. exists e. split; [reflexivity|]. split; [reflexivity|].
      intros; congruence. }
  destruct (Z.of_nat (String.length (resp_body resp)) =? n) eqn:E; cbn [negb].
  - apply Z.eqb_eq in E. subst n. left. now exists fs1, fs2.
  - apply Z.eqb_neq in E. right. exists RuntimeError.
    split; [reflexivity|]. split; [reflexivity|].
    intros a b c Ha Hb Hc. cbn [fst snd]. repeat split; congruence.
Qed.

End CacheFacts.

(** X21: a fetch that reports a change has stored the whole response: the
    file at the path it returns holds the body, the declared length is the
    length of the body, and the table holds the response's ETag and
    Last-Modified for the URL in place of what was there. *)
Theorem X21_full_download_is_stored
    (sha256_hexdigest : string -> string) (urlopen : Request -> res Response)
    (_dirpath : PurePath) (fs : filesystem) (table : http_table)
    (url : string) (resp : Response) (r : DownloadResult) :
  let fetched := download_file sha256_hexdigest urlopen _dirpath fs table url in
  urlopen (mkRequest url
             (request_headers sha256_hexdigest _dirpath fs table url))
  = Ok resp ->
  ft_result fetched = Ok r ->
  is_changed r = true
  /\ path r = cache_dest sha256_hexdigest _dirpath url
  /\ (exists mode, ft_fs fetched !! path r = Some (File (resp_body resp) mode))
  /\ content_length resp = Ok (Z.of_nat (String.length (resp_body resp)))
  /\ ft_table fetched
     = <[url := (resp_headers resp !! "ETag",
                 resp_headers resp !! "Last-Modified")]> table.
Proof.
  cbv zeta. unfold download_file. intros Hresp. rewrite Hresp.
  destruct (store_response_cases sha256_hexdigest _dirpath fs table url resp)
    as [(fs1 & fs2 & Hm & Hw & Hl & Hout)|(e & He & _)].
  - rewrite Hout. cbn [ft_result ft_fs ft_table]. intros H. injection H as <-.
    cbn [is_changed path]. repeat split; try assumption.
    now apply write_file_lookup in Hw as [Hf _].
  - destruct (store_response _ _ fs table url resp) as [[res fs'] t'].
    cbn [fst] in He. cbn [ft_result]. congruence.
Qed.

Lemma X21_full_download_is_stored_witness :
  ft_table (download_file example_digest example_full ["/"; "cache"] ∅
              example_table example_url)
  = <[example_url := (Some "v2", None)]> example_table.
Proof.
  refine (proj2 (proj2 (proj2 (proj2
    (X21_full_download_is_stored example_digest example_full ["/"; "cache"] ∅
       example_table example_url
       (mkResponse {[ "ETag" := "v2"; "Content-Length" := "2" ]} "{}")
       (mkDownloadResult true ["/"; "cache"; "files"; "3f2a"; "full.json"])
       eq_refl _))))).
  vm_compute. reflexivity.
Defined.

Lemma request_headers_lookup (sha256_hexdigest : string -> string)
    (_dirpath : PurePath) (fs : filesystem) (table : http_table) (url : string)
    (etag modtime : option string) :
  table !! url = Some (etag, modtime) ->
  path_exists fs (cache_dest sha256_hexdigest _dirpath url) = true ->
  request_headers sha256_hexdigest _dirpath fs table url !! "If-None-Match"
  = truthy etag
  /\ request_headers sha256_hexdigest _dirpath fs table url !! "If-Modified-Since"
     = truthy modtime.
Proof.
  intros Ht He. unfold request_headers. rewrite Ht, He.
  cbn [default from_option id negb].
  destruct (truthy etag) as [e|], (truthy modtime) as [m|]; split;
    repeat first [ rewrite lookup_insert_eq
                 | rewrite lookup_insert_ne by discriminate
                 | rewrite lookup_empty ];
    reflexivity.
Qed.

(** X22: after a fetch that stored a response, the next request for the
    URL carries the stored ETag and Last-Modified (when not empty) as
    If-None-Match and If-Modified-Since; if it is answered "not modified",
    the fetch reports no change, returns the same path, and the file still
    holds the first response's body. *)
Theorem X22_second_fetch_revalidates
    (sha256_hexdigest : string -> string)
    (urlopen1 urlopen2 : Request -> res Response)
    (_dirpath : PurePath) (fs : filesystem) (table : http_table)
    (url : string) (resp : Response) (r : DownloadResult) :
  let first := download_file sha256_hexdigest urlopen1 _dirpath fs table url in
  let second := download_file sha256_hexdigest urlopen2 _dirpath
                  (ft_fs first) (ft_table first) url in
  urlopen1 (mkRequest url
              (request_headers sha256_hexdigest _dirpath fs table url))
  = Ok resp ->
  ft_result first = Ok r ->
  req_headers (ft_request second) !! "If-None-Match"
  = truthy (resp_headers resp !! "ETag")
  /\ req_headers (ft_request second) !! "If-Modified-Since"
     = truthy (resp_headers resp !! "Last-Modified")
  /\ (urlopen2 (ft_request second) = Raise (HTTPError 304) ->
      ft_result second = Ok (mkDownloadResult false (path r))
      /\ ft_fs second = ft_fs first
      /\ exists mode,
           ft_fs second !! path r = Some (File (resp_body resp) mode)).
Proof.
  cbv zeta. intros Hresp Hr.
  set (dest := cache_dest sha256_hexdigest _dirpath url).
  assert (Hfirst : exists fs1 fs2,
            write_file fs1 dest (resp_body resp) = Ok fs2
            /\ ft_fs (download_file sha256_hexdigest urlopen1 _dirpath fs
                        table url) = fs2
            /\ ft_table (download_file sha256_hexdigest urlopen1 _dirpath fs
                           table url)
               = <[url := (resp_headers resp !! "ETag",
                           resp_headers resp !! "Last-Modified")]> table
            /\ r = mkDownloadResult true dest).
  { revert Hr. unfold download_file. rewrite Hresp.
    destruct (store_response_cases sha256_hexdigest _dirpath fs table url resp)
      as [(fs1 & fs2 & Hm & Hw & Hl & Hout)|(e & He & _)].
    - rewrite Hout. cbn [ft_result ft_fs ft_table]. intros Hr.
      exists fs1, fs2. split; [exact Hw|]. split; [reflexivity|].
      split; [reflexivity|]. now injection Hr as <-.
    - destruct (store_response _ _ fs table url resp) as [[res fs'] t'].
      cbn [fst ft_result] in *. congruence. }
  set (first := download_file sha256_hexdigest urlopen1 _dirpath fs table url)
    in *.
  destruct Hfirst as (fs1 & fs2 & Hw & Hfs & Htab & ->).
  apply write_file_lookup in Hw as ((mode & Hlook) & Hfile & Hex).
  assert (Hreq : forall u,
            ft_request (download_file sha256_hexdigest u _dirpath
                          (ft_fs first) (ft_table first) url)
            = mkRequest url (request_headers sha256_hexdigest _dirpath
                               (ft_fs first) (ft_table first) url)).
  { intros u. unfold download_file.
    destruct (u _) as [resp'|e].
    - now destruct (store_response _ _ _ _ url resp') as [[a b] c].
    - destruct e; try reflexivity.
      destruct (negb (code =? 304)); [reflexivity|].
      now destruct (negb (path_is_file _ _)). }
  rewrite !Hreq. cbn [req_headers].
  destruct (request_headers_lookup sha256_hexdigest _dirpath (ft_fs first)
              (ft_table first) url (resp_headers resp !! "ETag")
              (resp_headers resp !! "Last-Modified")) as [H1 H2].
  { rewrite Htab. apply lookup_insert_eq. }
  { rewrite Hfs. exact Hex. }
  split; [exact H1|]. split; [exact H2|].
  intros H304. unfold download_file. rewrite H304.
  change (304 =? 304) with true. cbn [negb]. fold dest.
  rewrite Hfs, Hfile. cbn [negb ft_result ft_fs path].
  repeat split. now exists mode.
Qed.

Lemma X22_second_fetch_revalidates_witness :
  ft_result
    (download_file example_digest example_unchanged ["/"; "cache"]
       (ft_fs (download_file example_digest example_full ["/"; "cache"] ∅ ∅
                 example_url))
       (ft_table (download_file example_digest example_full ["/"; "cache"] ∅ ∅
                    example_url))
       example_url)
  = Ok (mkDownloadResult false ["/"; "cache"; "files"; "3f2a"; "full.json"]).
Proof.
  refine (proj1 (proj2 (proj2
    (X22_second_fetch_revalidates example_digest example_full
       example_unchanged ["/"; "cache"] ∅ ∅ example_url
       (mkResponse {[ "ETag" := "v2"; "Content-Length" := "2" ]} "{}")
       (mkDownloadResult true ["/"; "cache"; "files"; "3f2a"; "full.json"])
       eq_refl _)) eq_refl)).
  vm_compute. reflexivity.
Defined.

(** X23: the validators of a URL change only when a fetch stores a
    response: a fetch that raises or reports no change leaves the table as
    it was.  When the body is shorter or longer than the declared length,
    the fetch raises a runtime error after the body has been written to the
    cache file. *)
Theorem X23_validators_change_only_on_success
    (sha256_hexdigest : string -> string) (urlopen : Request -> res Response)
    (_dirpath : PurePath) (fs : filesystem) (table : http_table)
    (url : string) :
  let dest := cache_dest sha256_hexdigest _dirpath url in
  let fetched := download_file sha256_hexdigest urlopen _dirpath fs table url in
  (forall e, ft_result fetched = Raise e -> ft_table fetched = table)
  /\ (forall r, ft_result fetched = Ok r -> is_changed r = false ->
        ft_table fetched = table /\ ft_fs fetched = fs)
  /\ (forall resp n fs1 fs2,
        urlopen (mkRequest url
                   (request_headers sha256_hexdigest _dirpath fs table url))
        = Ok resp ->
        content_length resp = Ok n ->
        n <> Z.of_nat (String.length (resp_body resp)) ->
        _mkdir fs (parent dest) = Ok fs1 ->
        write_file fs1 dest (resp_body resp) = Ok fs2 ->
        ft_result fetched = Raise RuntimeError /\ ft_fs fetched = fs2).
Proof.
  cbv zeta. unfold download_file.
  destruct (urlopen _) as [resp|e] eqn:Eu.
  - destruct (store_response_cases sha256_hexdigest _dirpath fs table url resp)
      as [(fs1 & fs2 & Hm & Hw & Hl & Hout)|(e & He & Ht & Hmis)].
    + rewrite Hout. cbn [ft_result ft_fs ft_table]. split; [discriminate|].
      split.
      * intros r H. injection H as <-. discriminate.
      * intros resp' n a b H1 H2 H3 H4 H5. injection H1 as <-. congruence.
    + destruct (store_response _ _ fs table url resp) as [[res fs'] t'].
      cbn [fst snd] in *. cbn [ft_result ft_fs ft_table]. subst.
      split; [reflexivity|]. split; [discriminate|].
      intros resp' n a b H1 H2 H3 H4 H5. injection H1 as <-.
      destruct (Hmis a b n H4 H5 H2) as (-> & -> & _). now split.
  - assert (H : forall A (x : A), Raise e = Ok x -> False) by discriminate.
    destruct e;
      try (cbn [ft_result ft_fs ft_table]; split; [reflexivity|];
           split; [discriminate | intros; discriminate]).
    destruct (negb (code =? 304));
      [cbn [ft_result ft_fs ft_table]; split; [reflexivity|];
       split; [discriminate | intros; discriminate]|].
    destruct (negb (path_is_file fs _)); cbn [ft_result ft_fs ft_table];
      (split; [reflexivity|]; split; [|intros; discriminate]).
    + discriminate.
    + intros r _ _. now split.
Qed.

Lemma X23_validators_change_only_on_success_witness :
  ft_result (download_file example_digest example_short ["/"; "cache"]
               example_fs example_table example_url)
  = Raise RuntimeError
  /\ ft_table (download_file example_digest example_short ["/"; "cache"]
                 example_fs example_table example_url)
     = example_table.
Proof.
  pose proof (X23_validators_change_only_on_success example_digest
                example_short ["/"; "cache"] example_fs example_table
                example_url) as (H1 & _ & H3).
  assert (H : ft_result (download_file example_digest example_short
                           ["/"; "cache"] example_fs example_table example_url)
              = Raise RuntimeError).
  { refine (proj1 (H3 (mkResponse {[ "ETag" := "v2"; "Content-Length" := "5" ]}
                         "{}") 5 _ _ eq_refl eq_refl _ eq_refl eq_refl)).
    discriminate. }
  split; [exact H | exact (H1 _ H)].
Defined.
